(** * Planet notebooks: orchestration helpers

    A shallow embedding of the helper functions defined in three of the
    notebooks, the properties the specification states about them, and
    further properties that the code has:

    - [analysis-ready-data/ard_2_use_case_1.ipynb]: grouping of scene ids by
      acquisition date, order requests, [create_orders], the multi-order
      poller, [poll_for_download] and [download_orders], [unzip];
    - [orders/ordering_and_delivery.ipynb]: [place_order], the single-order
      poller and [download_results];
    - [webtiles/visualize_imagery_over_time.ipynb]: [get_item_ids],
      [get_tile_urls] and [animate].

    Python dictionaries that are used as maps are [gmap]s, Python sets are
    [gset]s, strings are [string]s.  The remote service and the local file
    system are explicit state. *)

From Stdlib Require Import ZArith Ascii String DecimalString.
From stdpp Require Import base tactics option list strings gmap sets fin_maps.

Local Open Scope Z_scope.

(** ** Python strings *)

Module Py.

(** [s.split(sep)] for a separator of one character: the pieces of [s]
    between the occurrences of [sep].  The result is never empty. *)
Fixpoint split (sep : ascii) (s : string) : list string :=
  match s with
  | EmptyString => [EmptyString]
  | String c r =>
      if Ascii.eqb c sep then EmptyString :: split sep r
      else match split sep r with
           | [] => [String c EmptyString]
           | p :: ps => String c p :: ps
           end
  end.

(** [l[0]] on a list of strings; Python raises [IndexError] on the empty
    list, which is [None] here. *)
Definition index0 (l : list string) : option string := head l.

(** [c in s] for a character [c]. *)
Fixpoint contains (c : ascii) (s : string) : bool :=
  match s with
  | EmptyString => false
  | String d r => Ascii.eqb d c || contains c r
  end.

(** [x in l] for a list of strings [l]. *)
Definition str_in (x : string) (l : list string) : bool :=
  existsb (String.eqb x) l.

(** [list(s)]: the characters of [s] as one-character strings; it is what
    [lst += s] appends to a list. *)
Fixpoint chars (s : string) : list string :=
  match s with
  | EmptyString => []
  | String c r => String c EmptyString :: chars r
  end.

(** [l.remove(x)]: drops the first occurrence of [x]; Python raises
    [ValueError] when there is none, which is [None] here. *)
Fixpoint remove (x : string) (l : list string) : option (list string) :=
  match l with
  | [] => None
  | y :: r => if String.eqb y x then Some r
              else option_map (cons y) (remove x r)
  end.

(** [s.endswith(suffix)]: [s] is [suffix], or what follows its first
    character ends with [suffix]. *)
Fixpoint endswith (s suffix : string) : bool :=
  String.eqb s suffix
  || match s with
     | EmptyString => false
     | String _ r => endswith r suffix
     end.

(** [range(n)] *)
Definition range (n : Z) : list Z := Z.of_nat <$> seq 0 (Z.to_nat n).

End Py.

(** ** Exceptions, traces and loops *)

Module Ctl.

(** The exceptions that the modelled code and library calls raise. *)
Inductive exn :=
| NameError (name : string)
| Exception (arg : string)
| ValueError (msg : string)
| KeyError (key : string)
| IndexError
| FileNotFoundError
| FileExistsError
| NotADirectoryError
| IsADirectoryError
| BadZipFile.

(** [isinstance(e, FileNotFoundError)], [isinstance(e, FileExistsError)] *)
Definition is_FileNotFoundError (e : exn) : bool :=
  match e with FileNotFoundError => true | _ => false end.

Definition is_FileExistsError (e : exn) : bool :=
  match e with FileExistsError => true | _ => false end.

(** What a run does to the outside, in order: a status request for an order
    (or order url) with the status string of the answer, a printed line, a
    call of [time.sleep], the download of a url, and the calls that change
    the file system. *)
Inductive event :=
| EGet (target : string) (state : string)
| EPrint (line : string)
| ESleep (secs : Z)
| EDownload (url : string)
| EMkdir (dir : list string)
| EWrite (file : list string)
| ERmtree (dir : list string)
| EExtract (archive target : list string).

(** How the body of a loop ends: it falls through to the next iteration,
    executes [break], or raises. *)
Inductive ctl (St : Type) :=
| Next (st : St)
| Break (st : St)
| Raise (e : exn) (st : St).
Arguments Next {St} st.
Arguments Break {St} st.
Arguments Raise {St} e st.

(** How a function ends; the state is that of its local variables and of
    the world at that point. *)
Inductive result (St : Type) :=
| Returned (st : St)
| Raised (e : exn) (st : St).
Arguments Returned {St} st.
Arguments Raised {St} e st.

Definition final {St} (r : result St) : St :=
  match r with Returned st => st | Raised _ st => st end.

Definition raised {St} (r : result St) : bool :=
  match r with Returned _ => false | Raised _ _ => true end.

(** [while cond: body], with [fuel] bounding the number of tests of [cond]. *)
Fixpoint while {St} (fuel : nat) (cond : St → bool) (body : St → ctl St)
    (st : St) : option (result St) :=
  match fuel with
  | O => None
  | S fuel' =>
      if cond st then
        match body st with
        | Next st' => while fuel' cond body st'
        | Break st' => Some (Returned st')
        | Raise e st' => Some (Raised e st')
        end
      else Some (Returned st)
  end.

(** [for x in xs: body], for a body without [break]; [xs] is the list the
    loop iterates over, evaluated once. *)
Fixpoint for_each {A St} (xs : list A) (body : A → St → ctl St) (st : St)
    : ctl St :=
  match xs with
  | [] => Next st
  | x :: rest =>
      match body x st with
      | Next st' => for_each rest body st'
      | Break st' => Break st'
      | Raise e st' => Raise e st'
      end
  end.

End Ctl.
Export Ctl.

(** ** [str.format] and [str] of an integer *)

Module PyFormat.

(** [str(n)] for an integer. *)
Definition str_of_Z (n : Z) : string := NilZero.string_of_int (Z.to_int n).

Fixpoint lookup_kwarg (name : string) (kwargs : list (string * string))
    : option string :=
  match kwargs with
  | [] => None
  | (k, v) :: rest => if String.eqb k name then Some v else lookup_kwarg name rest
  end.

(** [template.format(...)] with positional and keyword arguments, for
    templates with the fields [{}] and [{name}] (no escaped braces, no
    conversions): [field] is the name of the replacement field being read,
    if any. *)
Fixpoint format_go (template : string) (field : option string)
    (args : list string) (kwargs : list (string * string)) : exn + string :=
  match template with
  | EmptyString =>
      match field with
      | None => inr EmptyString
      | Some _ => inl (ValueError "expected '}' before end of string")
      end
  | String c rest =>
      match field with
      | None =>
          if Ascii.eqb c "{" then format_go rest (Some EmptyString) args kwargs
          else if Ascii.eqb c "}"
          then inl (ValueError "Single '}' encountered in format string")
          else match format_go rest None args kwargs with
               | inl e => inl e
               | inr out => inr (String c out)
               end
      | Some fname =>
          if Ascii.eqb c "}" then
            match fname with
            | EmptyString =>
                match args with
                | [] => inl IndexError
                | a :: args' =>
                    match format_go rest None args' kwargs with
                    | inl e => inl e
                    | inr out => inr (a +:+ out)
                    end
                end
            | _ =>
                match lookup_kwarg fname kwargs with
                | None => inl (KeyError fname)
                | Some v =>
                    match format_go rest None args kwargs with
                    | inl e => inl e
                    | inr out => inr (v +:+ out)
                    end
                end
            end
          else format_go rest (Some (fname +:+ String c EmptyString)) args kwargs
      end
  end.

Definition format (template : string) (args : list string)
    (kwargs : list (string * string)) : exn + string :=
  format_go template None args kwargs.

End PyFormat.

(** ** The local file system *)

(** The calls of [os], [os.path], [pathlib], [shutil] and [zipfile] that the
    notebooks make, on a file system that is a finite map from paths to
    files and directories.  A call returns the file system it leaves, or
    raises and leaves it as it is at that point. *)

Module Fs.

(** A path is the list of its components, innermost first, so that the
    parent of a path is its tail: [data/a/b.tif] is [["b.tif"; "a"; "data"]]
    and [[]] is the current directory.  An absolute path ends in the
    component ["/"].  Components [..] and symbolic links are not resolved:
    the model covers names without them. *)
Abbreviation path := (list string).

(** The bytes of a file; the bytes of a zip archive are given by its
    members, each a relative path with the bytes of the member, or [None]
    for a directory entry. *)
Inductive content :=
| Bytes (b : string)
| Zip (members : list (path * option string)).

Inductive node :=
| File (c : content)
| Dir.

Abbreviation fs := (gmap path node).

(** What is at a path; the current directory and the root always exist. *)
Definition stat (f : fs) (p : path) : option node :=
  match p with
  | [] => Some Dir
  | [c] => if String.eqb c "/" then Some Dir else f !! p
  | _ => f !! p
  end.

(** [os.path.exists], [path.exists()] *)
Definition exists_ (f : fs) (p : path) : bool :=
  match stat f p with Some _ => true | None => false end.

(** [os.path.isdir], [path.is_dir()] *)
Definition isdir (f : fs) (p : path) : bool :=
  match stat f p with Some Dir => true | _ => false end.

Definition starts_with_slash (s : string) : bool :=
  match s with
  | String c _ => Ascii.eqb c "/"
  | EmptyString => false
  end.

Fixpoint ends_with_slash (s : string) : bool :=
  match s with
  | EmptyString => false
  | String c EmptyString => Ascii.eqb c "/"
  | String _ r => ends_with_slash r
  end.

(** [os.path.join(a, b)] *)
Definition os_path_join (a b : string) : string :=
  if starts_with_slash b then b
  else if String.eqb a "" || ends_with_slash a then a +:+ b
  else a +:+ "/" +:+ b.

(** The components of a path string, outermost first: empty components and
    [.] are dropped. *)
Definition parts (s : string) : list string :=
  filter (λ c, c ≠ "" ∧ c ≠ ".") (Py.split "/" s).

(** [pathlib.Path(s)] *)
Definition Path (s : string) : path :=
  rev (parts s) ++ (if starts_with_slash s then ["/"] else []).

(** [str(p)] *)
Fixpoint to_string (p : path) : string :=
  match p with
  | [] => "."
  | [c] => c
  | c :: up =>
      if bool_decide (up = ["/"]) then "/" +:+ c
      else to_string up +:+ "/" +:+ c
  end.

(** [p.parent] *)
Definition parent (p : path) : path :=
  match p with
  | [] => []
  | [c] => if String.eqb c "/" then p else []
  | _ :: r => r
  end.

(** [p.name] *)
Definition name (p : path) : string :=
  match p with
  | [] => ""
  | [c] => if String.eqb c "/" then "" else c
  | c :: _ => c
  end.

(** [s.rfind(c)]: the index of the last occurrence of [c] in [s]. *)
Fixpoint rfind (c : ascii) (s : string) : option nat :=
  match s with
  | EmptyString => None
  | String d r =>
      match rfind c r with
      | Some i => Some (S i)
      | None => if Ascii.eqb d c then Some O else None
      end
  end.

(** [p.stem]: the final component without its last suffix. *)
Definition stem (p : path) : string :=
  let name := name p in
  match rfind "." name with
  | Some i =>
      if ((0 <? i) && (i <? String.length name - 1))%nat
      then String.substring 0 i name
      else name
  | None => name
  end.

(** [p / s] *)
Definition joinpath (p : path) (s : string) : path :=
  if starts_with_slash s then Path s else rev (parts s) ++ p.

(** [os.mkdir(p)] *)
Definition os_mkdir (p : path) (f : fs) : result fs :=
  match stat f p with
  | Some _ => Raised FileExistsError f
  | None =>
      match stat f (parent p) with
      | None => Raised FileNotFoundError f
      | Some (File _) => Raised NotADirectoryError f
      | Some Dir => Returned (<[p := Dir]> f)
      end
  end.

(** [p.mkdir(parents=True, exist_ok=True)]: [os.mkdir]; when the parent is
    missing, the parent is made in the same way and [os.mkdir] is tried
    again; another [OSError] is swallowed when [p] is a directory.  (The
    missing parent of [_ :: up] is [up]: the root is never missing.) *)
Fixpoint mkdir_parents (p : path) (f : fs) : result fs :=
  match os_mkdir p f with
  | Returned f' => Returned f'
  | Raised e f0 =>
      if is_FileNotFoundError e then
        match p with
        | [] => Raised e f0
        | _ :: up =>
            match mkdir_parents up f0 with
            | Raised e1 f1 => Raised e1 f1
            | Returned f1 =>
                match os_mkdir p f1 with
                | Returned f2 => Returned f2
                | Raised e2 f2 =>
                    if isdir f2 p then Returned f2 else Raised e2 f2
                end
            end
        end
      else if isdir f0 p then Returned f0 else Raised e f0
  end.

(** [os.makedirs(p)] *)
Fixpoint makedirs (p : path) (f : fs) : result fs :=
  match p with
  | [] => os_mkdir p f
  | _ :: up =>
      let made :=
        if bool_decide (up ≠ []) && negb (exists_ f up) then
          match makedirs up f with
          | Raised e f1 =>
              if is_FileExistsError e then Returned f1 else Raised e f1
          | Returned f1 => Returned f1
          end
        else Returned f in
      match made with
      | Raised e f1 => Raised e f1
      | Returned f1 => os_mkdir p f1
      end
  end.

(** [open(p, 'wb').write(c)] *)
Definition write_file (p : path) (c : content) (f : fs) : result fs :=
  match stat f p with
  | Some Dir => Raised IsADirectoryError f
  | _ =>
      match stat f (parent p) with
      | None => Raised FileNotFoundError f
      | Some (File _) => Raised NotADirectoryError f
      | Some Dir => Returned (<[p := File c]> f)
      end
  end.

(** [shutil.rmtree(d)] for a directory [d]: [d] and all below it go. *)
Definition rmtree (d : path) (f : fs) : fs :=
  filter (λ kv, ¬ d `suffix_of` kv.1) f.

(** [ZipFile(p)]: the members of the archive at [p]. *)
Definition open_zip (f : fs) (p : path)
    : exn + list (path * option string) :=
  match stat f p with
  | None => inl FileNotFoundError
  | Some Dir => inl IsADirectoryError
  | Some (File (Bytes _)) => inl BadZipFile
  | Some (File (Zip members)) => inr members
  end.

(** The extraction of one member of an archive below [target]. *)
Definition extract_member (target : path) (m : path * option string)
    (f : fs) : result fs :=
  let targetpath := m.1 ++ target in
  let upperdirs := parent targetpath in
  let made :=
    if bool_decide (upperdirs ≠ []) && negb (exists_ f upperdirs)
    then makedirs upperdirs f else Returned f in
  match made with
  | Raised e f1 => Raised e f1
  | Returned f1 =>
      match m.2 with
      | None =>
          if isdir f1 targetpath then Returned f1 else os_mkdir targetpath f1
      | Some data => write_file targetpath (Bytes data) f1
      end
  end.

(** [myzip.extractall(target)] *)
Fixpoint extractall (members : list (path * option string)) (target : path)
    (f : fs) : result fs :=
  match members with
  | [] => Returned f
  | m :: rest =>
      match extract_member target m f with
      | Raised e f1 => Raised e f1
      | Returned f1 => extractall rest target f1
      end
  end.

End Fs.

(** ** analysis-ready-data/ard_2_use_case_1.ipynb: grouping by date *)

Module Ard.

(** An item of the search result, as far as the notebook reads it:
    [item['id']] and [item['properties']['acquired']]. *)
Record properties := { acquired : string }.
Record item := { item_id : string; item_properties : properties }.

(** [item['properties']['acquired'].split('T')[0]] *)
Definition get_acquired_date (i : item) : string :=
  default "" (Py.index0 (Py.split "T" (acquired (item_properties i)))).

(** [[i['id'] for i in all_items if get_acquired_date(i) == date]] *)
Fixpoint get_date_item_ids (date : string) (all_items : list item)
  : list string :=
  match all_items with
  | [] => []
  | i :: rest =>
      if String.eqb (get_acquired_date i) date
      then item_id i :: get_date_item_ids date rest
      else get_date_item_ids date rest
  end.

(** The dictionary is built from the iteration of a set, so the order of its
    keys is not determined by the input: it is a finite map. *)
Definition get_ids_by_date (items : list item) : gmap string (list string) :=
  let acquired_dates := get_acquired_date <$> items in
  let unique_acquired_dates : gset string := list_to_set acquired_dates in
  set_to_map (λ d, (d, get_date_item_ids d items)) unique_acquired_dates.

(** *** Order requests *)

Section Requests.
(** The GeoJSON geometry of the area of interest is passed through. *)
Context {Geometry : Type}.

Record product := {
  item_ids : list string;
  item_type : string;
  product_bundle : string }.

Inductive tool :=
| clip (aoi : Geometry)
| bandmath (pixel_type b1 : string)
| composite.

Record delivery_options := {
  single_archive : bool;
  archive_filename : string;
  archive_type : string }.

Record notification_options := { email : bool }.

Record orders_request := {
  name : string;
  products : list product;
  tools : list tool;
  delivery : delivery_options;
  notifications : notification_options }.

Definition get_tools (aoi_geom : Geometry) : list tool :=
  let clip_tool := clip aoi_geom in
  let bandmath_tool := bandmath "32R" "(b4 - b3) / (b4+b3)" in
  let composite_tool := composite in
  [clip_tool; bandmath_tool; composite_tool].

Definition build_order (ids : list string) (name : string)
    (aoi_geom : Geometry) : orders_request :=
  let item_type := "PSScene" in
  let bundle := "analytic_sr_udm2" in
  {| name := name;
     products := [ {| item_ids := ids;
                      item_type := item_type;
                      product_bundle := bundle |} ];
     tools := get_tools aoi_geom;
     delivery := {| single_archive := true;
                    archive_filename := "{{name}}_{{order_id}}.zip";
                    archive_type := "zip" |};
     notifications := {| email := false |} |}.

(** [[build_order(ids, date, aoi_geom) for date, ids in ids_by_date.items()]] *)
Definition get_orders_requests (ids_by_date : gmap string (list string))
    (aoi_geom : Geometry) : list orders_request :=
  (λ '(date, ids), build_order ids date aoi_geom) <$> map_to_list ids_by_date.

End Requests.
Arguments tool : clear implicits.
Arguments orders_request : clear implicits.

(** *** Waiting for several orders *)

Section Poll.
(** The orders service: [client.get_individual_order(oid).get()['state']]
    answers with a status string and may change the service. *)
Context {Server : Type}.
Variable get_individual_order : Server → string → string * Server.

(** The notebook never binds the global name [response] that the failure
    branch reads; a kernel in which it is bound has [Some] value here. *)
Variable response : option string.

(** The local variables of [poll_for_success], the service, and what the
    run did so far (oldest event first). *)
Record poll_state := {
  count : Z;
  polling : list string;
  completed : list string;
  states : list string;
  server : Server;
  log : list event }.

Definition success_states : list string := ["success"; "partial"].

(** The body of [for oid in copy(polling)]. *)
Definition poll_order (oid : string) (st : poll_state) : ctl poll_state :=
  let '(state, srv) := get_individual_order (server st) oid in
  let st1 := {| count := count st;
                polling := polling st;
                completed := completed st;
                states := states st ++ Py.chars state;
                server := srv;
                log := log st ++ [EGet oid state;
                                  EPrint (oid +:+ ":" +:+ state)] |} in
  if String.eqb state "failed" then
    match response with
    | Some r => Raise (Exception r) st1
    | None => Raise (NameError "response") st1
    end
  else if Py.str_in state success_states then
    match Py.remove oid (polling st1) with
    | None => Raise (ValueError "list.remove(x): x not in list") st1
    | Some polling' =>
        Next {| count := count st1;
                polling := polling';
                completed := completed st1 ++ Py.chars oid;
                states := states st1;
                server := server st1;
                log := log st1 |}
    end
  else Next st1.

(** The body of [while(count < num_loops)]. *)
Definition poll_round (st : poll_state) : ctl poll_state :=
  let st0 := {| count := count st + 1;
                polling := polling st;
                completed := completed st;
                states := [];
                server := server st;
                log := log st |} in
  match for_each (polling st0) poll_order st0 with
  | Next st1 =>
      if bool_decide (length (polling st1) = 0%nat) then
        Break {| count := count st1; polling := polling st1;
                 completed := completed st1; states := states st1;
                 server := server st1;
                 log := log st1 ++ [EPrint "done"] |}
      else
        Next {| count := count st1; polling := polling st1;
                completed := completed st1; states := states st1;
                server := server st1;
                log := log st1 ++ [EPrint "--"; ESleep 30] |}
  | Break st1 => Break st1
  | Raise e st1 => Raise e st1
  end.

Definition poll_init (order_ids : list string) (srv : Server) : poll_state :=
  {| count := 0; polling := order_ids; completed := []; states := [];
     server := srv; log := [] |}.

Definition poll_for_success_fuel (fuel : nat) (order_ids : list string)
    (srv : Server) (num_loops : Z) : option (result poll_state) :=
  while fuel (λ st, (count st <? num_loops)%Z) poll_round
    (poll_init order_ids srv).

(** One test of the loop condition per iteration and a last one that
    fails: [num_loops + 1] tests are enough. *)
Definition poll_for_success (order_ids : list string) (srv : Server)
    (num_loops : Z) : option (result poll_state) :=
  poll_for_success_fuel (S (Z.to_nat num_loops)) order_ids srv num_loops.

End Poll.
Arguments poll_state : clear implicits.

(** *** Unpacking a downloaded order *)

(** The file system and what the run did so far. *)
Record unzip_state := {
  files : Fs.fs;
  out : list event }.

(** [location.parent / location.stem] *)
Definition zipdir_of (location : Fs.path) : Fs.path :=
  Fs.joinpath (Fs.parent location) (Fs.stem location).

(** [unzip] returns [zipdir] or raises; the state is the one at that
    point. *)
Definition unzip (filename : string) (overwrite : bool) (st : unzip_state)
    : (exn + Fs.path) * unzip_state :=
  let location := Fs.Path filename in
  let zipdir := zipdir_of location in
  let checked : exn + unzip_state :=
    if Fs.isdir (files st) zipdir then
      if overwrite then
        inr {| files := Fs.rmtree zipdir (files st);
               out := out st
                      ++ [EPrint (Fs.to_string zipdir +:+ " exists. overwriting.");
                          ERmtree zipdir] |}
      else inl (Exception (Fs.to_string zipdir +:+ " already exists"))
    else inr st in
  match checked with
  | inl e => (inl e, st)
  | inr st1 =>
      match Fs.open_zip (files st1) location with
      | inl e => (inl e, st1)
      | inr members =>
          let out1 := out st1 ++ [EExtract location zipdir] in
          match Fs.extractall members zipdir (files st1) with
          | Raised e f => (inl e, {| files := f; out := out1 |})
          | Returned f => (inr zipdir, {| files := f; out := out1 |})
          end
      end
  end.

End Ard.

(** ** orders/ordering_and_delivery.ipynb *)

Module Orders.

Section Poll.
(** The orders service: [requests.get(order_url, auth=auth).json()['state']]
    answers with a status string and may change the service. *)
Context {Server Auth : Type}.
Variable requests_get : Server → string → Auth → string * Server.

Record poll_state := {
  count : Z;
  server : Server;
  log : list event }.

Definition end_states : list string := ["success"; "failed"; "partial"].

(** The body of [while(count < num_loops)]. *)
Definition poll_round (order_url : string) (auth : Auth)
    (st : poll_state) : ctl poll_state :=
  let count1 := count st + 1 in
  let '(state, srv) := requests_get (server st) order_url auth in
  let log1 := log st ++ [EGet order_url state; EPrint state] in
  if Py.str_in state end_states then
    Break {| count := count1; server := srv; log := log1 |}
  else
    Next {| count := count1; server := srv; log := log1 ++ [ESleep 10] |}.

Definition poll_init (srv : Server) : poll_state :=
  {| count := 0; server := srv; log := [] |}.

Definition poll_for_success_fuel (fuel : nat) (order_url : string)
    (auth : Auth) (srv : Server) (num_loops : Z)
    : option (result poll_state) :=
  while fuel (λ st, (count st <? num_loops)%Z) (poll_round order_url auth)
    (poll_init srv).

Definition poll_for_success (order_url : string) (auth : Auth)
    (srv : Server) (num_loops : Z) : option (result poll_state) :=
  poll_for_success_fuel (S (Z.to_nat num_loops)) order_url auth srv num_loops.

End Poll.
Arguments poll_state : clear implicits.

Section Download.
(** [requests.get(url, allow_redirects=True).content] answers with the
    bytes behind a url and may change the service. *)
Context {Server : Type}.
Variable requests_get_content : Server → string → Fs.content * Server.

(** An entry of the order's results: [r['location']] and [r['name']]. *)
Record result_entry := { location : string; name : string }.

(** The file system, the service and what the run did so far. *)
Record download_state := {
  files : Fs.fs;
  service : Server;
  out : list event }.

(** [pathlib.Path(os.path.join('data', name))] *)
Definition local_path (name : string) : Fs.path :=
  Fs.Path (Fs.os_path_join "data" name).

(** The body of [for url, name in zip(results_urls, results_names)]. *)
Definition download_one (overwrite : bool) (item : string * string)
    (st : download_state) : ctl download_state :=
  let '(url, name) := item in
  let path := local_path name in
  if overwrite || negb (Fs.exists_ (files st) path) then
    let out1 := out st ++ [EPrint ("downloading " +:+ name +:+ " to "
                                   +:+ Fs.to_string path)] in
    let '(content, srv) := requests_get_content (service st) url in
    let out2 := out1 ++ [EDownload url; EMkdir (Fs.parent path)] in
    match Fs.mkdir_parents (Fs.parent path) (files st) with
    | Raised e f1 => Raise e {| files := f1; service := srv; out := out2 |}
    | Returned f1 =>
        let out3 := out2 ++ [EWrite path] in
        match Fs.write_file path content f1 with
        | Raised e f2 =>
            Raise e {| files := f2; service := srv; out := out3 |}
        | Returned f2 =>
            Next {| files := f2; service := srv; out := out3 |}
        end
    end
  else
    Next {| files := files st; service := service st;
            out := out st ++ [EPrint (Fs.to_string path
                                      +:+ " already exists, skipping "
                                      +:+ name)] |}.

Definition download_results (results : list result_entry)
    (overwrite : bool) (st : download_state) : result download_state :=
  let results_urls : list string := location <$> results in
  let results_names : list string := name <$> results in
  let st0 := {| files := files st; service := service st;
                out := out st
                       ++ [EPrint (PyFormat.str_of_Z (Z.of_nat (length results_urls))
                                   +:+ " items to download")] |} in
  match for_each (zip results_urls results_names)
                 (download_one overwrite) st0 with
  | Next st1 => Returned st1
  | Break st1 => Returned st1
  | Raise e st1 => Raised e st1
  end.

End Download.
Arguments download_state : clear implicits.

End Orders.

(** ** webtiles/visualize_imagery_over_time.ipynb *)

Module Webtiles.

Definition API_URL : string := "https://api.planet.com/data/v1".

Section Search.
(** Latitudes and longitudes are floating-point numbers; the code passes
    them on and never computes with them. *)
Context {Float : Type}.

(** A GeoJSON geometry. *)
Record geometry := {
  geometry_type : string;
  coordinates : list Float }.

(** The filters of the Data API that the request is built from. *)
Local Unset Elimination Schemes.
Inductive search_filter :=
| GeometryFilter (field_name : string) (config : geometry)
| DateRangeFilter (field_name : string) (config : gmap string string)
| AndFilter (config : list search_filter).
Local Set Elimination Schemes.

Record filter_request := {
  item_types : list string;
  filter_ : search_filter }.

(** A feature of a page of results: [f['id']]. *)
Record feature := { id_ : string }.

(** A page of search results: its features and, when the page has a
    [next] link, the link with the page that [requests.get] answers
    for it. *)
Inductive page :=
| LastPage (features : list feature)
| LinkedPage (features : list feature) (next : string) (answer : page).

Definition features (p : page) : list feature :=
  match p with LastPage fs => fs | LinkedPage fs _ _ => fs end.

(** [session.post(quick_url, json=filter_request).json()] *)
Variable session_post : string → filter_request → page.

(** [datetime.utcnow().isoformat()] *)
Variable utcnow_isoformat : string.

(** [l[:stop]] *)
Definition slice_to {A} (l : list A) (stop : Z) : list A :=
  if 0 <=? stop then take (Z.to_nat stop) l
  else take (length l - Z.to_nat (- stop))%nat l.

(** The loop [while len(ids) < limit and results['_links'].get('next')]:
    an empty link is as good as none. *)
Fixpoint follow_links (ids : list string) (results : page) (limit : Z)
    : list string :=
  match results with
  | LastPage _ => ids
  | LinkedPage _ link results' =>
      if (Z.of_nat (length ids) <? limit) && negb (String.eqb link "")
      then
        let more_ids := id_ <$> features results' in
        follow_links (ids ++ more_ids) results' limit
      else ids
  end.

Definition truthy (s : option string) : bool :=
  match s with
  | None => false
  | Some v => negb (String.eqb v "")
  end.

Definition get_item_ids (geom : geometry) (item_type : string)
    (start_date end_date : option string) (limit : Z) : list string :=
  let geometry_filter := GeometryFilter "geometry" geom in
  let end_date :=
    if truthy end_date then default "" end_date
    else utcnow_isoformat +:+ "Z" in
  let date_config : gmap string string := {[ "lt" := end_date ]} in
  let date_config :=
    if truthy start_date
    then <[ "gte" := default "" start_date ]> date_config
    else date_config in
  let date_filter := DateRangeFilter "acquired" date_config in
  let and_filter := AndFilter [geometry_filter; date_filter] in
  let quick_url := API_URL +:+ "/quick-search" in
  let filter_request := {| item_types := [item_type];
                           filter_ := and_filter |} in
  let results := session_post quick_url filter_request in
  let ids := id_ <$> features results in
  slice_to (follow_links ids results limit) limit.

(** [coords_to_geometry] *)
Definition coords_to_geometry (lat lon : Float) : geometry :=
  {| geometry_type := "Point"; coordinates := [lon; lat] |}.

(** [mercantile.tile(lon, lat, zoom)]: the tile of the library for a
    point and a zoom level. *)
Record tile := { x : Z; y : Z; z : Z }.
Variable mercantile_tile : Float → Float → Z → tile.

Variable PLANET_API_KEY : string.

Definition tile_url_template : string :=
  "https://tiles.planet.com/data/v1/{item_type}/{item_id}/{z}/{x}/{y}.png?api_key={api_key}".

(** [[f(i) for i in l]] for an [f] that may raise. *)
Fixpoint comprehension {A B} (f : A → exn + B) (l : list A) : exn + list B :=
  match l with
  | [] => inr []
  | a :: rest =>
      match f a with
      | inl e => inl e
      | inr b =>
          match comprehension f rest with
          | inl e => inl e
          | inr bs => inr (b :: bs)
          end
      end
  end.

Definition get_tile_urls (lat lon : Float) (zoom : Z) (item_type : string)
    (start_date end_date : option string) (limit : Z)
    : exn + list string :=
  let geom := coords_to_geometry lat lon in
  let item_ids := get_item_ids geom item_type start_date end_date limit in
  let tile := mercantile_tile lon lat zoom in
  comprehension
    (λ i, PyFormat.format tile_url_template []
            [("item_type", item_type); ("item_id", i);
             ("x", PyFormat.str_of_Z (x tile));
             ("y", PyFormat.str_of_Z (y tile));
             ("z", PyFormat.str_of_Z zoom);
             ("api_key", PLANET_API_KEY)])
    item_ids.

End Search.

End Webtiles.

(** ** analysis-ready-data/ard_2_use_case_1.ipynb: submitting and fetching orders *)

Module ArdOrders.

Section Create.
(** The orders service: [client.create_order(r).get()] answers with the
    description of the new order, a JSON object, and may change the
    service.  The values of the object are passed through. *)
Context {Geometry Server Value : Type}.
Variable create_order :
  Server → Ard.orders_request Geometry → gmap string Value * Server.

(** [[client.create_order(r).get() for r in order_requests]] *)
Fixpoint create_all (order_requests : list (Ard.orders_request Geometry))
    (srv : Server) : list (gmap string Value) * Server :=
  match order_requests with
  | [] => ([], srv)
  | r :: rest =>
      let '(info, srv1) := create_order srv r in
      let '(infos, srv2) := create_all rest srv1 in
      (info :: infos, srv2)
  end.

(** [i['id']] *)
Definition get_id (i : gmap string Value) : exn + Value :=
  match i !! "id" with
  | Some v => inr v
  | None => inl (KeyError "id")
  end.

Definition create_orders (order_requests : list (Ard.orders_request Geometry))
    (srv : Server) : (exn + list Value) * Server :=
  let '(orders_info, srv1) := create_all order_requests srv in
  let order_ids := Webtiles.comprehension get_id orders_info in
  (order_ids, srv1).

End Create.

(** *** Waiting for the archive of an order *)

(** What a run asks of the download directory and does, in order: a
    listing with its answer, a test of [os.path.isfile] with its answer, a
    printed line, a call of [time.sleep], and the start of the download of
    an order. *)
Inductive io :=
| Listdir (dir : string) (answer : exn + list string)
| Isfile (path : string) (answer : bool)
| PrintLine (line : string)
| Sleep (secs : Z)
| Download (order_id dest : string) (limit : option Z).

(** [UnboundLocalError] for a local name, or the exception of a library
    call. *)
Inductive error :=
| UnboundLocalError (name : string)
| Propagated (e : exn).

Section Download.
(** The world outside while the downloader of the client library is at
    work: every call is answered from the state of the world at that moment
    and leaves the next one. *)
Context {World : Type}.

(** [os.listdir(dest)]: the names in [dest] in the order that the system
    gives them, or its [OSError]. *)
Variable os_listdir : World → string → (exn + list string) * World.

(** [os.path.isfile(p)] *)
Variable os_path_isfile : World → string → bool * World.

(** [downloader.create(client, order=True)] and [dl.download(urls, [],
    dest)] for the urls of [client.get_individual_order(order_id)
    .items_iter(limit=limit)]. *)
Variable dl_download : World → string → string → option Z → World.

(** The local variables of [poll_for_download], of which [match] is unbound
    until the first iteration assigns it, the world, and what the run did
    so far. *)
Record poll_state := {
  count : Z;
  match_ : option (option string);
  world : World;
  log : list io }.

(** [next(matched_files, None)] for the generator over the listing
    [entries]: the names are tried in order, each with [os.path.isfile] and
    then [endswith], up to the first one that passes both. *)
Fixpoint next_matched (dest endswith : string) (entries : list string)
    (w : World) (log : list io) : option string * World * list io :=
  match entries with
  | [] => (None, w, log)
  | f :: rest =>
      let p := Fs.os_path_join dest f in
      let '(isfile, w1) := os_path_isfile w p in
      let log1 := log ++ [Isfile p isfile] in
      if isfile && Py.endswith f endswith then (Some f, w1, log1)
      else next_matched dest endswith rest w1 log1
  end.

(** The body of [while(count < num_loops)]. *)
Definition poll_round (dest endswith : string) (st : poll_state)
    : ctl poll_state :=
  let count1 := count st + 1 in
  let '(listing, w1) := os_listdir (world st) dest in
  let log1 := log st ++ [Listdir dest listing] in
  match listing with
  | inl e =>
      Raise e {| count := count1; match_ := match_ st; world := w1;
                 log := log1 |}
  | inr entries =>
      let '(found, w2, log2) := next_matched dest endswith entries w1 log1 in
      if Webtiles.truthy found then
        Break {| count := count1;
                 match_ := Some (Some (Fs.os_path_join dest (default "" found)));
                 world := w2;
                 log := log2 ++ [PrintLine "downloaded"] |}
      else
        Next {| count := count1; match_ := Some found; world := w2;
                log := log2 ++ [PrintLine "waiting..."; Sleep 10] |}
  end.

Definition poll_init (w : World) (log : list io) : poll_state :=
  {| count := 0; match_ := None; world := w; log := log |}.

(** [return match] *)
Definition return_match (st : poll_state) : error + option string :=
  match match_ st with
  | None => inl (UnboundLocalError "match")
  | Some m => inr m
  end.

Definition poll_for_download_fuel (fuel : nat) (dest endswith : string)
    (num_loops : Z) (w : World) (log : list io)
    : option ((error + option string) * poll_state) :=
  match while fuel (λ st, (count st <? num_loops)%Z) (poll_round dest endswith)
          (poll_init w log) with
  | None => None
  | Some (Raised e st) => Some (inl (Propagated e), st)
  | Some (Returned st) => Some (return_match st, st)
  end.

(** One test of the loop condition per iteration and a last one that
    fails. *)
Definition poll_for_download (dest endswith : string) (num_loops : Z)
    (w : World) (log : list io)
    : option ((error + option string) * poll_state) :=
  poll_for_download_fuel (S (Z.to_nat num_loops)) dest endswith num_loops w log.

(** *** Downloading the orders *)

Definition download_order (order_id dest : string) (limit : option Z)
    (w : World) (log : list io)
    : option ((error + option string) * poll_state) :=
  let w1 := dl_download w order_id dest limit in
  let log1 := log ++ [Download order_id dest limit] in
  let endswith := order_id +:+ ".zip" in
  poll_for_download dest endswith 50 w1 log1.

(** The loop [for order_id in order_ids] of [download_orders], with the
    list [files] so far. *)
Fixpoint download_each (order_ids : list string) (dest : string)
    (limit : option Z) (files : list string) (w : World) (before : list io)
    : option ((error + list string) * (World * list io)) :=
  match order_ids with
  | [] => Some (inr files, (w, before))
  | order_id :: rest =>
      let log1 := before ++ [PrintLine ("downloading " +:+ order_id)] in
      match download_order order_id dest limit w log1 with
      | None => None
      | Some (inl e, st) => Some (inl e, (world st, log st))
      | Some (inr filename, st) =>
          let files1 :=
            if Webtiles.truthy filename then files ++ [default "" filename]
            else files in
          download_each rest dest limit files1 (world st) (log st)
      end
  end.

Definition download_orders (order_ids : list string) (dest : string)
    (limit : option Z) (w : World) (before : list io)
    : option ((error + list string) * (World * list io)) :=
  download_each order_ids dest limit [] w before.

End Download.
Arguments poll_state : clear implicits.

End ArdOrders.

(** ** orders/ordering_and_delivery.ipynb: placing an order *)

Module OrdersPlace.

Definition orders_url : string := "https://api.planet.com/compute/ops/orders/v2".

Definition headers : gmap string string :=
  {[ "content-type" := "application/json" ]}.

(** The answer to a request: what [print] shows of it, and what
    [response.json()] gives: the entries of a JSON object that are strings
    (the service names an order by a string), or the error of a body that
    is no JSON. *)
Record response := {
  shown : string;
  json : exn + gmap string string }.

Section Place.
Context {Server Auth Request : Type}.

(** [json.dumps(request)] *)
Variable json_dumps : Request → string.

(** [requests.post(url, data=data, auth=auth, headers=headers)] *)
Variable requests_post :
  Server → string → string → Auth → gmap string string → response * Server.

(** The service and what the run printed so far. *)
Record place_state := {
  server : Server;
  out : list event }.

(** [place_order] returns [order_url] or raises; the state is the one at
    that point. *)
Definition place_order (request : Request) (auth : Auth) (st : place_state)
    : (exn + string) * place_state :=
  let '(response, srv) :=
    requests_post (server st) orders_url (json_dumps request) auth headers in
  let st1 := {| server := srv; out := out st ++ [EPrint (shown response)] |} in
  match json response with
  | inl e => (inl e, st1)
  | inr object =>
      match object !! "id" with
      | None => (inl (KeyError "id"), st1)
      | Some order_id =>
          let st2 := {| server := srv; out := out st1 ++ [EPrint order_id] |} in
          let order_url := orders_url +:+ "/" +:+ order_id in
          (inr order_url, st2)
      end
  end.

End Place.
Arguments place_state : clear implicits.

End OrdersPlace.

(** ** webtiles/visualize_imagery_over_time.ipynb: the animation *)

Module Animation.

Definition double_quote : string := String "034" EmptyString.

(** [f'<img src="{frame_url}" class="mySlides">'] *)
Definition htmlDisplay (frame_url : string) : string :=
  "<img src=" +:+ double_quote +:+ frame_url +:+ double_quote
  +:+ " class=" +:+ double_quote +:+ "mySlides" +:+ double_quote +:+ ">".

Section Animate.
(** The delay is a floating-point number that is passed on; [time.sleep]
    raises [ValueError] for a negative one. *)
Context {Delay : Type}.
Variable negative : Delay → bool.

(** What [animate] does, in order: [display(obj, display_id=id)],
    [display(HTML(html), display_id=id, update=True)] and
    [time.sleep(delay)]. *)
Inductive shown :=
| Display (obj display_id : string)
| Update (html display_id : string)
| Sleep (delay : Delay).

(** The body of [for frame_url in urls]. *)
Definition show_frame (disp_id : string) (delay : Delay) (frame_url : string)
    (log : list shown) : ctl (list shown) :=
  let log1 := log ++ [Update (htmlDisplay frame_url) disp_id] in
  if negative delay
  then Raise (ValueError "sleep length must be non-negative") log1
  else Next (log1 ++ [Sleep delay]).

(** [animate]; [disp_id] is the string of the random number that
    [str(random.random())] gives. *)
Definition animate (disp_id : string) (urls : list string) (delay : Delay)
    (loops : Z) (log : list shown) : ctl (list shown) :=
  let log1 := log ++ [Display "placeholder" disp_id] in
  for_each (Py.range loops)
    (λ loop, for_each urls (show_frame disp_id delay)) log1.

End Animate.
Arguments shown : clear implicits.

End Animation.

(** * Specification *)

(** The notions that the properties are stated with: what a run fetched and
    did, what a file system may have gained, and the sample inputs. *)

(** ** Grouping by date *)

(** [d] is the date substring of the timestamp [ts]: the part of [ts] before
    its first ['T'], or all of [ts] when it has none. *)
Definition date_substring_of (ts d : string) : Prop :=
  Py.contains "T" d = false ∧ (ts = d ∨ ∃ rest, ts = d +:+ String "T" rest).

(** The groups of a mapping, one after the other. *)
Definition all_group_ids (m : gmap string (list string)) : list string :=
  concat ((map_to_list m).*2).

(** ** Web tiles *)

(** The identifiers on the pages that the non-empty [next] links reach. *)
Fixpoint linked_ids (p : Webtiles.page) : list string :=
  match p with
  | Webtiles.LastPage fs => Webtiles.id_ <$> fs
  | Webtiles.LinkedPage fs link p' =>
      (Webtiles.id_ <$> fs) ++ (if String.eqb link "" then [] else linked_ids p')
  end.

(** The url of the tile of an item. *)
Definition tile_url (api_key item_type item_id : string) (x y zoom : Z)
    : string :=
  "https://tiles.planet.com/data/v1/" +:+ item_type +:+ "/" +:+ item_id
  +:+ "/" +:+ PyFormat.str_of_Z zoom +:+ "/" +:+ PyFormat.str_of_Z x
  +:+ "/" +:+ PyFormat.str_of_Z y +:+ ".png?api_key=" +:+ api_key.

(** ** What a poller did *)

(** The status strings that a run fetched, in order. *)
Definition statuses (log : list event) : list string :=
  omap (λ e, match e with EGet _ s => Some s | _ => None end) log.

(** The status strings that a run fetched for one order. *)
Definition statuses_for (oid : string) (log : list event) : list string :=
  omap (λ e, match e with
             | EGet target s => if String.eqb target oid then Some s else None
             | _ => None
             end) log.

(** The number of calls of [time.sleep]. *)
Definition sleeps (log : list event) : nat :=
  length (omap (λ e, match e with ESleep n => Some n | _ => None end) log).

Definition is_end (s : string) : bool := Py.str_in s Orders.end_states.

Section OrdersPollSpec.
Context {Server Auth : Type}.
Variable requests_get : Server → string → Auth → string * Server.
Variable order_url : string.
Variable auth : Auth.

(** The service after [n] status requests for the order. *)
Fixpoint advance (srv : Server) (n : nat) : Server :=
  match n with
  | O => srv
  | S n' => (requests_get (advance srv n') order_url auth).2
  end.

(** The sequence of observed statuses: [observed srv n] is the status that
    the request number [n] gets, counting from 0. *)
Definition observed (srv : Server) (n : nat) : string :=
  (requests_get (advance srv n) order_url auth).1.

(** What a finished run of the single-order poller looks like: the fetched
    statuses are the first observed ones, one per iteration; either the
    last one is the only end state and no sleep follows it, or there is no
    end state and the iteration budget is used up. *)
Definition orders_run (srv : Server) (num_loops : Z) (st : Orders.poll_state Server) : Prop :=
  let n := length (statuses (Orders.log st)) in
  Orders.count st = Z.of_nat n
  ∧ Z.of_nat n ≤ Z.max 0 num_loops
  ∧ statuses (Orders.log st) = observed srv <$> seq 0 n
  ∧ ((∃ k, n = S k ∧ (∀ j, (j < k)%nat → is_end (observed srv j) = false)
           ∧ is_end (observed srv k) = true ∧ sleeps (Orders.log st) = k)
     ∨ ((∀ j, (j < n)%nat → is_end (observed srv j) = false)
        ∧ Z.of_nat n = Z.max 0 num_loops ∧ sleeps (Orders.log st) = n)).

End OrdersPollSpec.

Definition is_success (s : string) : bool := Py.str_in s Ard.success_states.

Definition is_terminal (s : string) : bool :=
  String.eqb s "failed" || is_success s.

(** The events of one status request. *)
Definition fetch_events (oid state : string) : list event :=
  [EGet oid state; EPrint (oid +:+ ":" +:+ state)].

(** No status request follows one that was answered with a terminal
    status. *)
Definition stops_at_terminal (l : list string) : Prop :=
  ∀ k s, l !! k = Some s → is_terminal s = true → length l = S k.

Definition pending (l : list string) : Prop :=
  Forall (λ s, is_terminal s = false) l.

Definition saw_terminal (log : list event) : Prop :=
  ∃ s, s ∈ statuses log ∧ is_terminal s = true.

Section ArdPollSpec.
Context {Server : Type}.
Variable response : option string.

Abbreviation poll_state := (Ard.poll_state Server).

(** The exception of the failure branch: [Exception(response)], or the
    [NameError] of the unbound name. *)
Definition failure_exn : exn :=
  match response with
  | Some r => Exception r
  | None => NameError "response"
  end.

(** The four ways through the body of the inner loop. *)
Inductive order_step (oid : string) (st : poll_state) : ctl poll_state → Prop :=
  | step_failed st' :
    Ard.log st' = Ard.log st ++ fetch_events oid "failed" →
    Ard.polling st' = Ard.polling st →
    Ard.count st' = Ard.count st →
    order_step oid st (Raise failure_exn st')
  | step_success state polling' st' :
    is_success state = true → state ≠ "failed" →
    Py.remove oid (Ard.polling st) = Some polling' →
    Ard.log st' = Ard.log st ++ fetch_events oid state →
    Ard.polling st' = polling' →
    Ard.count st' = Ard.count st →
    order_step oid st (Next st')
  | step_not_listed state st' :
    is_success state = true →
    Py.remove oid (Ard.polling st) = None →
    Ard.log st' = Ard.log st ++ fetch_events oid state →
    Ard.count st' = Ard.count st →
    order_step oid st (Raise (ValueError "list.remove(x): x not in list") st')
  | step_pending state st' :
    is_terminal state = false →
    Ard.log st' = Ard.log st ++ fetch_events oid state →
    Ard.polling st' = Ard.polling st →
    Ard.count st' = Ard.count st →
    order_step oid st (Next st').

(** The body of the outer loop: the state that the inner loop starts in. *)
Definition round_start (st : poll_state) : poll_state :=
  {| Ard.count := Ard.count st + 1; Ard.polling := Ard.polling st;
     Ard.completed := Ard.completed st; Ard.states := [];
     Ard.server := Ard.server st; Ard.log := Ard.log st |}.

(** What the way a loop body ends has to satisfy, for the rule of [while]. *)
Definition ctl_post (Inv : poll_state → Prop) (Post : result poll_state → Prop)
    (c : ctl poll_state) : Prop :=
  match c with
  | Next st' => Inv st'
  | Break st' => Post (Returned st')
  | Raise e st' => Post (Raised e st')
  end.

(** The run ended in the failure branch, right after a status request that
    was answered with ['failed'], the first such answer. *)
Definition ended_on_failed (r : result poll_state) : Prop :=
  match r with
  | Returned st => "failed" ∉ statuses (Ard.log st)
  | Raised e st =>
      e = failure_exn
      ∧ ∃ log oid, Ard.log st = log ++ fetch_events oid "failed"
                   ∧ "failed" ∉ statuses log
  end.

Definition order_inv (st : poll_state) : Prop :=
  NoDup (Ard.polling st)
  ∧ ∀ oid, stops_at_terminal (statuses_for oid (Ard.log st))
           ∧ (oid ∈ Ard.polling st → pending (statuses_for oid (Ard.log st))).

(** A run in which every order was still pending at every request: all of
    [order_ids] are asked in each of [n] iterations, with a sleep after
    each. *)
Definition all_pending (order_ids : list string) (n : nat) (st : poll_state) : Prop :=
  Ard.polling st = order_ids
  ∧ sleeps (Ard.log st) = n
  ∧ length (statuses (Ard.log st)) = (n * length order_ids)%nat.

Definition within_budget (order_ids : list string) (num_loops : Z)
    (r : result poll_state) : Prop :=
  0 ≤ Ard.count (final r) ≤ Z.max 0 num_loops
  ∧ (saw_terminal (Ard.log (final r))
     ∨ order_ids = []
     ∨ ∃ st, r = Returned st ∧ Ard.count st = Z.max 0 num_loops
             ∧ all_pending order_ids (Z.to_nat num_loops) st).

End ArdPollSpec.

(** ** What a run changed in the file system *)

(** [f'] has all of [f] as it was, and no file that [f] lacks: directories
    may have been made, nothing else. *)
Definition only_new_dirs (f f' : Fs.fs) : Prop :=
  ∀ q, (∀ n, f !! q = Some n → f' !! q = Some n)
       ∧ (∀ c, f' !! q = Some (Fs.File c) → f !! q = Some (Fs.File c)).

(** Outside the directory [target], [f'] has all of [f] as it was, and no
    file that [f] lacks. *)
Definition changes_only_under (target : Fs.path) (f f' : Fs.fs) : Prop :=
  ∀ q, ¬ target `suffix_of` q →
       (∀ n, f !! q = Some n → f' !! q = Some n)
       ∧ (∀ c, f' !! q = Some (Fs.File c) → f !! q = Some (Fs.File c)).

(** The state in which the body of a loop ends. *)
Definition ctl_state {St} (c : ctl St) : St :=
  match c with
  | Next st => st
  | Break st => st
  | Raise _ st => st
  end.

(** The pairs that the loop of [download_results] visits. *)
Definition pairs (results : list Orders.result_entry) : list (string * string) :=
  zip (Orders.location <$> results) (Orders.name <$> results).

Section DownloadSpec.
Context {Server : Type}.

(** The state in which the loop of [download_results] starts. *)
Definition announced (results : list Orders.result_entry)
    (st : Orders.download_state Server) : Orders.download_state Server :=
  {| Orders.files := Orders.files st; Orders.service := Orders.service st;
     Orders.out := Orders.out st
                   ++ [EPrint (PyFormat.str_of_Z (Z.of_nat (length results))
                               +:+ " items to download")] |}.

(** How the function ends when its loop ends. *)
Definition finish (c : ctl (Orders.download_state Server))
    : result (Orders.download_state Server) :=
  match c with
  | Next st => Returned st
  | Break st => Returned st
  | Raise e st => Raised e st
  end.

End DownloadSpec.

(** [isinstance(e, Exception)] for the exception that [unzip] itself raises,
    as opposed to the errors of the file system and of the archive. *)
Definition is_Exception (e : exn) : bool :=
  match e with Exception _ => true | _ => false end.

(** A library call that raises, raises an error of its own. *)
Definition library_error (r : result Fs.fs) : Prop :=
  ∀ e f, r = Raised e f → is_Exception e = false.

(** The state in which [unzip] opens the archive: an existing [zipdir] has
    been removed. *)
Definition cleared (zipdir : Fs.path) (st : Ard.unzip_state) : Ard.unzip_state :=
  if Fs.isdir (Ard.files st) zipdir then
    {| Ard.files := Fs.rmtree zipdir (Ard.files st);
       Ard.out := Ard.out st
                  ++ [EPrint (Fs.to_string zipdir +:+ " exists. overwriting.");
                      ERmtree zipdir] |}
  else st.

(** What [unzip] does once the way is clear: it opens the archive and
    extracts it. *)
Definition extract_from (location zipdir : Fs.path) (st1 : Ard.unzip_state)
    : (exn + Fs.path) * Ard.unzip_state :=
  match Fs.open_zip (Ard.files st1) location with
  | inl e => (inl e, st1)
  | inr members =>
      let out1 := Ard.out st1 ++ [EExtract location zipdir] in
      match Fs.extractall members zipdir (Ard.files st1) with
      | Raised e f => (inl e, {| Ard.files := f; Ard.out := out1 |})
      | Returned f => (inr zipdir, {| Ard.files := f; Ard.out := out1 |})
      end
  end.

(** ** Sample inputs *)

Definition sample_items : list Ard.item :=
  [ {| Ard.item_id := "20190402_163459_0e3a";
       Ard.item_properties := {| Ard.acquired := "2019-04-02T16:34:59.000Z" |} |};
    {| Ard.item_id := "20190408_153658_1054";
       Ard.item_properties := {| Ard.acquired := "2019-04-08T15:36:58.000Z" |} |};
    {| Ard.item_id := "20190402_163501_0e3a";
       Ard.item_properties := {| Ard.acquired := "2019-04-02T16:35:01.000Z" |} |} ].

Definition sample_pages : Webtiles.page :=
  Webtiles.LinkedPage
    [ {| Webtiles.id_ := "20190918_183654_1035" |};
      {| Webtiles.id_ := "20190918_183653_1035" |} ]
    "https://api.planet.com/data/v1/searches/1?_page=2"
    (Webtiles.LastPage [ {| Webtiles.id_ := "20190917_183521_0f17" |} ]).

(** The single-order poller of the orders notebook with a service that
    answers every request with the same status. *)
Definition always (state : string) : unit → string → unit → string * unit :=
  λ _ _ _, (state, tt).

(** The multi-order poller with a service that answers every request with
    the same status. *)
Definition always_order (state : string) : unit → string → string * unit :=
  λ _ _, (state, tt).

(** Two orders: the first is done at the second request, the other one is
    still running.  The service counts the requests. *)
Definition sample_orders (n : nat) (oid : string) : string * nat :=
  (if String.eqb oid "a" then (if (1 <=? n)%nat then "success" else "running")
   else "running", S n).

Definition sample_files : Fs.fs :=
  {[ ["a.tif"; "PSScene"; "data"] := Fs.File (Fs.Bytes "old");
     ["PSScene"; "data"] := Fs.Dir;
     ["data"] := Fs.Dir ]}.

Definition sample_results : list Orders.result_entry :=
  [ {| Orders.location := "https://api.planet.com/a";
       Orders.name := "PSScene/a.tif" |};
    {| Orders.location := "https://api.planet.com/m";
       Orders.name := "order/manifest.json" |} ].

Definition sample_download : Orders.download_state unit :=
  {| Orders.files := sample_files; Orders.service := tt; Orders.out := [] |}.

Definition sample_content : unit → string → Fs.content * unit :=
  λ _ url, (Fs.Bytes ("bytes of " +:+ url), tt).

Definition sample_unzip : Ard.unzip_state :=
  {| Ard.files :=
       {[ ["2019-04-02_e045.zip"; "use_case_1"; "data"] :=
            Fs.File (Fs.Zip [ (["composite.tif"; "files"], Some "tif");
                              (["manifest.json"], Some "json") ]);
          ["stale.txt"; "2019-04-02_e045"; "use_case_1"; "data"] :=
            Fs.File (Fs.Bytes "stale");
          ["2019-04-02_e045"; "use_case_1"; "data"] := Fs.Dir;
          ["use_case_1"; "data"] := Fs.Dir;
          ["data"] := Fs.Dir ]};
     Ard.out := [] |}.

(** ** Groups and orders *)

(** Two mappings into one: a date of both maps to the identifiers of the
    first followed by those of the second. *)
Definition merge_groups (m1 m2 : gmap string (list string))
    : gmap string (list string) :=
  union_with (λ a b, Some (a ++ b)) m1 m2.

(** The identifiers that a list of order requests asks for, request by
    request. *)
Definition ordered_ids {Geometry : Type}
    (requests : list (Ard.orders_request Geometry)) : list string :=
  concat ((λ r, concat (Ard.item_ids <$> Ard.products r)) <$> requests).

(** ** What a download run asked for *)

(** The urls that a run downloaded, in order. *)
Definition downloads (out : list event) : list string :=
  omap (λ e, match e with EDownload url => Some url | _ => None end) out.

(** The line that [download_results] prints for a result that it skips. *)
Definition skip_line (r : Orders.result_entry) : event :=
  EPrint (Fs.to_string (Orders.local_path (Orders.name r))
          +:+ " already exists, skipping " +:+ Orders.name r).

(** [f'] is [f] at every path that is not [target] or below it. *)
Definition same_outside (target : Fs.path) (f f' : Fs.fs) : Prop :=
  ∀ q, ¬ target `suffix_of` q → f' !! q = f !! q.

(** ** How a poller ends *)

(** The last status that a run fetched for the order [oid] is one of the
    success states. *)
Definition succeeded (oid : string) (log : list event) : Prop :=
  ∃ s, last (statuses_for oid log) = Some s ∧ is_success s = true.

(** Every order of the call is still polled or has succeeded. *)
Definition polled_or_succeeded {Server : Type} (order_ids : list string)
    (st : Ard.poll_state Server) : Prop :=
  ∀ oid, oid ∈ order_ids → oid ∈ Ard.polling st ∨ succeeded oid (Ard.log st).

(** ** Submitting orders *)

Section CreateSpec.
Context {Geometry Server Value : Type}.
Variable create_order :
  Server → Ard.orders_request Geometry → gmap string Value * Server.

(** The answers of the service to the requests, sent one after the
    other. *)
Fixpoint answers (order_requests : list (Ard.orders_request Geometry))
    (srv : Server) : list (gmap string Value) :=
  match order_requests with
  | [] => []
  | r :: rest => (create_order srv r).1 :: answers rest (create_order srv r).2
  end.

(** The service after the requests. *)
Definition served (order_requests : list (Ard.orders_request Geometry))
    (srv : Server) : Server :=
  foldl (λ s r, (create_order s r).2) srv order_requests.

End CreateSpec.

(** ** Waiting for an archive *)

(** The seconds that a run slept. *)
Definition slept (log : list ArdOrders.io) : Z :=
  foldr Z.add 0
    (omap (λ e, match e with ArdOrders.Sleep n => Some n | _ => None end) log).

(** The number of listings of a run. *)
Definition listings (log : list ArdOrders.io) : nat :=
  length (omap (λ e, match e with ArdOrders.Listdir d _ => Some d | _ => None end)
            log).

(** The orders whose download a run started, in order. *)
Definition started (log : list ArdOrders.io) : list string :=
  omap (λ e, match e with ArdOrders.Download oid _ _ => Some oid | _ => None end)
    log.

(** The test of the name [f] of a listing that does not make [f] the match:
    [f] is no file, or it does not end with [endswith]. *)
Definition in_vain (dest endswith f : string) (ev : ArdOrders.io) : Prop :=
  ∃ b, ev = ArdOrders.Isfile (Fs.os_path_join dest f) b
       ∧ b && Py.endswith f endswith = false.

(** The run ends with the round that finds [p]: a listing of [dest], the
    tests in vain of the names before the first name [f] that is a file and
    ends with [endswith], the test of [f], and the line [downloaded]; [p]
    is [f] in [dest]. *)
Definition found_archive (dest endswith p : string) (log : list ArdOrders.io)
    : Prop :=
  ∃ f earlier later before tests,
    p = Fs.os_path_join dest f
    ∧ Py.endswith f endswith = true
    ∧ log = before
            ++ ArdOrders.Listdir dest (inr (earlier ++ f :: later))
               :: tests ++ [ArdOrders.Isfile p true; ArdOrders.PrintLine "downloaded"]
    ∧ Forall2 (in_vain dest endswith) earlier tests.

(** [file] is an archive of the order [oid] in [dest], by its name. *)
Definition archive_of (dest file oid : string) : Prop :=
  ∃ f, file = Fs.os_path_join dest f ∧ Py.endswith f (oid +:+ ".zip") = true.

Section FetchSpec.
Context {World : Type}.
Variable os_listdir : World → string → (exn + list string) * World.
Variable os_path_isfile : World → string → bool * World.

(** [os.listdir(dest)] raises [e] in some state of the world. *)
Definition listdir_raises (dest : string) (e : exn) : Prop :=
  ∃ w, (os_listdir w dest).1 = inl e.

(** [os.path.isfile(p)] holds in some state of the world. *)
Definition isfile_holds (p : string) : Prop :=
  ∃ w, (os_path_isfile w p).1 = true.

(** What the rounds of [poll_for_download] did, after the log [before],
    when the run is in the state [st] with [rounds] sleeps. *)
Definition after_rounds (before : list ArdOrders.io) (rounds : Z)
    (st : ArdOrders.poll_state World) : Prop :=
  started (ArdOrders.log st) = started before
  ∧ slept (ArdOrders.log st) = slept before + 10 * rounds
  ∧ listings (ArdOrders.log st)
    = (listings before + Z.to_nat (ArdOrders.count st))%nat.

(** The value of [match] after a round without a match: [None], or the
    empty name when that passes the tests. *)
Definition no_match (dest endswith : string) (m : option string) : Prop :=
  m = None
  ∨ (m = Some "" ∧ isfile_holds (Fs.os_path_join dest "")
     ∧ Py.endswith "" endswith = true).

(** The run is over without a match: no iteration was made and [match] is
    unbound, or the iterations are used up. *)
Definition gave_up (dest endswith : string) (num_loops : Z) (w : World)
    (before : list ArdOrders.io) (st : ArdOrders.poll_state World) : Prop :=
  ArdOrders.count st = Z.max 0 num_loops
  ∧ after_rounds before (ArdOrders.count st) st
  ∧ if decide (ArdOrders.count st = 0)
    then ArdOrders.match_ st = None ∧ ArdOrders.log st = before
         ∧ ArdOrders.world st = w
    else ∃ m, ArdOrders.match_ st = Some m ∧ no_match dest endswith m.

(** The run has found an archive in its last round. *)
Definition has_found (dest endswith : string) (num_loops : Z)
    (before : list ArdOrders.io) (st : ArdOrders.poll_state World) : Prop :=
  ∃ f, ArdOrders.match_ st = Some (Some (Fs.os_path_join dest f))
       ∧ f ≠ ""
       ∧ found_archive dest endswith (Fs.os_path_join dest f) (ArdOrders.log st)
       ∧ isfile_holds (Fs.os_path_join dest f)
       ∧ 1 ≤ ArdOrders.count st ≤ num_loops
       ∧ after_rounds before (ArdOrders.count st - 1) st.

(** The run ended with an error of the listing. *)
Definition listing_failed (dest : string) (num_loops : Z)
    (before : list ArdOrders.io) (e : exn) (st : ArdOrders.poll_state World)
    : Prop :=
  listdir_raises dest e
  ∧ last (ArdOrders.log st) = Some (ArdOrders.Listdir dest (inl e))
  ∧ 1 ≤ ArdOrders.count st ≤ num_loops
  ∧ after_rounds before (ArdOrders.count st - 1) st.

(** How the loop of [poll_for_download] ends. *)
Definition fetch_run (dest endswith : string) (num_loops : Z) (w : World)
    (before : list ArdOrders.io) (r : result (ArdOrders.poll_state World))
    : Prop :=
  match r with
  | Raised e st => listing_failed dest num_loops before e st
  | Returned st =>
      gave_up dest endswith num_loops w before st
      ∨ has_found dest endswith num_loops before st
  end.

End FetchSpec.

(** A download directory with one file that is no archive, and one in
    which the archive of an order is there from the third test on. *)
Definition sample_listdir {World : Type} (names : list string)
    : World → string → (exn + list string) * World :=
  λ w _, (inr names, w).

Definition never_isfile : unit → string → bool * unit := λ _ _, (false, tt).

Definition isfile_from (n : nat) : nat → string → bool * nat :=
  λ tests _, ((n <=? tests)%nat, S tests).

Definition sample_dl_download {World : Type}
    : World → string → string → option Z → World :=
  λ w _ _ _, w.

(** ** Placing an order and showing the tiles *)

(** The last part of a url: what follows its last [/]. *)
Definition last_segment (url : string) : option string :=
  last (Py.split "/" url).

(** What one pass of [animate] over the urls does: every url is shown and
    followed by a sleep. *)
Definition one_pass {Delay : Type} (disp_id : string) (delay : Delay)
    (urls : list string) : list (Animation.shown Delay) :=
  concat ((λ url, [Animation.Update (Animation.htmlDisplay url) disp_id;
                   Animation.Sleep delay]) <$> urls).

(** ** The requests of a search *)

(** The loop of [get_item_ids] with the number of calls of [requests.get]
    that it makes, one for every [next] link that it follows, beside the
    identifiers. *)
Fixpoint follow_links_counted (ids : list string) (results : Webtiles.page)
    (limit : Z) : list string * nat :=
  match results with
  | Webtiles.LastPage _ => (ids, 0%nat)
  | Webtiles.LinkedPage _ link results' =>
      if (Z.of_nat (length ids) <? limit) && negb (String.eqb link "")
      then
        let more_ids := Webtiles.id_ <$> Webtiles.features results' in
        let '(ids', requests) :=
          follow_links_counted (ids ++ more_ids) results' limit in
        (ids', S requests)
      else (ids, 0%nat)
  end.

(** Every page after the first one has a feature. *)
Fixpoint later_pages_nonempty (p : Webtiles.page) : Prop :=
  match p with
  | Webtiles.LastPage _ => True
  | Webtiles.LinkedPage _ _ p' =>
      Webtiles.features p' ≠ [] ∧ later_pages_nonempty p'
  end.

(** * Properties *)

(** ** Grouping by date *)

Lemma append_nil_l (s : string) : "" +:+ s = s.
Proof. reflexivity. Qed.

Lemma append_cons (c : ascii) (s t : string) :
  String c s +:+ t = String c (s +:+ t).
Proof. reflexivity. Qed.

Lemma append_nil_r (s : string) : s +:+ "" = s.
Proof. induction s as [|c s IH]; [done|]. by rewrite append_cons, IH. Qed.

Lemma split_head (sep : ascii) (s : string) :
  ∃ p ps, Py.split sep s = p :: ps ∧ Py.contains sep p = false ∧
          (ps = [] → s = p) ∧ (ps ≠ [] → ∃ rest, s = p +:+ String sep rest).
Proof.
  induction s as [|c r (p & ps & Hsplit & Hfree & Hnil & Hcons)]; simpl.
  - exists EmptyString, []. naive_solver.
  - destruct (Ascii.eqb_spec c sep) as [->|Hne].
    + exists EmptyString, (Py.split sep r). split_and!; [done|done| |by eauto].
      rewrite Hsplit. discriminate.
    + rewrite Hsplit. exists (String c p), ps. split_and!; [done| | |].
      * simpl. rewrite Hfree. by apply Ascii.eqb_neq in Hne as ->.
      * intros Hps. by rewrite <-(Hnil Hps).
      * intros Hps. destruct (Hcons Hps) as [rest ->]. by exists rest.
Qed.

Lemma get_acquired_date_substring (i : Ard.item) :
  date_substring_of (Ard.acquired (Ard.item_properties i)) (Ard.get_acquired_date i).
Proof.
  unfold Ard.get_acquired_date, date_substring_of.
  destruct (split_head "T" (Ard.acquired (Ard.item_properties i)))
    as (p & ps & -> & Hfree & Hnil & Hcons); simpl.
  split; [done|]. destruct ps as [|q ps]; [left; by apply Hnil|right; by apply Hcons].
Qed.

Lemma contains_app_sep (c : ascii) (p rest : string) :
  Py.contains c (p +:+ String c rest) = true.
Proof.
  induction p as [|d p IH]; simpl.
  - by rewrite Ascii.eqb_refl.
  - rewrite IH. apply orb_true_r.
Qed.

(** A timestamp has one date substring. *)
Lemma date_substring_unique (ts d1 d2 : string) :
  date_substring_of ts d1 → date_substring_of ts d2 → d1 = d2.
Proof.
  intros [H1 Hd1] [H2 Hd2]. revert d2 ts H1 H2 Hd1 Hd2.
  induction d1 as [|c d1 IH]; intros d2 ts H1 H2 Hd1 Hd2.
  - destruct Hd1 as [->|[rest ->]].
    + destruct Hd2 as [<-|[rest Hrest]]; [done|]. by destruct d2.
    + destruct Hd2 as [<-|[rest2 Hrest]].
      * by simpl in H2.
      * destruct d2 as [|e d2]; [done|]. simpl in Hrest, H2.
        injection Hrest as <- _. by simpl in H2.
  - simpl in H1. apply orb_false_iff in H1 as [Hc H1].
    destruct d2 as [|e d2].
    + destruct Hd2 as [->|[rest2 ->]].
      * destruct Hd1 as [?|[rest ?]]; simplify_eq/=.
      * destruct Hd1 as [?|[rest ?]]; rewrite ?append_nil_l, ?append_cons in *;
          simplify_eq; by simpl in Hc.
    + simpl in H2. apply orb_false_iff in H2 as [He H2].
      assert (c = e ∧ ∃ ts', (ts' = d1 ∨ ∃ rest, ts' = d1 +:+ String "T" rest)
                            ∧ (ts' = d2 ∨ ∃ rest, ts' = d2 +:+ String "T" rest))
        as [-> (ts' & Hd1' & Hd2')].
      { destruct Hd1 as [->|[rest ->]]; destruct Hd2 as [Heq|[rest2 Heq]];
          rewrite ?append_nil_l, ?append_cons in *; simplify_eq; naive_solver. }
      f_equal. by apply (IH d2 ts').
Qed.

Lemma get_date_item_ids_filter (d : string) (items : list Ard.item) :
  Ard.get_date_item_ids d items
  = Ard.item_id <$> filter (λ i, Ard.get_acquired_date i = d) items.
Proof.
  induction items as [|i items IH]; [done|].
  rewrite filter_cons. simpl.
  destruct (String.eqb_spec (Ard.get_acquired_date i) d).
  - rewrite decide_True by done. by rewrite fmap_cons, IH.
  - by rewrite decide_False.
Qed.

Lemma get_ids_by_date_lookup (items : list Ard.item) (d : string) (ids : list string) :
  Ard.get_ids_by_date items !! d = Some ids ↔
  d ∈ Ard.get_acquired_date <$> items ∧ ids = Ard.get_date_item_ids d items.
Proof.
  unfold Ard.get_ids_by_date.
  rewrite lookup_set_to_map by (by intros ?? _ _ ?).
  setoid_rewrite elem_of_list_to_set. split.
  - by intros (y & Hy & [= -> ->]).
  - intros [Hd ->]. by exists d.
Qed.

(** C2 — [get_ids_by_date] returns a mapping whose keys are exactly the
    date substrings of the timestamps of the items (the part before ['T']),
    and whose value at a date is the list of the identifiers of the items
    with that date, in the order of the items; the empty sequence gives the
    empty mapping. *)
Theorem get_ids_by_date_groups (items : list Ard.item) :
  (∀ d, d ∈ dom (Ard.get_ids_by_date items) ↔
        ∃ i, i ∈ items ∧ date_substring_of (Ard.acquired (Ard.item_properties i)) d)
  ∧ (∀ d ids, Ard.get_ids_by_date items !! d = Some ids →
        ids = Ard.item_id <$> filter (λ i, Ard.get_acquired_date i = d) items)
  ∧ (∀ i d, Ard.get_acquired_date i = d ↔
            date_substring_of (Ard.acquired (Ard.item_properties i)) d)
  ∧ Ard.get_ids_by_date [] = ∅.
Proof.
  split_and!.
  - intros d. rewrite elem_of_dom. unfold is_Some.
    setoid_rewrite get_ids_by_date_lookup. split.
    + intros (ids & (i & -> & Hi)%list_elem_of_fmap & _). exists i.
      split; [done|]. apply get_acquired_date_substring.
    + intros (i & Hi & Hd). eexists. split; [|done].
      apply list_elem_of_fmap. exists i. split; [|done].
      eapply date_substring_unique; [done|apply get_acquired_date_substring].
  - intros d ids [_ ->]%get_ids_by_date_lookup. apply get_date_item_ids_filter.
  - intros i d. split; [intros <-; apply get_acquired_date_substring|].
    intros Hd. eapply date_substring_unique; [apply get_acquired_date_substring|done].
  - apply map_eq. intros d. rewrite lookup_empty. apply eq_None_not_Some.
    intros [ids [Hd _]%get_ids_by_date_lookup]. by apply elem_of_nil in Hd.
Qed.

Lemma concat_Permutation {A} (l1 l2 : list (list A)) :
  l1 ≡ₚ l2 → concat l1 ≡ₚ concat l2.
Proof.
  induction 1 as [|x l1 l2 _ IH|x y l|l1 l2 l3 _ IH1 _ IH2]; simpl.
  - done.
  - by rewrite IH.
  - rewrite !(assoc (++)). f_equiv. apply Permutation_app_comm.
  - by etrans.
Qed.

Lemma concat_fmap_app {A K} (a b : K → list A) (ks : list K) :
  concat ((λ k, a k ++ b k) <$> ks) ≡ₚ concat (a <$> ks) ++ concat (b <$> ks).
Proof.
  induction ks as [|k ks IH]; [done|]. simpl. rewrite IH.
  rewrite <-!(assoc (++)). f_equiv. apply Permutation_app_swap_app.
Qed.

Lemma concat_fmap_nil {A K} (a : K → list A) (ks : list K) :
  (∀ k, k ∈ ks → a k = []) → concat (a <$> ks) = [].
Proof.
  induction ks as [|k ks IH]; intros Ha; [done|]. simpl.
  rewrite Ha by left. apply IH. intros k' Hk'. apply Ha. by right.
Qed.

(** Among distinct keys only the key [k0] has a group for a new element. *)
Lemma concat_fmap_single (k0 x : string) (ks : list string) :
  NoDup ks → k0 ∈ ks →
  concat ((λ k, if String.eqb k0 k then [x] else []) <$> ks) = [x].
Proof.
  induction 1 as [|k ks Hk Hnd IH]; intros Hin; [by apply elem_of_nil in Hin|].
  simpl. destruct (String.eqb_spec k0 k) as [->|Hne].
  - rewrite concat_fmap_nil; [done|]. intros k' Hk'.
    destruct (String.eqb_spec k k') as [->|]; done.
  - apply IH. by apply elem_of_cons in Hin as [?|?].
Qed.

Lemma concat_groups (ks : list string) (items : list Ard.item) :
  NoDup ks → (∀ i, i ∈ items → Ard.get_acquired_date i ∈ ks) →
  concat ((λ d, Ard.get_date_item_ids d items) <$> ks) ≡ₚ Ard.item_id <$> items.
Proof.
  intros Hnd. induction items as [|i items IH]; intros Hks.
  - by rewrite concat_fmap_nil.
  - assert ((λ d, Ard.get_date_item_ids d (i :: items)) <$> ks
            = (λ d, (if String.eqb (Ard.get_acquired_date i) d
                     then [Ard.item_id i] else [])
                    ++ Ard.get_date_item_ids d items) <$> ks) as ->.
    { apply list_fmap_ext. intros _ d _. simpl. by destruct (String.eqb _ d). }
    rewrite concat_fmap_app.
    rewrite concat_fmap_single by (done || apply Hks; left).
    rewrite IH by (intros; apply Hks; by right). done.
Qed.

Lemma map_to_list_get_ids_by_date (items : list Ard.item) :
  map_to_list (Ard.get_ids_by_date items)
  ≡ₚ (λ d, (d, Ard.get_date_item_ids d items))
       <$> elements (list_to_set (Ard.get_acquired_date <$> items) : gset string).
Proof.
  unfold Ard.get_ids_by_date, set_to_map. apply map_to_list_to_map.
  rewrite <-list_fmap_compose. simpl.
  rewrite (list_fmap_ext _ id) by done. rewrite list_fmap_id.
  apply NoDup_elements.
Qed.

Lemma NoDup_fmap_inj_on {A B} (f : A → B) (l : list A) (x y : A) :
  NoDup (f <$> l) → x ∈ l → y ∈ l → f x = f y → x = y.
Proof.
  induction l as [|a l IH]; simpl; intros Hnd Hx Hy Hxy.
  - by apply elem_of_nil in Hx.
  - apply NoDup_cons in Hnd as [Ha Hnd].
    apply elem_of_cons in Hx as [->|Hx]; apply elem_of_cons in Hy as [->|Hy].
    + done.
    + destruct Ha. rewrite Hxy. apply list_elem_of_fmap. by exists y.
    + destruct Ha. rewrite <-Hxy. apply list_elem_of_fmap. by exists x.
    + by apply IH.
Qed.

(** C3 — the groups of [get_ids_by_date] partition the identifiers of items
    with pairwise-distinct identifiers: the identifier of an item is in the
    group of a date exactly when the date is the item's own, that group
    exists, no identifier is in two groups, and all groups together hold the
    identifiers of the input, each as often as the input does. *)
Theorem get_ids_by_date_partition (items : list Ard.item) :
  NoDup (Ard.item_id <$> items) →
  let groups := Ard.get_ids_by_date items in
  (∀ i, i ∈ items →
        ∃ ids, groups !! Ard.get_acquired_date i = Some ids ∧ Ard.item_id i ∈ ids)
  ∧ (∀ i d ids, i ∈ items → groups !! d = Some ids →
        Ard.item_id i ∈ ids ↔ d = Ard.get_acquired_date i)
  ∧ (∀ d1 d2 ids1 ids2 x, groups !! d1 = Some ids1 → groups !! d2 = Some ids2 →
        x ∈ ids1 → x ∈ ids2 → d1 = d2)
  ∧ (∀ d ids, groups !! d = Some ids → NoDup ids)
  ∧ all_group_ids groups ≡ₚ Ard.item_id <$> items.
Proof.
  intros Hnd groups.
  assert (Hmem : ∀ d x, x ∈ Ard.get_date_item_ids d items ↔
                        ∃ i, i ∈ items ∧ Ard.item_id i = x ∧ Ard.get_acquired_date i = d).
  { intros d x. rewrite get_date_item_ids_filter, list_elem_of_fmap. split.
    - intros (i & -> & [Hd Hi]%list_elem_of_filter). by exists i.
    - intros (i & Hi & <- & Hd). exists i. split; [done|].
      by apply list_elem_of_filter. }
  assert (Hinj : ∀ i j, i ∈ items → j ∈ items → Ard.item_id i = Ard.item_id j → i = j).
  { intros i j Hi Hj Hij. by apply (NoDup_fmap_inj_on Ard.item_id items). }
  split_and!.
  - intros i Hi. eexists. split.
    + apply get_ids_by_date_lookup. split; [|done].
      apply list_elem_of_fmap. by exists i.
    + apply Hmem. by exists i.
  - intros i d ids Hi [_ ->]%get_ids_by_date_lookup. rewrite Hmem. split.
    + intros (j & Hj & Hid & <-). f_equal. symmetry. by apply Hinj.
    + intros ->. by exists i.
  - intros d1 d2 ids1 ids2 x [_ ->]%get_ids_by_date_lookup
      [_ ->]%get_ids_by_date_lookup
      (i & Hi & <- & <-)%Hmem (j & Hj & Hid & <-)%Hmem.
    f_equal. symmetry. by apply Hinj.
  - intros d ids [_ ->]%get_ids_by_date_lookup.
    rewrite get_date_item_ids_filter.
    eapply NoDup_fmap_2_strong; [|by apply NoDup_filter, (NoDup_fmap_1 Ard.item_id)].
    intros i j [_ Hi]%list_elem_of_filter [_ Hj]%list_elem_of_filter. by apply Hinj.
  - unfold all_group_ids, groups. rewrite map_to_list_get_ids_by_date.
    rewrite <-list_fmap_compose. apply concat_groups; [apply NoDup_elements|].
    intros i Hi. apply elem_of_elements, elem_of_list_to_set, list_elem_of_fmap.
    by exists i.
Qed.

Lemma get_ids_by_date_partition_witness :
  NoDup (Ard.item_id <$> sample_items)
  ∧ all_group_ids (Ard.get_ids_by_date sample_items) ≡ₚ Ard.item_id <$> sample_items.
Proof.
  assert (Hnd : NoDup (Ard.item_id <$> sample_items)).
  { apply (bool_decide_unpack _). vm_compute. exact I. }
  split; [exact Hnd|].
  exact (proj2 (proj2 (proj2 (proj2 (get_ids_by_date_partition sample_items Hnd))))).
Defined.

Example get_ids_by_date_sample :
  Ard.get_ids_by_date sample_items !! "2019-04-02"
  = Some ["20190402_163459_0e3a"; "20190402_163501_0e3a"].
Proof. vm_compute. reflexivity. Qed.

(** ** Order requests *)

(** C8 — [get_orders_requests] builds exactly one order request per date
    group: as many requests as groups, with pairwise-distinct names, and a
    request named [d] whose products carry the identifiers [ids] exists
    exactly when [ids] is the group of [d]. *)
Theorem get_orders_requests_one_per_group {Geometry : Type}
    (ids_by_date : gmap string (list string)) (aoi_geom : Geometry) :
  let requests := Ard.get_orders_requests ids_by_date aoi_geom in
  length requests = size ids_by_date
  ∧ NoDup (Ard.name <$> requests)
  ∧ (∀ d ids, ids_by_date !! d = Some ids ↔
        ∃ r, r ∈ requests ∧ Ard.name r = d
             ∧ Ard.item_ids <$> Ard.products r = [ids])
  ∧ (∀ r, r ∈ requests → ∃ ids, ids_by_date !! Ard.name r = Some ids
             ∧ Ard.item_ids <$> Ard.products r = [ids]).
Proof.
  intros requests. unfold requests, Ard.get_orders_requests.
  assert (Hin : ∀ r, r ∈ (λ '(date, ids), Ard.build_order ids date aoi_geom)
                          <$> map_to_list ids_by_date ↔
                     ∃ d ids, ids_by_date !! d = Some ids
                              ∧ r = Ard.build_order ids d aoi_geom).
  { intros r. rewrite list_elem_of_fmap. split.
    - intros ([d ids] & -> & Hd%elem_of_map_to_list). by exists d, ids.
    - intros (d & ids & Hd & ->). exists (d, ids). by rewrite elem_of_map_to_list. }
  split_and!.
  - by rewrite length_fmap, length_map_to_list.
  - rewrite <-list_fmap_compose.
    rewrite (list_fmap_ext _ fst) by (by intros _ [??] _).
    apply NoDup_fst_map_to_list.
  - intros d ids. split.
    + intros Hd. exists (Ard.build_order ids d aoi_geom). split; [|done].
      apply Hin. by exists d, ids.
    + intros (r & (d' & ids' & Hd' & ->)%Hin & Hname & Hids).
      simpl in Hname, Hids. by simplify_eq.
  - intros r (d & ids & Hd & ->)%Hin. by exists ids.
Qed.

(** ** Web tiles *)

Section WebtilesFacts.
Context {Float : Type}.
Variable session_post : string → Webtiles.filter_request (Float:=Float) → Webtiles.page.
Variable utcnow_isoformat : string.
Variable mercantile_tile : Float → Float → Z → Webtiles.tile.
Variable PLANET_API_KEY : string.

Lemma slice_to_take {A} (l : list A) (stop : Z) :
  0 ≤ stop → Webtiles.slice_to l stop = take (Z.to_nat stop) l.
Proof.
  intros Hstop. unfold Webtiles.slice_to.
  by destruct (Z.leb_spec 0 stop); [|lia].
Qed.

Lemma follow_links_take (p : Webtiles.page) (pre : list string) (limit : Z) :
  take (Z.to_nat limit)
    (Webtiles.follow_links (pre ++ (Webtiles.id_ <$> Webtiles.features p)) p limit)
  = take (Z.to_nat limit) (pre ++ linked_ids p).
Proof.
  revert pre. induction p as [fs|fs link p' IH]; intros pre;
    cbn [Webtiles.follow_links Webtiles.features linked_ids]; [done|].
  destruct (Z.ltb_spec (Z.of_nat (length (pre ++ (Webtiles.id_ <$> fs)))) limit)
    as [Hlt|Hge]; cbn [andb].
  - destruct (String.eqb_spec link "") as [->|Hlink]; cbn [negb].
    + by rewrite app_nil_r.
    + rewrite IH. by rewrite <-(assoc (++)).
  - rewrite (assoc (++)). by rewrite (take_app_le (pre ++ _)) by lia.
Qed.

(** C9 — for a non-negative [limit], [get_item_ids] returns at most [limit]
    identifiers: the first [limit] of the identifiers on the pages of the
    search response; for [limit = 0] it returns the empty list. *)
Theorem get_item_ids_at_most_limit (geom : Webtiles.geometry)
    (item_type : string) (start_date end_date : option string) (limit : Z) :
  0 ≤ limit →
  let ids := Webtiles.get_item_ids session_post utcnow_isoformat
               geom item_type start_date end_date limit in
  Z.of_nat (length ids) ≤ limit
  ∧ (∃ request,
       Webtiles.item_types request = [item_type]
       ∧ ids = take (Z.to_nat limit)
                 (linked_ids (session_post (Webtiles.API_URL +:+ "/quick-search")
                                           request)))
  ∧ (limit = 0 → ids = []).
Proof.
  intros Hlimit ids.
  assert (Hids : ∃ request,
       Webtiles.item_types request = [item_type]
       ∧ ids = take (Z.to_nat limit)
                 (linked_ids (session_post (Webtiles.API_URL +:+ "/quick-search")
                                           request))).
  { eexists. split; [|unfold ids, Webtiles.get_item_ids;
                      rewrite slice_to_take by done;
                      apply (follow_links_take _ [])].
    done. }
  split_and!; [|done|].
  - destruct Hids as (request & _ & ->). rewrite length_take. lia.
  - intros ->. by destruct Hids as (request & _ & ->).
Qed.

Lemma comprehension_total {A B} (f : A → exn + B) (g : A → B) (l : list A) :
  (∀ a, f a = inr (g a)) → Webtiles.comprehension f l = inr (g <$> l).
Proof.
  intros Hf. induction l as [|a l IH]; [done|]. simpl. by rewrite Hf, IH.
Qed.

Lemma format_tile_url (item_type item_id : string) (x y zoom : Z) :
  PyFormat.format Webtiles.tile_url_template []
    [("item_type", item_type); ("item_id", item_id);
     ("x", PyFormat.str_of_Z x); ("y", PyFormat.str_of_Z y);
     ("z", PyFormat.str_of_Z zoom); ("api_key", PLANET_API_KEY)]
  = inr (tile_url PLANET_API_KEY item_type item_id x y zoom).
Proof.
  transitivity
    (inr (A:=exn)
       ("https://tiles.planet.com/data/v1/" +:+ item_type +:+ "/" +:+ item_id
        +:+ "/" +:+ PyFormat.str_of_Z zoom +:+ "/" +:+ PyFormat.str_of_Z x
        +:+ "/" +:+ PyFormat.str_of_Z y +:+ ".png?api_key="
        +:+ PLANET_API_KEY +:+ "")).
  - reflexivity.
  - unfold tile_url. by rewrite (append_nil_r PLANET_API_KEY).
Qed.


End WebtilesFacts.

Lemma get_item_ids_at_most_limit_witness :
  0 ≤ 1
  ∧ Z.of_nat (length (Webtiles.get_item_ids (Float:=Z) (λ _ _, sample_pages)
                        "2019-10-01T00:00:00"
                        (Webtiles.coords_to_geometry 37 (-122))
                        "PSScene" None None 1)) ≤ 1.
Proof.
  split; [lia|].
  apply (get_item_ids_at_most_limit (Float:=Z) (λ _ _, sample_pages)
           "2019-10-01T00:00:00" (Webtiles.coords_to_geometry 37 (-122))
           "PSScene" None None 1).
  lia.
Defined.

Example get_item_ids_sample :
  Webtiles.get_item_ids (Float:=Z) (λ _ _, sample_pages) "2019-10-01T00:00:00"
    (Webtiles.coords_to_geometry 37 (-122)) "PSScene" None None 5
  = ["20190918_183654_1035"; "20190918_183653_1035"; "20190917_183521_0f17"].
Proof. reflexivity. Qed.

(** ** Loops *)

(** The invariant rule of [while]: what holds before the loop and is kept by
    every iteration that falls through leads to [Post], whichever way the
    loop ends. *)
Lemma while_rule {St} (Inv : St → Prop) (Post : result St → Prop)
    (cond : St → bool) (body : St → ctl St) :
  (∀ st, Inv st → cond st = true →
         match body st with
         | Next st' => Inv st'
         | Break st' => Post (Returned st')
         | Raise e st' => Post (Raised e st')
         end) →
  (∀ st, Inv st → cond st = false → Post (Returned st)) →
  ∀ fuel st, Inv st → ∀ r, while fuel cond body st = Some r → Post r.
Proof.
  intros Hbody Hexit fuel. induction fuel as [|fuel IH]; intros st Hinv r; [done|].
  simpl. destruct (cond st) eqn:Hcond.
  - specialize (Hbody st Hinv Hcond). destruct (body st) as [st'|st'|e st'].
    + by apply IH.
    + by intros [= <-].
    + by intros [= <-].
  - intros [= <-]. by apply Hexit.
Qed.

(** A loop whose iterations decrease a measure ends within the fuel that the
    measure allows. *)
Lemma while_terminates {St} (measure : St → nat)
    (cond : St → bool) (body : St → ctl St) :
  (∀ st st', cond st = true → body st = Next st' → (measure st' < measure st)%nat) →
  ∀ fuel st, (measure st < fuel)%nat → is_Some (while fuel cond body st).
Proof.
  intros Hdec fuel. induction fuel as [|fuel IH]; intros st Hm; [lia|].
  simpl. destruct (cond st) eqn:Hcond; [|by eexists].
  destruct (body st) as [st'|st'|e st'] eqn:Hbody; [|by eexists..].
  apply IH. specialize (Hdec st st' Hcond Hbody). lia.
Qed.

(** The invariant rule of [for]: [J rest st] holds when [rest] is still to be
    visited in the state [st]. *)
Lemma for_each_rule {A St} (J : list A → St → Prop) (Q : ctl St → Prop)
    (body : A → St → ctl St) :
  (∀ x rest st, J (x :: rest) st →
         match body x st with
         | Next st' => J rest st'
         | Break st' => Q (Break st')
         | Raise e st' => Q (Raise e st')
         end) →
  (∀ st, J [] st → Q (Next st)) →
  ∀ xs st, J xs st → Q (for_each xs body st).
Proof.
  intros Hbody Hdone xs. induction xs as [|x xs IH]; intros st HJ; simpl.
  - by apply Hdone.
  - specialize (Hbody x xs st HJ). destruct (body x st); [by apply IH|done..].
Qed.

Lemma statuses_app (l1 l2 : list event) :
  statuses (l1 ++ l2) = statuses l1 ++ statuses l2.
Proof. apply omap_app. Qed.

Lemma statuses_for_app (oid : string) (l1 l2 : list event) :
  statuses_for oid (l1 ++ l2) = statuses_for oid l1 ++ statuses_for oid l2.
Proof. apply omap_app. Qed.

Lemma sleeps_app (l1 l2 : list event) : sleeps (l1 ++ l2) = (sleeps l1 + sleeps l2)%nat.
Proof. unfold sleeps. by rewrite omap_app, length_app. Qed.

(** ** Waiting for one order (orders/ordering_and_delivery.ipynb) *)

Section OrdersPollFacts.
Context {Server Auth : Type}.
Variable requests_get : Server → string → Auth → string * Server.
Variable order_url : string.
Variable auth : Auth.

Lemma orders_poll_terminates (srv : Server) (num_loops : Z) :
  is_Some (Orders.poll_for_success requests_get order_url auth srv num_loops).
Proof.
  apply (while_terminates (λ st, Z.to_nat (num_loops - Orders.count st))).
  - intros st st' Hcond%Z.ltb_lt. unfold Orders.poll_round.
    destruct (requests_get _ _ _) as [state srv'].
    destruct (Py.str_in _ _); [done|]. intros [= <-]. simpl. lia.
  - simpl. lia.
Qed.

Lemma orders_poll_run (srv : Server) (num_loops : Z) :
  ∃ st, Orders.poll_for_success requests_get order_url auth srv num_loops
        = Some (Returned st)
        ∧ orders_run requests_get order_url auth srv num_loops st.
Proof.
  destruct (orders_poll_terminates srv num_loops) as [r Hr].
  cut (∃ st, r = Returned st ∧ orders_run requests_get order_url auth srv num_loops st).
  { intros (st & -> & Hst). by exists st. }
  revert r Hr. unfold Orders.poll_for_success, Orders.poll_for_success_fuel.
  set (Inv := λ st : Orders.poll_state Server,
         let n := length (statuses (Orders.log st)) in
         Orders.count st = Z.of_nat n
         ∧ Z.of_nat n ≤ Z.max 0 num_loops
         ∧ statuses (Orders.log st) = observed requests_get order_url auth srv <$> seq 0 n
         ∧ Orders.server st = advance requests_get order_url auth srv n
         ∧ (∀ j, (j < n)%nat → is_end (observed requests_get order_url auth srv j) = false)
         ∧ sleeps (Orders.log st) = n).
  apply (while_rule Inv (λ r, ∃ st, r = Returned st ∧ orders_run requests_get order_url auth srv num_loops st)).
  - intros st (Hcount & Hle & Hst & Hsrv & Hnone & Hsleeps) Hcond%Z.ltb_lt.
    unfold Orders.poll_round.
    destruct (requests_get (Orders.server st) order_url auth) as [state srv'] eqn:Hget.
    set (n := length (statuses (Orders.log st))) in *.
    assert (Hstate : state = observed requests_get order_url auth srv n).
    { unfold observed. by rewrite <-Hsrv, Hget. }
    assert (Hlen : length (statuses (Orders.log st
                             ++ [EGet order_url state; EPrint state])) = S n).
    { rewrite statuses_app, length_app. simpl. lia. }
    assert (Hseq : statuses (Orders.log st ++ [EGet order_url state; EPrint state])
                   = observed requests_get order_url auth srv <$> seq 0 (S n)).
    { rewrite statuses_app, seq_S, fmap_app, <-Hst, Hstate. done. }
    destruct (Py.str_in state Orders.end_states) eqn:Hend.
    + eexists. split; [done|]. unfold orders_run. simpl. rewrite Hlen.
      split_and!; [lia|lia|exact Hseq|]. left. exists n.
      split_and!; [done|done| |].
      * unfold is_end. by rewrite <-Hstate.
      * rewrite sleeps_app, Hsleeps. unfold sleeps. simpl. lia.
    + assert (Hlen' : length (statuses ((Orders.log st
                               ++ [EGet order_url state; EPrint state])
                               ++ [ESleep 10])) = S n).
      { rewrite statuses_app, length_app, Hlen. simpl. lia. }
      unfold Inv. cbn [Orders.log Orders.count Orders.server]. rewrite Hlen'.
      split_and!; [lia|lia| | | |].
      * rewrite statuses_app, Hseq. simpl. by rewrite app_nil_r.
      * simpl. by rewrite <-Hsrv, Hget.
      * intros j Hj. destruct (decide (j = n)) as [->|]; [|apply Hnone; lia].
        unfold is_end. by rewrite <-Hstate.
      * rewrite !sleeps_app, Hsleeps. unfold sleeps. simpl. lia.
  - intros st (Hcount & Hle & Hst & Hsrv & Hnone & Hsleeps) Hcond%Z.ltb_ge.
    exists st. split; [done|]. unfold orders_run.
    split_and!; [done|done|done|]. right. split_and!; [done|lia|done].
  - unfold Inv. simpl. split_and!; [done|lia|done|done|lia|done].
Qed.

End OrdersPollFacts.

(** ** Waiting for several orders (analysis-ready-data) *)

Lemma remove_Some_perm (x : string) (l l' : list string) :
  Py.remove x l = Some l' → l ≡ₚ x :: l'.
Proof.
  revert l'. induction l as [|y l IH]; intros l'; simpl; [done|].
  destruct (String.eqb_spec y x) as [->|Hne].
  - by intros [= ->].
  - destruct (Py.remove x l) as [r|]; simpl; [|done]. intros [= <-].
    rewrite (IH r) by done. apply Permutation_swap.
Qed.

Lemma remove_is_Some (x : string) (l : list string) :
  x ∈ l → is_Some (Py.remove x l).
Proof.
  induction l as [|y l IH]; simpl; intros Hx; [by apply elem_of_nil in Hx|].
  destruct (String.eqb_spec y x) as [->|Hne]; [by eexists|].
  apply elem_of_cons in Hx as [->|Hx]; [done|].
  destruct (IH Hx) as [r ->]. by eexists.
Qed.

Section ArdPollFacts.
Context {Server : Type}.
Variable get_individual_order : Server → string → string * Server.
Variable response : option string.

Abbreviation poll_state := (Ard.poll_state Server).
Abbreviation poll_order := (Ard.poll_order get_individual_order response).
Abbreviation poll_round := (Ard.poll_round get_individual_order response).

Lemma poll_order_step (oid : string) (st : poll_state) :
  order_step response oid st (poll_order oid st).
Proof.
  unfold Ard.poll_order.
  destruct (get_individual_order (Ard.server st) oid) as [state srv].
  destruct (String.eqb_spec state "failed") as [->|Hne].
  - match goal with
    | |- order_step response _ _ (match response with
                                  | Some r => Raise _ ?st1
                                  | None => _ end) =>
        replace (match response with
                 | Some r => Raise (Exception r) st1
                 | None => Raise (NameError "response") st1
                 end) with (Raise (failure_exn response) st1)
          by (unfold failure_exn; by destruct response)
    end.
    by constructor.
  - destruct (Py.str_in state Ard.success_states) eqn:Hsucc.
    + cbn [Ard.polling]. destruct (Py.remove oid (Ard.polling st)) eqn:Hrm.
      * by eapply step_success.
      * by eapply step_not_listed.
    + eapply step_pending; [|done..]. unfold is_terminal, is_success.
      rewrite Hsucc. by apply String.eqb_neq in Hne as ->.
Qed.

(** The rule of the outer loop body, from an invariant [J] of its inner
    loop: [Q] holds of the way the body ends. *)
Lemma poll_round_rule (J : list string → poll_state → Prop)
    (Q : ctl poll_state → Prop) (st : poll_state) :
  J (Ard.polling st) (round_start st) →
  (∀ oid rest st1, J (oid :: rest) st1 →
      ∀ c, order_step response oid st1 c →
           match c with
           | Next st2 => J rest st2
           | Break _ => True
           | Raise e st2 => Q (Raise e st2)
           end) →
  (∀ st1 st2, J [] st1 →
      Ard.count st2 = Ard.count st1 → Ard.polling st2 = Ard.polling st1 →
      (Ard.polling st1 = [] → Ard.log st2 = Ard.log st1 ++ [EPrint "done"]
                              → Q (Break st2))
      ∧ (Ard.polling st1 ≠ [] →
           Ard.log st2 = Ard.log st1 ++ [EPrint "--"; ESleep 30] → Q (Next st2))) →
  Q (poll_round st).
Proof.
  intros Hstart Hstep Hend. unfold Ard.poll_round. fold (round_start st).
  cbn [Ard.polling round_start].
  apply (for_each_rule J
           (λ c, Q match c with
                   | Next st1 =>
                       if bool_decide (length (Ard.polling st1) = 0%nat)
                       then Break {| Ard.count := Ard.count st1;
                                     Ard.polling := Ard.polling st1;
                                     Ard.completed := Ard.completed st1;
                                     Ard.states := Ard.states st1;
                                     Ard.server := Ard.server st1;
                                     Ard.log := Ard.log st1 ++ [EPrint "done"] |}
                       else Next {| Ard.count := Ard.count st1;
                                    Ard.polling := Ard.polling st1;
                                    Ard.completed := Ard.completed st1;
                                    Ard.states := Ard.states st1;
                                    Ard.server := Ard.server st1;
                                    Ard.log := Ard.log st1
                                               ++ [EPrint "--"; ESleep 30] |}
                   | Break st1 => Break st1
                   | Raise e st1 => Raise e st1
                   end)).
  - intros oid rest st1 HJ.
    pose proof (poll_order_step oid st1) as Hs.
    pose proof (Hstep oid rest st1 HJ _ Hs) as H.
    destruct (poll_order oid st1); [done|inversion Hs|done].
  - intros st1 HJ. case_bool_decide as Hlen.
    + match goal with
      | |- Q (Break ?s) => apply (proj1 (Hend st1 s HJ eq_refl eq_refl))
      end; [by apply nil_length_inv|done].
    + match goal with
      | |- Q (Next ?s) => apply (proj2 (Hend st1 s HJ eq_refl eq_refl))
      end; [|done]. intros Heq. apply Hlen. by rewrite Heq.
  - done.
Qed.

Lemma statuses_fetch (log : list event) (oid state : string) :
  statuses (log ++ fetch_events oid state) = statuses log ++ [state].
Proof. by rewrite statuses_app. Qed.

Lemma statuses_for_fetch (oid' : string) (log : list event) (oid state : string) :
  statuses_for oid' (log ++ fetch_events oid state)
  = statuses_for oid' log ++ (if String.eqb oid oid' then [state] else []).
Proof.
  rewrite statuses_for_app. f_equal. unfold statuses_for. simpl.
  by destruct (String.eqb oid oid').
Qed.

Lemma poll_round_count (st : poll_state) :
  ctl_post (λ st', Ard.count st' = Ard.count st + 1) (λ _, True) (poll_round st).
Proof.
  apply (poll_round_rule (λ _ st1, Ard.count st1 = Ard.count st + 1)).
  - done.
  - intros oid rest st1 Hc c Hstep. destruct Hstep; simpl; [done| |done|]; congruence.
  - intros st1 st2 Hc Hcount _. split; [done|]. intros _ _. simpl. congruence.
Qed.

Lemma ard_poll_terminates (order_ids : list string) (srv : Server) (num_loops : Z) :
  is_Some (Ard.poll_for_success get_individual_order response
             order_ids srv num_loops).
Proof.
  apply (while_terminates (λ st, Z.to_nat (num_loops - Ard.count st))).
  - intros st st' Hcond%Z.ltb_lt Hbody.
    pose proof (poll_round_count st) as Hc. rewrite Hbody in Hc. simpl in Hc. lia.
  - simpl. lia.
Qed.

(** *** A failed order *)

Lemma ard_poll_failed (order_ids : list string) (srv : Server) (num_loops : Z)
    (r : result poll_state) :
  Ard.poll_for_success get_individual_order response order_ids srv num_loops
  = Some r →
  ended_on_failed response r.
Proof.
  revert r. unfold Ard.poll_for_success, Ard.poll_for_success_fuel.
  apply (while_rule (λ st, "failed" ∉ statuses (Ard.log st)) (ended_on_failed response));
    [| |by intros ?%elem_of_nil].
  - intros st Hinv _.
    apply (poll_round_rule
             (λ todo st1, ("failed" ∉ statuses (Ard.log st1))
                          ∧ (todo ⊆+ Ard.polling st1))
             (ctl_post (λ st, "failed" ∉ statuses (Ard.log st)) (ended_on_failed response))).
    + done.
    + intros oid rest st1 [Hlog Htodo] c Hstep.
      destruct Hstep as [st' Hlog' _ _|state polling' st' Hsucc Hne Hrm Hlog' Hpoll _
                        |state st' _ Hrm _ _|state st' Hterm Hlog' Hpoll _]; simpl.
      * split; [done|]. by exists (Ard.log st1), oid.
      * rewrite Hlog', statuses_fetch, Hpoll. split.
        { rewrite elem_of_app, list_elem_of_singleton. by intros [?|?]. }
        apply remove_Some_perm in Hrm. rewrite Hrm in Htodo.
        by apply (submseteq_app_inv_l _ _ [oid]).
      * destruct (remove_is_Some oid (Ard.polling st1)) as [? Hsome];
          [|by rewrite Hrm in Hsome].
        eapply elem_of_submseteq; [|done]. by left.
      * rewrite Hlog', statuses_fetch, Hpoll. split.
        { rewrite elem_of_app, list_elem_of_singleton. intros [?| <-]; [done|].
          by vm_compute in Hterm. }
        etrans; [|done]. by apply submseteq_cons.
    + intros st1 st2 [Hlog _] _ _. split; intros _ Hlog2; simpl;
        rewrite Hlog2, statuses_app; simpl; by rewrite app_nil_r.
  - by intros st Hinv _.
Qed.

(** *** The first terminal status of an order *)

Lemma pending_stops (l : list string) : pending l → stops_at_terminal l.
Proof.
  intros Hl k s Hk Hs. apply (Forall_lookup_1 _ _ _ _ Hl) in Hk. congruence.
Qed.

Lemma pending_snoc_stops (l : list string) (s : string) :
  pending l → stops_at_terminal (l ++ [s]).
Proof.
  intros Hl k s' Hk Hs. rewrite length_app. simpl.
  destruct (decide (k < length l)%nat) as [Hlt|Hge].
  - rewrite lookup_app_l in Hk by done.
    apply (Forall_lookup_1 _ _ _ _ Hl) in Hk. congruence.
  - apply lookup_lt_Some in Hk. rewrite length_app in Hk. simpl in Hk. lia.
Qed.

Lemma order_inv_fetch (st1 st2 : poll_state) (oid state : string) :
  order_inv st1 → oid ∈ Ard.polling st1 →
  Ard.log st2 = Ard.log st1 ++ fetch_events oid state →
  NoDup (Ard.polling st2) →
  (∀ x, x ∈ Ard.polling st2 → x ∈ Ard.polling st1) →
  (is_terminal state = true → oid ∉ Ard.polling st2) →
  order_inv st2.
Proof.
  intros [Hnd Hinv] Hoid Hlog Hnd2 Hsub Hgone. split; [done|]. intros oid'.
  rewrite Hlog, statuses_for_fetch. destruct (String.eqb_spec oid oid') as [<-|Hne].
  - destruct (Hinv oid) as [_ Hpend]. specialize (Hpend Hoid). split.
    + by apply pending_snoc_stops.
    + intros Hin. apply Forall_app. split; [done|]. apply Forall_singleton.
      destruct (is_terminal state); [by destruct Hgone|done].
  - rewrite app_nil_r. destruct (Hinv oid') as [Hstop Hpend]. split; [done|].
    intros Hin. by apply Hpend, Hsub.
Qed.

Lemma order_inv_print (st1 st2 : poll_state) (lines : list event) :
  order_inv st1 → Ard.polling st2 = Ard.polling st1 →
  Ard.log st2 = Ard.log st1 ++ lines →
  (∀ oid, statuses_for oid lines = []) →
  order_inv st2.
Proof.
  intros [Hnd Hinv] Hpoll Hlog Hlines. unfold order_inv. rewrite Hpoll, Hlog.
  split; [done|]. intros oid. by rewrite statuses_for_app, Hlines, app_nil_r.
Qed.

Lemma ard_poll_stops (order_ids : list string) (srv : Server) (num_loops : Z)
    (r : result poll_state) :
  NoDup order_ids →
  Ard.poll_for_success get_individual_order response order_ids srv num_loops
  = Some r →
  ∀ oid, stops_at_terminal (statuses_for oid (Ard.log (final r))).
Proof.
  intros Hnd. revert r.
  unfold Ard.poll_for_success, Ard.poll_for_success_fuel.
  set (Post := λ r : result poll_state,
         ∀ oid, stops_at_terminal (statuses_for oid (Ard.log (final r)))).
  apply (while_rule order_inv Post).
  - intros st Hinv _.
    apply (poll_round_rule
             (λ todo st1, order_inv st1 ∧ NoDup todo
                          ∧ ∀ x, x ∈ todo → x ∈ Ard.polling st1)
             (ctl_post order_inv Post)).
    + split_and!; [exact Hinv|apply Hinv|intros x Hx; exact Hx].
    + intros oid rest st1 (Hinv1 & [Hoid Hrest]%NoDup_cons & Hsub) c Hstep.
      assert (Hin : oid ∈ Ard.polling st1) by (apply Hsub; by left).
      destruct Hstep as [st' Hlog' Hpoll _|state polling' st' Hsucc Hne Hrm Hlog' Hpoll _
                        |state st' _ Hrm _ _|state st' Hterm Hlog' Hpoll _]; simpl.
      * intros oid'. simpl. rewrite Hlog', statuses_for_fetch.
        destruct (String.eqb_spec oid oid') as [<-|_].
        -- by apply pending_snoc_stops, Hinv1.
        -- rewrite app_nil_r. apply Hinv1.
      * apply remove_Some_perm in Hrm.
        destruct Hinv1 as [Hnd1 Hinv1]. pose proof Hnd1 as Hnd1'.
        rewrite Hrm in Hnd1'. apply NoDup_cons in Hnd1' as [Hfresh Hnd'].
        split_and!; [|done|].
        -- eapply (order_inv_fetch st1 st' oid state); rewrite ?Hpoll; try done.
           intros x Hx. rewrite Hrm. by right.
        -- intros x Hx. rewrite Hpoll.
           assert (Hx1 : x ∈ oid :: polling') by (rewrite <-Hrm; apply Hsub; by right).
           apply elem_of_cons in Hx1 as [->|Hx1]; done.
      * destruct (remove_is_Some oid (Ard.polling st1)) as [? Hsome];
          [done|by rewrite Hrm in Hsome].
      * split_and!; [|done|].
        -- eapply (order_inv_fetch st1 st' oid state); rewrite ?Hpoll; try done.
           ++ apply Hinv1.
           ++ congruence.
        -- intros x Hx. rewrite Hpoll. apply Hsub. by right.
    + intros st1 st2 (Hinv1 & _) _ Hpoll. split; intros _ Hlog2; simpl.
      * intros oid. by apply (order_inv_print st1 st2 _ Hinv1 Hpoll Hlog2).
      * by apply (order_inv_print st1 st2 _ Hinv1 Hpoll Hlog2).
  - intros st Hinv _ oid. apply Hinv.
  - split; [done|]. intros oid. split; [by intros ??|by constructor].
Qed.

(** *** The iteration budget *)

Lemma saw_terminal_app (l1 l2 : list event) :
  saw_terminal l1 → saw_terminal (l1 ++ l2).
Proof.
  intros (s & Hs & Hterm). exists s. split; [|done].
  rewrite statuses_app. apply elem_of_app. by left.
Qed.

Lemma saw_terminal_fetch (log : list event) (oid state : string) :
  is_terminal state = true → saw_terminal (log ++ fetch_events oid state).
Proof.
  intros Hterm. exists state. split; [|done].
  rewrite statuses_fetch. apply elem_of_app. right. by left.
Qed.

Lemma is_success_terminal (s : string) : is_success s = true → is_terminal s = true.
Proof. unfold is_terminal. intros ->. apply orb_true_r. Qed.

Lemma ard_poll_budget (order_ids : list string) (srv : Server) (num_loops : Z)
    (r : result poll_state) :
  Ard.poll_for_success get_individual_order response order_ids srv num_loops
  = Some r →
  within_budget order_ids num_loops r.
Proof.
  revert r. unfold Ard.poll_for_success, Ard.poll_for_success_fuel.
  set (Inv := λ st : poll_state,
         0 ≤ Ard.count st ≤ Z.max 0 num_loops
         ∧ (saw_terminal (Ard.log st)
            ∨ all_pending order_ids (Z.to_nat (Ard.count st)) st)).
  apply (while_rule Inv (within_budget order_ids num_loops)).
  - intros st [Hcount Hst] Hcond%Z.ltb_lt.
    apply (poll_round_rule
             (λ todo st1,
                Ard.count st1 = Ard.count st + 1
                ∧ (saw_terminal (Ard.log st1)
                   ∨ (Ard.polling st1 = order_ids
                      ∧ sleeps (Ard.log st1) = Z.to_nat (Ard.count st)
                      ∧ (length (statuses (Ard.log st1)) + length todo
                         = Z.to_nat (Ard.count st) * length order_ids
                           + length order_ids)%nat)))
             (ctl_post Inv (within_budget order_ids num_loops))).
    + split; [done|]. destruct Hst as [?|(Hpoll & Hsl & Hlen)]; [by left|right].
      simpl. rewrite Hpoll. split_and!; [done|done|lia].
    + intros oid rest st1 [Hc1 Hst1] c Hstep.
      destruct Hstep as [st' Hlog' Hpoll Hc|state polling' st' Hsucc Hne Hrm Hlog' Hpoll Hc
                        |state st' Hsucc Hrm Hlog' Hc|state st' Hterm Hlog' Hpoll Hc];
        unfold ctl_post, within_budget; cbn [final].
      * split; [lia|]. left. rewrite Hlog'. by apply saw_terminal_fetch.
      * split; [lia|]. left. rewrite Hlog'.
        by apply saw_terminal_fetch, is_success_terminal.
      * split; [lia|]. left. rewrite Hlog'.
        by apply saw_terminal_fetch, is_success_terminal.
      * split; [lia|]. rewrite Hlog'.
        destruct Hst1 as [?|(Hpoll1 & Hsl & Hlen)]; [left; by apply saw_terminal_app|].
        right. rewrite Hpoll, statuses_fetch, sleeps_app, length_app. simpl in *.
        change (sleeps (fetch_events oid state)) with 0%nat.
        split_and!; [done|lia|lia].
    + intros st1 st2 [Hc1 Hst1] Hc2 Hpoll2.
      split; intros Hpoll1 Hlog2; unfold ctl_post, within_budget, Inv; cbn [final].
      * split; [lia|]. rewrite Hlog2.
        destruct Hst1 as [?|(Hpoll & _)]; [left; by apply saw_terminal_app|].
        right. left. congruence.
      * split; [lia|]. rewrite Hlog2.
        destruct Hst1 as [?|(Hpoll & Hsl & Hlen)]; [left; by apply saw_terminal_app|].
        right. unfold all_pending. rewrite Hlog2, statuses_app, sleeps_app, length_app.
        rewrite Hc2, Hc1, Z2Nat.inj_add by lia.
        change (sleeps [EPrint "--"; ESleep 30]) with 1%nat. simpl in *.
        split_and!; [congruence|lia|lia].
  - intros st [Hcount Hst] Hcond%Z.ltb_ge. unfold within_budget. cbn [final].
    split; [done|].
    destruct Hst as [?|Hst]; [by left|]. right. right. exists st.
    split; [done|]. split; [lia|]. by replace (Z.to_nat num_loops)
      with (Z.to_nat (Ard.count st)) by lia.
  - split; [simpl; lia|]. right. by split_and!.
Qed.

End ArdPollFacts.

(** ** The two pollers *)

Lemma orders_run_stops {Server Auth : Type}
    (requests_get : Server → string → Auth → string * Server)
    (order_url : string) (auth : Auth) (srv : Server) (num_loops : Z)
    (st : Orders.poll_state Server) (k : nat) (s : string) :
  orders_run requests_get order_url auth srv num_loops st →
  statuses (Orders.log st) !! k = Some s → is_end s = true →
  length (statuses (Orders.log st)) = S k
  ∧ Orders.count st = Z.of_nat (S k)
  ∧ sleeps (Orders.log st) = k.
Proof.
  intros (Hcount & _ & Hseq & Hcases) Hk Hend.
  set (n := length (statuses (Orders.log st))) in *.
  assert (Hkn : (k < n)%nat) by by apply lookup_lt_Some in Hk.
  assert (Hobs : observed requests_get order_url auth srv k = s).
  { rewrite Hseq, list_lookup_fmap, lookup_seq_lt in Hk by done.
    by injection Hk. }
  destruct Hcases as [(k' & Hn & Hnone & _ & Hsleeps)|(Hnone & _)].
  - destruct (decide (k < k')%nat) as [Hlt|Hge].
    + specialize (Hnone k Hlt). congruence.
    + assert (k = k') as -> by lia. split_and!; [done|lia|done].
  - specialize (Hnone k Hkn). congruence.
Qed.

(** C1, as stated, fails for the single-order poller: on the status
    ['failed'] it leaves the loop and returns. *)
Lemma orders_poll_returns_on_failed :
  Orders.poll_for_success (always "failed") "orders/v2/1" tt tt 30
  = Some (Returned {| Orders.count := 1; Orders.server := tt;
                      Orders.log := [EGet "orders/v2/1" "failed"; EPrint "failed"] |}).
Proof. vm_compute. reflexivity. Qed.

Example ard_poll_raises_on_failed :
  Ard.poll_for_success (always_order "failed") None ["a"; "b"] tt 50
  = Some (Raised (NameError "response")
            {| Ard.count := 1; Ard.polling := ["a"; "b"]; Ard.completed := [];
               Ard.states := ["f"; "a"; "i"; "l"; "e"; "d"]; Ard.server := tt;
               Ard.log := [EGet "a" "failed"; EPrint "a:failed"] |}).
Proof. vm_compute. reflexivity. Qed.

(** C1 (amended) — the multi-order poller raises exactly when a status
    request is answered with ['failed'], at once: that answer is the last
    one of the run, and the exception is that of the failure branch.  The
    single-order poller does not raise: ['failed'] ends its loop like the
    other end states, and it returns. *)
Theorem poll_for_success_on_failed {Server Server' Auth : Type}
    (get_individual_order : Server → string → string * Server)
    (response : option string)
    (requests_get : Server' → string → Auth → string * Server') :
  (∀ order_ids srv num_loops,
     ∃ r, Ard.poll_for_success get_individual_order response order_ids srv num_loops
          = Some r
          ∧ ("failed" ∈ statuses (Ard.log (final r)) ↔ raised r = true)
          ∧ (∀ e st, r = Raised e st →
                     e = failure_exn response
                     ∧ last (statuses (Ard.log st)) = Some "failed"
                     ∧ ∀ k, statuses (Ard.log st) !! k = Some "failed" →
                            length (statuses (Ard.log st)) = S k))
  ∧ (∀ order_url auth srv num_loops,
       ∃ st, Orders.poll_for_success requests_get order_url auth srv num_loops
             = Some (Returned st)
             ∧ ∀ k, statuses (Orders.log st) !! k = Some "failed" →
                    length (statuses (Orders.log st)) = S k
                    ∧ sleeps (Orders.log st) = k).
Proof.
  split.
  - intros order_ids srv num_loops.
    destruct (ard_poll_terminates get_individual_order response
                order_ids srv num_loops) as [r Hr].
    exists r. split; [done|].
    pose proof (ard_poll_failed _ _ _ _ _ _ Hr) as Hfailed.
    destruct r as [st|e st]; simpl in *.
    + split; [by split|]. by intros e st' [=].
    + destruct Hfailed as (-> & log & oid & Hlog & Hnot).
      rewrite Hlog, statuses_fetch. split.
      * split; [done|]. intros _. apply elem_of_app. right. by left.
      * intros e st' [= <- <-]. rewrite Hlog, statuses_fetch, last_snoc.
        split_and!; [done|done|]. intros k Hk. rewrite length_app. simpl.
        destruct (decide (k < length (statuses log))%nat) as [Hlt|Hge].
        -- rewrite lookup_app_l in Hk by done. destruct Hnot.
           by apply list_elem_of_lookup_2 in Hk.
        -- apply lookup_lt_Some in Hk. rewrite length_app in Hk. simpl in Hk. lia.
  - intros order_url auth srv num_loops.
    destruct (orders_poll_run requests_get order_url auth srv num_loops)
      as (st & Hst & Hrun).
    exists st. split; [done|]. intros k Hk.
    by destruct (orders_run_stops _ _ _ _ _ _ _ _ Hrun Hk eq_refl) as (? & _ & ?).
Qed.

(** C4, as stated, fails for the multi-order poller when an order is listed
    twice: the first request for it is answered with a terminal status and a
    second request for it follows in the same iteration. *)
Lemma ard_poll_listed_twice :
  ∃ st, Ard.poll_for_success (always_order "success") None ["a"; "a"] tt 50
        = Some (Returned st)
        ∧ statuses_for "a" (Ard.log st) = ["success"; "success"].
Proof. eexists. split; vm_compute; reflexivity. Qed.

(** C4 (amended) — polling stops at the first terminal status.  In the
    single-order poller a fetched end state is the last status fetched: when
    it is the [k+1]-th one, the run made [k+1] requests and iterations and
    slept [k] times, none of them after it.  In the multi-order poller with
    pairwise-distinct order ids, a terminal status fetched for an order is
    the last status fetched for that order. *)
Theorem poll_for_success_stops_at_first_terminal {Server Server' Auth : Type}
    (get_individual_order : Server → string → string * Server)
    (response : option string)
    (requests_get : Server' → string → Auth → string * Server') :
  (∀ order_url auth srv num_loops,
     ∃ st, Orders.poll_for_success requests_get order_url auth srv num_loops
           = Some (Returned st)
           ∧ ∀ k s, statuses (Orders.log st) !! k = Some s → is_end s = true →
                    length (statuses (Orders.log st)) = S k
                    ∧ Orders.count st = Z.of_nat (S k)
                    ∧ sleeps (Orders.log st) = k)
  ∧ (∀ order_ids srv num_loops,
       NoDup order_ids →
       ∃ r, Ard.poll_for_success get_individual_order response order_ids srv num_loops
            = Some r
            ∧ ∀ oid k s,
                statuses_for oid (Ard.log (final r)) !! k = Some s →
                is_terminal s = true →
                length (statuses_for oid (Ard.log (final r))) = S k).
Proof.
  split.
  - intros order_url auth srv num_loops.
    destruct (orders_poll_run requests_get order_url auth srv num_loops)
      as (st & Hst & Hrun).
    exists st. split; [done|]. intros k s Hk Hend. by eapply orders_run_stops.
  - intros order_ids srv num_loops Hnd.
    destruct (ard_poll_terminates get_individual_order response
                order_ids srv num_loops) as [r Hr].
    exists r. split; [done|]. intros oid.
    by apply (ard_poll_stops _ _ _ _ _ _ Hnd Hr).
Qed.

Lemma poll_for_success_stops_at_first_terminal_witness :
  NoDup ["a"; "b"]
  ∧ ∃ r, Ard.poll_for_success sample_orders None ["a"; "b"] 0%nat 3 = Some r
         ∧ ∀ oid k s,
             statuses_for oid (Ard.log (final r)) !! k = Some s →
             is_terminal s = true →
             length (statuses_for oid (Ard.log (final r))) = S k.
Proof.
  assert (Hnd : NoDup ["a"; "b"]).
  { apply (bool_decide_unpack _). vm_compute. exact I. }
  split; [exact Hnd|].
  exact (proj2 (poll_for_success_stops_at_first_terminal
                  sample_orders None (always "running")) ["a"; "b"] 0%nat 3 Hnd).
Defined.

Example ard_poll_sample :
  ∃ st, Ard.poll_for_success sample_orders None ["a"; "b"] 0%nat 3 = Some (Returned st)
        ∧ statuses_for "a" (Ard.log st) = ["running"; "success"]
        ∧ statuses_for "b" (Ard.log st) = ["running"; "running"; "running"]
        ∧ Ard.count st = 3 ∧ Ard.polling st = ["b"].
Proof. eexists. split_and!; vm_compute; reflexivity. Qed.

(** C5, as stated, fails for the multi-order poller without orders: no
    status is fetched, so none is terminal, and the run ends in its first
    iteration, not after [num_loops] of them. *)
Lemma ard_poll_no_orders :
  Ard.poll_for_success (always_order "running") None [] tt 50
  = Some (Returned {| Ard.count := 1; Ard.polling := []; Ard.completed := [];
                      Ard.states := []; Ard.server := tt;
                      Ard.log := [EPrint "done"] |}).
Proof. vm_compute. reflexivity. Qed.

(** C5 (amended) — both pollers always end, after at most [num_loops]
    iterations, the single-order one without an exception.  When none of the
    first [num_loops] statuses of the order is an end state, the
    single-order poller makes exactly [num_loops] iterations, each with a
    request and a sleep, and returns.  When the multi-order poller has at
    least one order and no status it fetches is terminal, it makes exactly
    [num_loops] iterations, each with a request per order and a sleep, and
    returns. *)
Theorem poll_for_success_budget {Server Server' Auth : Type}
    (get_individual_order : Server → string → string * Server)
    (response : option string)
    (requests_get : Server' → string → Auth → string * Server') :
  (∀ order_url auth srv num_loops,
     ∃ st, Orders.poll_for_success requests_get order_url auth srv num_loops
           = Some (Returned st)
           ∧ 0 ≤ Orders.count st ≤ Z.max 0 num_loops
           ∧ ((∀ j, (j < Z.to_nat num_loops)%nat →
                    is_end (observed requests_get order_url auth srv j) = false) →
              Orders.count st = Z.max 0 num_loops
              ∧ length (statuses (Orders.log st)) = Z.to_nat num_loops
              ∧ sleeps (Orders.log st) = Z.to_nat num_loops))
  ∧ (∀ order_ids srv num_loops,
       ∃ r, Ard.poll_for_success get_individual_order response order_ids srv num_loops
            = Some r
            ∧ 0 ≤ Ard.count (final r) ≤ Z.max 0 num_loops
            ∧ (order_ids ≠ [] →
               (∀ s, s ∈ statuses (Ard.log (final r)) → is_terminal s = false) →
               ∃ st, r = Returned st
                     ∧ Ard.count st = Z.max 0 num_loops
                     ∧ length (statuses (Ard.log st))
                       = (Z.to_nat num_loops * length order_ids)%nat
                     ∧ sleeps (Ard.log st) = Z.to_nat num_loops)).
Proof.
  split.
  - intros order_url auth srv num_loops.
    destruct (orders_poll_run requests_get order_url auth srv num_loops)
      as (st & Hst & Hcount & Hle & Hseq & Hcases).
    exists st. split; [done|]. split; [lia|]. intros Hnone.
    destruct Hcases as [(k & Hn & _ & Hend & _)|(_ & Hn & Hsleeps)].
    + rewrite Hnone in Hend by lia. done.
    + split_and!; lia.
  - intros order_ids srv num_loops.
    destruct (ard_poll_terminates get_individual_order response
                order_ids srv num_loops) as [r Hr].
    exists r. split; [done|].
    destruct (ard_poll_budget _ _ _ _ _ _ Hr) as [Hcount Hcases].
    split; [done|]. intros Hne Hnone.
    destruct Hcases as [(s & Hs & Hterm)|[?|(st & -> & Hc & _ & Hsl & Hlen)]].
    + rewrite (Hnone s Hs) in Hterm. done.
    + done.
    + by exists st.
Qed.

Lemma poll_for_success_budget_witness :
  ["a"; "b"] ≠ []
  ∧ ∃ st, Ard.poll_for_success (always_order "running") None ["a"; "b"] tt 3
          = Some (Returned st)
          ∧ Ard.count st = 3
          ∧ length (statuses (Ard.log st)) = 6%nat
          ∧ sleeps (Ard.log st) = 3%nat.
Proof.
  split; [done|].
  destruct (proj2 (poll_for_success_budget (always_order "running") None
                     (always "running")) ["a"; "b"] tt 3)
    as (r & Hr & _ & Hrun).
  destruct Hrun as (st & -> & Hrest).
  - done.
  - vm_compute in Hr. injection Hr as <-. vm_compute.
    intros s Hs. repeat (apply elem_of_cons in Hs as [->|Hs]; [reflexivity|]).
    by apply elem_of_nil in Hs.
  - exists st. split; [done|]. exact Hrest.
Defined.

(** ** The file system *)

Lemma only_new_dirs_refl (f : Fs.fs) : only_new_dirs f f.
Proof. by intros q. Qed.

Lemma only_new_dirs_trans (f1 f2 f3 : Fs.fs) :
  only_new_dirs f1 f2 → only_new_dirs f2 f3 → only_new_dirs f1 f3.
Proof.
  intros H12 H23 q. destruct (H12 q) as [Ha Hb], (H23 q) as [Hc Hd]. split.
  - intros n Hn. by apply Hc, Ha.
  - intros c Hc'. by apply Hb, Hd.
Qed.

Lemma stat_None_lookup (f : Fs.fs) (p : Fs.path) : Fs.stat f p = None → f !! p = None.
Proof.
  destruct p as [|c [|d p]]; simpl; [done| |done].
  by destruct (String.eqb c "/").
Qed.

Lemma stat_insert_ne (f : Fs.fs) (p q : Fs.path) (n : Fs.node) :
  p ≠ q → Fs.stat (<[q := n]> f) p = Fs.stat f p.
Proof.
  intros Hne. destruct p as [|c [|d p]]; simpl; [done| |].
  - destruct (String.eqb c "/"); [done|]. by rewrite lookup_insert_ne.
  - by rewrite lookup_insert_ne.
Qed.

Lemma stat_insert_eq (f : Fs.fs) (p : Fs.path) (n : Fs.node) :
  Fs.stat f p = None → Fs.stat (<[p := n]> f) p = Some n.
Proof.
  destruct p as [|c [|d p]]; simpl; [done| |].
  - destruct (String.eqb c "/"); [done|]. by rewrite lookup_insert_eq.
  - by rewrite lookup_insert_eq.
Qed.

(** [os.mkdir] makes the directory [p], which was not there, or raises and
    changes nothing. *)
Lemma os_mkdir_cases (p : Fs.path) (f : Fs.fs) :
  match Fs.os_mkdir p f with
  | Returned f' => Fs.stat f p = None ∧ f' = <[p := Fs.Dir]> f
  | Raised e f' => f' = f ∧ (e = FileNotFoundError → Fs.stat f p = None)
  end.
Proof.
  unfold Fs.os_mkdir. destruct (Fs.stat f p) as [n|] eqn:Hp; [done|].
  by destruct (Fs.stat f (Fs.parent p)) as [[c|]|].
Qed.

Lemma os_mkdir_only_new_dirs (p : Fs.path) (f : Fs.fs) :
  only_new_dirs f (final (Fs.os_mkdir p f)).
Proof.
  pose proof (os_mkdir_cases p f) as H.
  destruct (Fs.os_mkdir p f) as [f'|e f']; simpl.
  - destruct H as [Hp%stat_None_lookup ->]. intros q.
    destruct (decide (p = q)) as [<-|Hne].
    + rewrite lookup_insert_eq, Hp. done.
    + by rewrite lookup_insert_ne.
  - destruct H as [-> _]. apply only_new_dirs_refl.
Qed.

Lemma os_mkdir_isdir (p : Fs.path) (f f' : Fs.fs) :
  Fs.os_mkdir p f = Returned f' → Fs.isdir f' p = true.
Proof.
  intros H. pose proof (os_mkdir_cases p f) as Hc. rewrite H in Hc.
  destruct Hc as [Hp ->]. unfold Fs.isdir. by rewrite stat_insert_eq.
Qed.

Lemma mkdir_parents_only_new_dirs (p : Fs.path) (f : Fs.fs) :
  only_new_dirs f (final (Fs.mkdir_parents p f)).
Proof.
  revert f. induction p as [|c up IH]; intros f; cbn [Fs.mkdir_parents];
    match goal with
    | |- context [Fs.os_mkdir ?q f] =>
        pose proof (os_mkdir_only_new_dirs q f) as H;
        pose proof (os_mkdir_cases q f) as Hc;
        destruct (Fs.os_mkdir q f) as [f'|e f0]
    end; cbn [final] in *; try done; destruct Hc as [-> _].
  - destruct (is_FileNotFoundError e); [done|]. by destruct (Fs.isdir f []).
  - destruct (is_FileNotFoundError e); [|by destruct (Fs.isdir f (c :: up))].
    specialize (IH f).
    destruct (Fs.mkdir_parents up f) as [f1|e1 f1]; cbn [final] in *; [|done].
    apply (only_new_dirs_trans _ f1); [done|].
    pose proof (os_mkdir_only_new_dirs (c :: up) f1) as H1.
    destruct (Fs.os_mkdir (c :: up) f1) as [f2|e2 f2]; cbn [final] in *; [done|].
    by destruct (Fs.isdir f2 (c :: up)).
Qed.

Lemma mkdir_parents_isdir (p : Fs.path) (f f' : Fs.fs) :
  Fs.mkdir_parents p f = Returned f' → Fs.isdir f' p = true.
Proof.
  destruct p as [|c up]; cbn [Fs.mkdir_parents];
    match goal with
    | |- context [Fs.os_mkdir ?q f] =>
        destruct (Fs.os_mkdir q f) as [f1|e f1] eqn:Hmk
    end; try (intros [= <-]; by eapply os_mkdir_isdir).
  - destruct (is_FileNotFoundError e); [done|].
    destruct (Fs.isdir f1 []) eqn:Hd; [|done]. by intros [= <-].
  - destruct (is_FileNotFoundError e).
    + destruct (Fs.mkdir_parents up f1) as [f2|e2 f2]; [|done].
      destruct (Fs.os_mkdir (c :: up) f2) as [f3|e3 f3] eqn:Hmk2.
      * intros [= <-]. by eapply os_mkdir_isdir.
      * destruct (Fs.isdir f3 (c :: up)) eqn:Hd; [|done]. by intros [= <-].
    + destruct (Fs.isdir f1 (c :: up)) eqn:Hd; [|done]. by intros [= <-].
Qed.

Lemma write_file_cases (p : Fs.path) (c : Fs.content) (f : Fs.fs) :
  match Fs.write_file p c f with
  | Returned f' =>
      f' = <[p := Fs.File c]> f ∧ Fs.isdir f p = false
      ∧ Fs.isdir f (Fs.parent p) = true
  | Raised e f' => f' = f
  end.
Proof.
  unfold Fs.write_file, Fs.isdir.
  destruct (Fs.stat f p) as [[?|]|]; [|done|];
    by destruct (Fs.stat f (Fs.parent p)) as [[?|]|].
Qed.

Lemma for_each_app {A St} (xs ys : list A) (body : A → St → ctl St) (st : St) :
  for_each (xs ++ ys) body st
  = match for_each xs body st with
    | Next st' => for_each ys body st'
    | Break st' => Break st'
    | Raise e st' => Raise e st'
    end.
Proof.
  revert st. induction xs as [|x xs IH]; intros st; simpl; [done|].
  by destruct (body x st).
Qed.

(** ** Downloading the results of an order *)

Section DownloadFacts.
Context {Server : Type}.
Variable requests_get_content : Server → string → Fs.content * Server.

Abbreviation download_one := (Orders.download_one requests_get_content).

Lemma pairs_fmap (results : list Orders.result_entry) :
  pairs results = (λ r, (Orders.location r, Orders.name r)) <$> results.
Proof.
  unfold pairs. induction results as [|r results IH]; [done|].
  rewrite !fmap_cons. cbn [zip zip_with]. by rewrite IH.
Qed.

Lemma download_results_unfold (results : list Orders.result_entry)
    (overwrite : bool) (st : Orders.download_state Server) :
  Orders.download_results requests_get_content results overwrite st
  = finish (for_each (pairs results) (download_one overwrite) (announced results st)).
Proof.
  unfold Orders.download_results, pairs, announced, finish.
  by rewrite length_fmap.
Qed.

(** Without [overwrite] a step keeps all that is in the file system. *)
Lemma download_one_keeps (item : string * string)
    (st : Orders.download_state Server) (q : Fs.path) (n : Fs.node) :
  Orders.files st !! q = Some n →
  Orders.files (ctl_state (download_one false item st)) !! q = Some n.
Proof.
  intros Hq. destruct item as [url name]. unfold Orders.download_one.
  cbn [orb].
  destruct (Fs.exists_ (Orders.files st) (Orders.local_path name)) eqn:Hex;
    cbn [negb]; [done|].
  destruct (requests_get_content (Orders.service st) url) as [content srv].
  pose proof (mkdir_parents_only_new_dirs
                (Fs.parent (Orders.local_path name)) (Orders.files st) q) as [Hnew _].
  destruct (Fs.mkdir_parents _ (Orders.files st)) as [f1|e f1]; cbn [final] in Hnew;
    [|by apply Hnew].
  pose proof (write_file_cases (Orders.local_path name) content f1) as Hw.
  destruct (Fs.write_file _ content f1) as [f2|e f2];
    cbn [ctl_state Orders.files]; [|rewrite Hw; by apply Hnew].
  destruct Hw as (-> & _). rewrite lookup_insert_ne; [by apply Hnew|].
  intros <-. unfold Fs.exists_ in Hex.
  destruct (Fs.stat (Orders.files st) (Orders.local_path name)) eqn:Hstat; [done|].
  apply stat_None_lookup in Hstat. congruence.
Qed.

Lemma download_results_keeps (results : list Orders.result_entry)
    (st : Orders.download_state Server) (q : Fs.path) (n : Fs.node) :
  Orders.files st !! q = Some n →
  Orders.files (final (Orders.download_results requests_get_content results false st))
    !! q = Some n.
Proof.
  intros Hq. rewrite download_results_unfold.
  cut (Orders.files (ctl_state (for_each (pairs results) (download_one false)
                                  (announced results st))) !! q = Some n).
  { by destruct (for_each _ _ _). }
  apply (for_each_rule (λ _ st', Orders.files st' !! q = Some n)
           (λ c, Orders.files (ctl_state c) !! q = Some n)); [|done..].
  intros item rest st' Hst'. pose proof (download_one_keeps item st' q n Hst') as H.
  by destruct (download_one false item st').
Qed.


End DownloadFacts.


Example download_results_sample :
  ∃ st, Orders.download_results sample_content sample_results false sample_download
        = Returned st
        ∧ Orders.files st !! ["a.tif"; "PSScene"; "data"] = Some (Fs.File (Fs.Bytes "old"))
        ∧ Orders.files st !! ["manifest.json"; "order"; "data"]
          = Some (Fs.File (Fs.Bytes "bytes of https://api.planet.com/m"))
        ∧ Orders.files st !! ["order"; "data"] = Some Fs.Dir.
Proof. eexists. split_and!; vm_compute; reflexivity. Qed.

(** ** Unpacking an archive *)

Lemma os_mkdir_error (p : Fs.path) (f : Fs.fs) : library_error (Fs.os_mkdir p f).
Proof.
  intros e f'. unfold Fs.os_mkdir. destruct (Fs.stat f p); [by intros [= <- _]|].
  destruct (Fs.stat f (Fs.parent p)) as [[?|]|]; by intros [= <- _].
Qed.

Lemma write_file_error (p : Fs.path) (c : Fs.content) (f : Fs.fs) :
  library_error (Fs.write_file p c f).
Proof.
  intros e f'. unfold Fs.write_file.
  destruct (Fs.stat f p) as [[?|]|]; try (by intros [= <- _]);
    destruct (Fs.stat f (Fs.parent p)) as [[?|]|]; by intros [= <- _].
Qed.

Lemma makedirs_error (p : Fs.path) (f : Fs.fs) : library_error (Fs.makedirs p f).
Proof.
  revert f. induction p as [|c up IH]; intros f; cbn [Fs.makedirs].
  - apply os_mkdir_error.
  - destruct (bool_decide (up ≠ []) && negb (Fs.exists_ f up)).
    + specialize (IH f). destruct (Fs.makedirs up f) as [f1|e1 f1].
      * apply os_mkdir_error.
      * destruct (is_FileExistsError e1); [apply os_mkdir_error|].
        intros e f' [= <- _]. by eapply IH.
    + apply os_mkdir_error.
Qed.

Lemma makedirs_only_new_dirs (p : Fs.path) (f : Fs.fs) :
  only_new_dirs f (final (Fs.makedirs p f)).
Proof.
  revert f. induction p as [|c up IH]; intros f; cbn [Fs.makedirs].
  - apply os_mkdir_only_new_dirs.
  - destruct (bool_decide (up ≠ []) && negb (Fs.exists_ f up)).
    + specialize (IH f). destruct (Fs.makedirs up f) as [f1|e1 f1]; cbn [final] in IH.
      * apply (only_new_dirs_trans _ f1); [done|apply os_mkdir_only_new_dirs].
      * destruct (is_FileExistsError e1); [|done].
        apply (only_new_dirs_trans _ f1); [done|apply os_mkdir_only_new_dirs].
    + apply os_mkdir_only_new_dirs.
Qed.

Lemma only_new_dirs_under (target : Fs.path) (f f' : Fs.fs) :
  only_new_dirs f f' → changes_only_under target f f'.
Proof. intros H q _. apply H. Qed.

Lemma changes_only_under_trans (target : Fs.path) (f1 f2 f3 : Fs.fs) :
  changes_only_under target f1 f2 → changes_only_under target f2 f3 →
  changes_only_under target f1 f3.
Proof.
  intros H12 H23 q Hq. destruct (H12 q Hq) as [Ha Hb], (H23 q Hq) as [Hc Hd]. split.
  - intros n Hn. by apply Hc, Ha.
  - intros c Hc'. by apply Hb, Hd.
Qed.

Lemma rmtree_lookup (d q : Fs.path) (f : Fs.fs) :
  Fs.rmtree d f !! q = if decide (d `suffix_of` q) then None else f !! q.
Proof.
  unfold Fs.rmtree. rewrite map_lookup_filter.
  destruct (f !! q) as [n|]; simpl; [|by case_decide].
  case_decide as Hq.
  - rewrite option_guard_False; [done|]. simpl. by intros ?.
  - by rewrite option_guard_True.
Qed.

Lemma rmtree_under (d : Fs.path) (f : Fs.fs) :
  changes_only_under d f (Fs.rmtree d f).
Proof. intros q Hq. rewrite rmtree_lookup. by rewrite decide_False. Qed.

Lemma extract_member_error (target : Fs.path) (m : Fs.path * option string)
    (f : Fs.fs) :
  library_error (Fs.extract_member target m f).
Proof.
  unfold Fs.extract_member.
  destruct (bool_decide _ && negb _).
  - pose proof (makedirs_error (Fs.parent (m.1 ++ target)) f) as Hmk.
    destruct (Fs.makedirs _ f) as [f1|e1 f1].
    + destruct m.2; [apply write_file_error|].
      destruct (Fs.isdir f1 _); [done|apply os_mkdir_error].
    + intros e f' [= <- _]. by eapply Hmk.
  - destruct m.2; [apply write_file_error|].
    destruct (Fs.isdir f _); [done|apply os_mkdir_error].
Qed.

Lemma extract_member_under (target : Fs.path) (m : Fs.path * option string)
    (f : Fs.fs) :
  changes_only_under target f (final (Fs.extract_member target m f)).
Proof.
  unfold Fs.extract_member.
  assert (Hput : ∀ f1, changes_only_under target f1
            (final match m.2 with
                   | Some data => Fs.write_file (m.1 ++ target) (Fs.Bytes data) f1
                   | None => if Fs.isdir f1 (m.1 ++ target) then Returned f1
                             else Fs.os_mkdir (m.1 ++ target) f1
                   end)).
  { intros f1. destruct m.2 as [data|].
    - pose proof (write_file_cases (m.1 ++ target) (Fs.Bytes data) f1) as Hw.
      destruct (Fs.write_file _ _ f1) as [f2|e f2]; cbn [final].
      + destruct Hw as (-> & _). intros q Hq.
        rewrite lookup_insert_ne; [done|]. intros <-. apply Hq.
        by apply suffix_app_r.
      + rewrite Hw. by intros q _.
    - destruct (Fs.isdir f1 _); [by intros q _|].
      apply only_new_dirs_under, os_mkdir_only_new_dirs. }
  destruct (bool_decide _ && negb _); [|apply Hput].
  pose proof (makedirs_only_new_dirs (Fs.parent (m.1 ++ target)) f) as Hmk.
  destruct (Fs.makedirs _ f) as [f1|e1 f1]; cbn [final] in *.
  - eapply changes_only_under_trans; [by apply only_new_dirs_under|apply Hput].
  - by apply only_new_dirs_under.
Qed.

Lemma extractall_error (members : list (Fs.path * option string))
    (target : Fs.path) (f : Fs.fs) :
  library_error (Fs.extractall members target f).
Proof.
  revert f. induction members as [|m rest IH]; intros f; cbn [Fs.extractall].
  - by intros e f' [=].
  - pose proof (extract_member_error target m f) as Hm.
    destruct (Fs.extract_member target m f) as [f1|e1 f1]; [apply IH|].
    intros e f' [= <- _]. by eapply Hm.
Qed.

Lemma extractall_under (members : list (Fs.path * option string))
    (target : Fs.path) (f : Fs.fs) :
  changes_only_under target f (final (Fs.extractall members target f)).
Proof.
  revert f. induction members as [|m rest IH]; intros f; cbn [Fs.extractall].
  - by intros q _.
  - pose proof (extract_member_under target m f) as Hm.
    destruct (Fs.extract_member target m f) as [f1|e1 f1]; cbn [final] in *; [|done].
    eapply changes_only_under_trans; [done|apply IH].
Qed.

Lemma extract_member_keeps (target : Fs.path) (m : Fs.path * option string)
    (f : Fs.fs) (q : Fs.path) (n : Fs.node) :
  m.1 ++ target ≠ q → f !! q = Some n →
  final (Fs.extract_member target m f) !! q = Some n.
Proof.
  intros Hq Hn. unfold Fs.extract_member.
  assert (Hput : ∀ f1, f1 !! q = Some n →
            final match m.2 with
                  | Some data => Fs.write_file (m.1 ++ target) (Fs.Bytes data) f1
                  | None => if Fs.isdir f1 (m.1 ++ target) then Returned f1
                            else Fs.os_mkdir (m.1 ++ target) f1
                  end !! q = Some n).
  { intros f1 Hf1. destruct m.2 as [data|].
    - pose proof (write_file_cases (m.1 ++ target) (Fs.Bytes data) f1) as Hw.
      destruct (Fs.write_file _ _ f1) as [f2|e f2]; cbn [final].
      + destruct Hw as (-> & _). by rewrite lookup_insert_ne.
      + by rewrite Hw.
    - destruct (Fs.isdir f1 _); [done|].
      by apply (os_mkdir_only_new_dirs (m.1 ++ target) f1 q). }
  destruct (bool_decide _ && negb _); [|by apply Hput].
  pose proof (makedirs_only_new_dirs (Fs.parent (m.1 ++ target)) f q) as [Hmk _].
  destruct (Fs.makedirs _ f) as [f1|e1 f1]; cbn [final] in *; [|by apply Hmk].
  by apply Hput, Hmk.
Qed.

Lemma extract_member_file (target p : Fs.path) (data : string) (f f' : Fs.fs) :
  Fs.extract_member target (p, Some data) f = Returned f' →
  f' !! (p ++ target) = Some (Fs.File (Fs.Bytes data)).
Proof.
  unfold Fs.extract_member. cbn [fst snd].
  assert (Hput : ∀ f1, Fs.write_file (p ++ target) (Fs.Bytes data) f1 = Returned f' →
                       f' !! (p ++ target) = Some (Fs.File (Fs.Bytes data))).
  { intros f1 Hw. pose proof (write_file_cases (p ++ target) (Fs.Bytes data) f1) as Hc.
    rewrite Hw in Hc. destruct Hc as (-> & _). by rewrite lookup_insert_eq. }
  destruct (bool_decide _ && negb _); [|apply Hput].
  destruct (Fs.makedirs _ f) as [f1|e1 f1]; [apply Hput|done].
Qed.

(** After a successful extraction every file member of an archive with
    pairwise-distinct member paths is at its path below the target. *)
Lemma extractall_members (members : list (Fs.path * option string))
    (target : Fs.path) (f f' : Fs.fs) (p : Fs.path) (data : string) :
  NoDup (members.*1) →
  Fs.extractall members target f = Returned f' →
  (p, Some data) ∈ members →
  f' !! (p ++ target) = Some (Fs.File (Fs.Bytes data)).
Proof.
  revert f. induction members as [|m rest IH]; intros f Hnd Hall Hin.
  - by apply elem_of_nil in Hin.
  - cbn [Fs.extractall] in Hall. rewrite fmap_cons in Hnd.
    apply NoDup_cons in Hnd as [Hfresh Hnd].
    destruct (Fs.extract_member target m f) as [f1|e1 f1] eqn:Hm; [|done].
    apply elem_of_cons in Hin as [<-|Hin]; [|by apply (IH f1)].
    apply extract_member_file in Hm. clear IH Hnd.
    revert f1 Hm Hall. induction rest as [|m' rest IH]; intros f1 Hm Hall.
    + cbn [Fs.extractall] in Hall. by injection Hall as <-.
    + cbn [Fs.extractall] in Hall.
      pose proof (extract_member_keeps target m' f1 (p ++ target)
                    (Fs.File (Fs.Bytes data))) as Hkeep.
      destruct (Fs.extract_member target m' f1) as [f2|e2 f2]; [|done].
      cbn [final] in Hkeep. rewrite fmap_cons in Hfresh.
      apply not_elem_of_cons in Hfresh as [Hne Hfresh].
      apply (IH Hfresh f2); [|done].
      apply Hkeep; [|done]. intros Heq. apply Hne. simpl.
      by apply (inj (.++ target)) in Heq.
Qed.

Lemma unzip_unfold (filename : string) (overwrite : bool) (st : Ard.unzip_state) :
  let location := Fs.Path filename in
  let zipdir := Ard.zipdir_of location in
  Ard.unzip filename overwrite st
  = if Fs.isdir (Ard.files st) zipdir && negb overwrite
    then (inl (Exception (Fs.to_string zipdir +:+ " already exists")), st)
    else extract_from location zipdir (cleared zipdir st).
Proof.
  intros location zipdir. unfold Ard.unzip, cleared, extract_from.
  fold location. fold zipdir.
  destruct (Fs.isdir (Ard.files st) zipdir); [|done]. by destruct overwrite.
Qed.

Lemma open_zip_error (f : Fs.fs) (p : Fs.path) (e : exn) :
  Fs.open_zip f p = inl e → is_Exception e = false.
Proof.
  unfold Fs.open_zip. destruct (Fs.stat f p) as [[[?|?]|]|]; by intros [= <-].
Qed.

Lemma cleared_under (zipdir : Fs.path) (st : Ard.unzip_state) :
  changes_only_under zipdir (Ard.files st) (Ard.files (cleared zipdir st)).
Proof.
  unfold cleared. destruct (Fs.isdir _ _); [apply rmtree_under|by intros q _].
Qed.

Lemma extract_from_spec (location zipdir : Fs.path) (st1 : Ard.unzip_state) :
  let res := extract_from location zipdir st1 in
  (∀ e, res.1 = inl e →
     is_Exception e = false
     ∧ ((Fs.open_zip (Ard.files st1) location = inl e ∧ res.2 = st1)
        ∨ ∃ members, Fs.open_zip (Ard.files st1) location = inr members
                     ∧ Fs.extractall members zipdir (Ard.files st1)
                       = Raised e (Ard.files res.2)))
  ∧ (∃ rest, Ard.out res.2 = Ard.out st1 ++ rest
             ∧ (rest = [] ∨ rest = [EExtract location zipdir]))
  ∧ (∀ d, res.1 = inr d →
       d = zipdir
       ∧ ∃ members, Fs.open_zip (Ard.files st1) location = inr members
                    ∧ Fs.extractall members zipdir (Ard.files st1)
                      = Returned (Ard.files res.2)
                    ∧ Ard.out res.2 = Ard.out st1 ++ [EExtract location zipdir]
                    ∧ (NoDup (members.*1) →
                       ∀ p data, (p, Some data) ∈ members →
                         Ard.files res.2 !! (p ++ zipdir)
                         = Some (Fs.File (Fs.Bytes data))))
  ∧ changes_only_under zipdir (Ard.files st1) (Ard.files res.2).
Proof.
  unfold extract_from.
  destruct (Fs.open_zip (Ard.files st1) location) as [e|members] eqn:Hzip;
    cbn [fst snd].
  - split_and!.
    + intros e' [= <-]. split; [by eapply open_zip_error|by left].
    + exists []. split; [by rewrite app_nil_r|by left].
    + by intros d [=].
    + by intros q _.
  - pose proof (extractall_error members zipdir (Ard.files st1)) as Hext.
    pose proof (extractall_under members zipdir (Ard.files st1)) as Hunder.
    destruct (Fs.extractall members zipdir (Ard.files st1)) as [f|e f] eqn:Hall;
      cbn [final fst snd Ard.files Ard.out] in *; split_and!.
    + by intros e [=].
    + eexists. split; [done|by right].
    + intros d [= <-]. split; [done|]. exists members. split_and!; [done..|].
      intros Hnd p data Hin. by eapply extractall_members.
    + done.
    + intros e' [= <-]. split; [by eapply Hext|]. right. by exists members.
    + eexists. split; [done|by right].
    + by intros d [=].
    + done.
Qed.

Lemma split_pieces (sep : ascii) (s : string) :
  Forall (λ p, Py.contains sep p = false) (Py.split sep s).
Proof.
  induction s as [|c r IH]; simpl; [by repeat constructor|].
  destruct (Ascii.eqb c sep) eqn:Hc; [by constructor|].
  destruct (Py.split sep r) as [|p ps].
  - constructor; [|done]. simpl. by rewrite Hc.
  - apply Forall_cons in IH as [Hp Hps]. constructor; [|done].
    simpl. by rewrite Hc, Hp.
Qed.

(** For a stem that is one ordinary component, [zipdir] is the stem beside
    the archive. *)
Lemma zipdir_beside (location : Fs.path) :
  Fs.parts (Fs.stem location) = [Fs.stem location] →
  Ard.zipdir_of location = Fs.stem location :: Fs.parent location.
Proof.
  intros Hparts. unfold Ard.zipdir_of, Fs.joinpath. rewrite Hparts.
  assert (Hin : Fs.stem location ∈ Py.split "/" (Fs.stem location)).
  { assert (Hs : Fs.stem location ∈ Fs.parts (Fs.stem location))
      by (rewrite Hparts; by left).
    by apply list_elem_of_filter in Hs as [_ Hs]. }
  pose proof (proj1 (Forall_forall _ _) (split_pieces "/" (Fs.stem location)) _ Hin)
    as Hfree.
  destruct (Fs.stem location) as [|c r]; [done|]. simpl in *.
  apply orb_false_iff in Hfree as [-> _]. done.
Qed.




Example unzip_sample_overwrite :
  let res := Ard.unzip "data/use_case_1/2019-04-02_e045.zip" true sample_unzip in
  res.1 = inr ["2019-04-02_e045"; "use_case_1"; "data"]
  ∧ Ard.files res.2 !! ["composite.tif"; "files"; "2019-04-02_e045"; "use_case_1"; "data"]
    = Some (Fs.File (Fs.Bytes "tif"))
  ∧ Ard.files res.2 !! ["files"; "2019-04-02_e045"; "use_case_1"; "data"] = Some Fs.Dir
  ∧ Ard.files res.2 !! ["stale.txt"; "2019-04-02_e045"; "use_case_1"; "data"] = None
  ∧ Ard.out res.2
    = [EPrint "data/use_case_1/2019-04-02_e045 exists. overwriting.";
       ERmtree ["2019-04-02_e045"; "use_case_1"; "data"];
       EExtract ["2019-04-02_e045.zip"; "use_case_1"; "data"]
                ["2019-04-02_e045"; "use_case_1"; "data"]].
Proof. split_and!; vm_compute; reflexivity. Qed.

(** ** Groups of any items *)

Lemma get_date_item_ids_app (d : string) (xs ys : list Ard.item) :
  Ard.get_date_item_ids d (xs ++ ys)
  = Ard.get_date_item_ids d xs ++ Ard.get_date_item_ids d ys.
Proof. by rewrite !get_date_item_ids_filter, filter_app, fmap_app. Qed.

Lemma get_date_item_ids_elem (d x : string) (items : list Ard.item) :
  x ∈ Ard.get_date_item_ids d items
  ↔ ∃ i, i ∈ items ∧ Ard.item_id i = x ∧ Ard.get_acquired_date i = d.
Proof.
  rewrite get_date_item_ids_filter, list_elem_of_fmap. split.
  - intros (i & -> & [Hd Hi]%list_elem_of_filter). by exists i.
  - intros (i & Hi & <- & Hd). exists i. split; [done|].
    by apply list_elem_of_filter.
Qed.

Lemma get_date_item_ids_nil (d : string) (items : list Ard.item) :
  Ard.get_date_item_ids d items = [] ↔ d ∉ Ard.get_acquired_date <$> items.
Proof.
  rewrite list_elem_of_fmap. split.
  - intros Hnil (i & -> & Hi).
    assert (Ard.item_id i ∈ Ard.get_date_item_ids (Ard.get_acquired_date i) items)
      as Hin by (apply get_date_item_ids_elem; by exists i).
    rewrite Hnil in Hin. by apply elem_of_nil in Hin.
  - intros Hnot. destruct (Ard.get_date_item_ids d items) as [|x l] eqn:Hl; [done|].
    destruct Hnot.
    assert (x ∈ Ard.get_date_item_ids d items) as Hin by (rewrite Hl; by left).
    apply get_date_item_ids_elem in Hin as (i & Hi & _ & Hd). by exists i.
Qed.

Lemma size_list_to_set_le (l : list string) :
  (size (list_to_set l : gset string) ≤ length l)%nat.
Proof.
  induction l as [|x l IH].
  - change (size (∅ : gset string) ≤ 0)%nat. by rewrite size_empty.
  - change (size ({[x]} ∪ list_to_set l : gset string) ≤ S (length l))%nat.
    rewrite size_union_alt, size_singleton.
    assert (size (list_to_set l ∖ {[x]} : gset string) ≤ size (list_to_set l : gset string))%nat
      by (by apply subseteq_size, subseteq_difference_l).
    lia.
Qed.

Lemma size_get_ids_by_date (items : list Ard.item) :
  size (Ard.get_ids_by_date items)
  = size (list_to_set (Ard.get_acquired_date <$> items) : gset string).
Proof.
  rewrite <-length_map_to_list, map_to_list_get_ids_by_date, length_fmap.
  done.
Qed.

(** X1 — Whatever the items, also with an identifier that occurs twice: no group
    of [get_ids_by_date] is empty, the groups together hold the identifiers
    of the items, each as often as the items do, there are at most as many
    groups as items, and no group at all only for no items. *)
Theorem get_ids_by_date_covers (items : list Ard.item) :
  let groups := Ard.get_ids_by_date items in
  (∀ d ids, groups !! d = Some ids → ids ≠ [])
  ∧ all_group_ids groups ≡ₚ Ard.item_id <$> items
  ∧ (size groups ≤ length items)%nat
  ∧ (groups = ∅ ↔ items = []).
Proof.
  intros groups. split_and!.
  - intros d ids [Hd ->]%get_ids_by_date_lookup Hnil.
    by apply get_date_item_ids_nil in Hnil.
  - unfold all_group_ids, groups. rewrite map_to_list_get_ids_by_date.
    rewrite <-list_fmap_compose. apply concat_groups; [apply NoDup_elements|].
    intros i Hi. apply elem_of_elements, elem_of_list_to_set, list_elem_of_fmap.
    by exists i.
  - unfold groups. rewrite size_get_ids_by_date.
    etrans; [apply size_list_to_set_le|]. by rewrite length_fmap.
  - split.
    + intros Hempty. destruct items as [|i items]; [done|].
      assert (is_Some (groups !! Ard.get_acquired_date i)) as [ids Hids].
      { eexists. apply get_ids_by_date_lookup. split; [|done]. by left. }
      rewrite Hempty, lookup_empty in Hids. done.
    + intros ->. apply map_eq. intros d. rewrite lookup_empty.
      apply eq_None_not_Some. intros [ids [Hd _]%get_ids_by_date_lookup].
      by apply elem_of_nil in Hd.
Qed.

(** X2 — Grouping goes along with concatenation: the groups of [xs ++ ys] are the
    groups of [xs] and of [ys] merged, a date of both with the identifiers
    of [xs] before those of [ys].  So the pages of a search can be grouped
    one by one. *)
Theorem get_ids_by_date_app (xs ys : list Ard.item) :
  Ard.get_ids_by_date (xs ++ ys)
  = merge_groups (Ard.get_ids_by_date xs) (Ard.get_ids_by_date ys).
Proof.
  apply map_eq. intros d. unfold merge_groups. rewrite lookup_union_with.
  destruct (decide (d ∈ Ard.get_acquired_date <$> xs)) as [Hx|Hx];
    destruct (decide (d ∈ Ard.get_acquired_date <$> ys)) as [Hy|Hy].
  - rewrite (proj2 (get_ids_by_date_lookup xs d _) (conj Hx eq_refl)).
    rewrite (proj2 (get_ids_by_date_lookup ys d _) (conj Hy eq_refl)).
    simpl. apply get_ids_by_date_lookup. rewrite fmap_app, elem_of_app.
    split; [by left|by rewrite get_date_item_ids_app].
  - rewrite (proj2 (get_ids_by_date_lookup xs d _) (conj Hx eq_refl)).
    assert (Ard.get_ids_by_date ys !! d = None) as ->.
    { apply eq_None_not_Some. by intros [ids [? _]%get_ids_by_date_lookup]. }
    simpl. apply get_ids_by_date_lookup. rewrite fmap_app, elem_of_app.
    split; [by left|]. rewrite get_date_item_ids_app.
    rewrite (proj2 (get_date_item_ids_nil d ys) Hy). by rewrite app_nil_r.
  - rewrite (proj2 (get_ids_by_date_lookup ys d _) (conj Hy eq_refl)).
    assert (Ard.get_ids_by_date xs !! d = None) as ->.
    { apply eq_None_not_Some. by intros [ids [? _]%get_ids_by_date_lookup]. }
    simpl. apply get_ids_by_date_lookup. rewrite fmap_app, elem_of_app.
    split; [by right|]. rewrite get_date_item_ids_app.
    by rewrite (proj2 (get_date_item_ids_nil d xs) Hx).
  - assert (Ard.get_ids_by_date xs !! d = None) as ->.
    { apply eq_None_not_Some. by intros [ids [? _]%get_ids_by_date_lookup]. }
    assert (Ard.get_ids_by_date ys !! d = None) as ->.
    { apply eq_None_not_Some. by intros [ids [? _]%get_ids_by_date_lookup]. }
    simpl. apply eq_None_not_Some. intros [ids [Hd _]%get_ids_by_date_lookup].
    rewrite fmap_app, elem_of_app in Hd. by destruct Hd.
Qed.

(** X3 — The order of the items matters only within a group: items in another
    order give the same dates, and for every date the same identifiers up to
    their order. *)
Theorem get_ids_by_date_perm (items items' : list Ard.item) :
  items ≡ₚ items' →
  dom (Ard.get_ids_by_date items) = dom (Ard.get_ids_by_date items')
  ∧ ∀ d ids, Ard.get_ids_by_date items !! d = Some ids →
      ∃ ids', Ard.get_ids_by_date items' !! d = Some ids' ∧ ids ≡ₚ ids'.
Proof.
  intros Hperm.
  assert (∀ d ids, Ard.get_ids_by_date items !! d = Some ids →
            ∃ ids', Ard.get_ids_by_date items' !! d = Some ids' ∧ ids ≡ₚ ids') as Hto.
  { intros d ids [Hd ->]%get_ids_by_date_lookup. eexists. split.
    - apply get_ids_by_date_lookup. split; [|done]. by rewrite <-Hperm.
    - rewrite !get_date_item_ids_filter. by rewrite Hperm. }
  split; [|done]. apply set_eq. intros d. rewrite !elem_of_dom. unfold is_Some.
  setoid_rewrite get_ids_by_date_lookup. split.
  - intros (ids & Hd & _). eexists. split; [|done]. by rewrite <-Hperm.
  - intros (ids & Hd & _). eexists. split; [|done]. by rewrite Hperm.
Qed.

Lemma get_ids_by_date_perm_witness :
  sample_items ≡ₚ reverse sample_items
  ∧ dom (Ard.get_ids_by_date sample_items)
    = dom (Ard.get_ids_by_date (reverse sample_items)).
Proof.
  assert (H : sample_items ≡ₚ reverse sample_items)
    by (symmetry; apply reverse_Permutation).
  split; [exact H|].
  exact (proj1 (get_ids_by_date_perm sample_items (reverse sample_items) H)).
Defined.

(** ** From items to order requests *)

(** X4 — The order requests for the groups of a list of items: every request
    has one product, of the item type [PSScene] and the bundle
    [analytic_sr_udm2], with at least one identifier, and all of its
    identifiers belong to items acquired on the date that names the
    request; all requests together ask for the identifiers of the items,
    each as often as the items have it; and there are at most as many
    requests as items. *)
Theorem get_orders_requests_of_items {Geometry : Type}
    (items : list Ard.item) (aoi_geom : Geometry) :
  let requests := Ard.get_orders_requests (Ard.get_ids_by_date items) aoi_geom in
  (∀ r, r ∈ requests →
     ∃ ids, Ard.products r
            = [ {| Ard.item_ids := ids; Ard.item_type := "PSScene";
                   Ard.product_bundle := "analytic_sr_udm2" |} ]
            ∧ ids ≠ []
            ∧ ∀ x, x ∈ ids →
                ∃ i, i ∈ items ∧ Ard.item_id i = x
                     ∧ date_substring_of (Ard.acquired (Ard.item_properties i))
                                         (Ard.name r))
  ∧ ordered_ids requests ≡ₚ Ard.item_id <$> items
  ∧ (length requests ≤ length items)%nat.
Proof.
  intros requests. unfold requests, Ard.get_orders_requests. split_and!.
  - intros r ([d ids] & -> & Hd%elem_of_map_to_list)%list_elem_of_fmap.
    apply get_ids_by_date_lookup in Hd as [Hd ->]. eexists. split; [done|]. split.
    + intros Hnil. by apply get_date_item_ids_nil in Hnil.
    + intros x (i & Hi & Hx & <-)%get_date_item_ids_elem. exists i.
      split_and!; [done..|]. apply get_acquired_date_substring.
  - unfold ordered_ids. rewrite <-list_fmap_compose.
    rewrite (list_fmap_ext _ snd (map_to_list (Ard.get_ids_by_date items)))
      by (intros _ [d ids] _; simpl; by rewrite app_nil_r).
    rewrite map_to_list_get_ids_by_date.
    rewrite <-list_fmap_compose. apply concat_groups; [apply NoDup_elements|].
    intros i Hi. apply elem_of_elements, elem_of_list_to_set, list_elem_of_fmap.
    by exists i.
  - rewrite length_fmap, length_map_to_list, size_get_ids_by_date.
    etrans; [apply size_list_to_set_le|]. by rewrite length_fmap.
Qed.

(** ** More on the search and the tile urls *)

Lemma length_append (s t : string) :
  String.length (s +:+ t) = (String.length s + String.length t)%nat.
Proof. induction s as [|c s IH]; [done|]. rewrite append_cons. simpl. by rewrite IH. Qed.

Lemma append_inj_r (s t u : string) : s +:+ u = t +:+ u → s = t.
Proof.
  revert t. induction s as [|c s IH]; intros [|d t] H.
  - done.
  - apply (f_equal String.length) in H.
    rewrite append_nil_l, length_append in H. simpl in H. lia.
  - apply (f_equal String.length) in H.
    rewrite append_nil_l, length_append in H. simpl in H. lia.
  - rewrite !append_cons in H. injection H as Hcd H. subst d.
    by rewrite (IH t H).
Qed.

Lemma tile_url_inj (api_key item_type : string) (x y zoom : Z) :
  Inj (=) (=) (λ i, tile_url api_key item_type i x y zoom).
Proof.
  intros i j H. unfold tile_url in H.
  do 3 apply String.app_inj in H. by apply append_inj_r in H.
Qed.

Section SearchFacts.
Context {Float : Type}.
Variable session_post : string → Webtiles.filter_request (Float:=Float) → Webtiles.page.
Variable utcnow_isoformat : string.
Variable mercantile_tile : Float → Float → Z → Webtiles.tile.
Variable PLANET_API_KEY : string.

Abbreviation get_item_ids := (Webtiles.get_item_ids session_post utcnow_isoformat).

(** The identifiers that the search has to give, of which a limit takes
    the first ones: the request does not depend on the limit. *)
Lemma get_item_ids_take (geom : Webtiles.geometry) (item_type : string)
    (start_date end_date : option string) :
  ∃ request,
    Webtiles.item_types request = [item_type]
    ∧ ∀ limit,
        (0 ≤ limit →
         get_item_ids geom item_type start_date end_date limit
         = take (Z.to_nat limit)
             (linked_ids (session_post (Webtiles.API_URL +:+ "/quick-search") request)))
        ∧ (limit < 0 →
           get_item_ids geom item_type start_date end_date limit
           = Webtiles.slice_to
               (Webtiles.id_ <$> Webtiles.features
                  (session_post (Webtiles.API_URL +:+ "/quick-search") request))
               limit).
Proof.
  eexists. split; [|intros limit; split; intros Hlimit]; cycle 1.
  - unfold Webtiles.get_item_ids. rewrite slice_to_take by done.
    apply (follow_links_take _ []).
  - unfold Webtiles.get_item_ids. f_equal.
    match goal with
    | |- Webtiles.follow_links ?ids ?p limit = _ =>
        assert ((Z.of_nat (length ids) <? limit) = false) as Hlt
          by (apply Z.ltb_ge; lia);
        destruct p; cbn [Webtiles.follow_links]; [done|]; by rewrite Hlt
    end.
  - done.
Qed.

(** X17 — For a negative [limit], [get_item_ids] follows no [next] link and
    returns the identifiers of the first page without the last [- limit] of
    them: the slice [ids[:limit]] of Python counts a negative bound from
    the end. *)
Theorem get_item_ids_negative_limit (geom : Webtiles.geometry)
    (item_type : string) (start_date end_date : option string) (limit : Z) :
  limit < 0 →
  ∃ request,
    Webtiles.item_types request = [item_type]
    ∧ let first_page :=
        Webtiles.id_ <$> Webtiles.features
          (session_post (Webtiles.API_URL +:+ "/quick-search") request) in
      get_item_ids geom item_type start_date end_date limit
      = take (length first_page - Z.to_nat (- limit)) first_page.
Proof.
  intros Hlimit.
  destruct (get_item_ids_take geom item_type start_date end_date)
    as (request & Htypes & Hids).
  exists request. split; [done|]. intros first_page.
  rewrite (proj2 (Hids limit) Hlimit). unfold Webtiles.slice_to.
  by destruct (Z.leb_spec 0 limit); [lia|].
Qed.

(** X18 — A larger limit only adds identifiers at the end: the result for the
    limit [limit1] is a prefix of the result for a limit [limit2] that is
    not less. *)
Theorem get_item_ids_limit_mono (geom : Webtiles.geometry)
    (item_type : string) (start_date end_date : option string)
    (limit1 limit2 : Z) :
  0 ≤ limit1 ≤ limit2 →
  get_item_ids geom item_type start_date end_date limit1
  `prefix_of` get_item_ids geom item_type start_date end_date limit2.
Proof.
  intros Hlimit.
  destruct (get_item_ids_take geom item_type start_date end_date)
    as (request & _ & Hids).
  rewrite (proj1 (Hids limit1)), (proj1 (Hids limit2)) by lia.
  replace (Z.to_nat limit1) with (Z.to_nat limit1 `min` Z.to_nat limit2)%nat by lia.
  rewrite <-take_take. apply prefix_take.
Qed.


End SearchFacts.

Lemma get_item_ids_negative_limit_witness :
  -1 < 0
  ∧ Webtiles.get_item_ids (Float:=Z) (λ _ _, sample_pages) "2019-10-01T00:00:00"
      (Webtiles.coords_to_geometry 37 (-122)) "PSScene" None None (-1)
    = ["20190918_183654_1035"].
Proof.
  assert (H : -1 < 0) by lia. split; [exact H|].
  destruct (get_item_ids_negative_limit (Float:=Z) (λ _ _, sample_pages)
              "2019-10-01T00:00:00" (Webtiles.coords_to_geometry 37 (-122))
              "PSScene" None None (-1) H) as (request & _ & Hids).
  exact Hids.
Defined.

Lemma get_item_ids_limit_mono_witness :
  0 ≤ 1 ≤ 5
  ∧ Webtiles.get_item_ids (Float:=Z) (λ _ _, sample_pages) "2019-10-01T00:00:00"
      (Webtiles.coords_to_geometry 37 (-122)) "PSScene" None None 1
    `prefix_of`
    Webtiles.get_item_ids (Float:=Z) (λ _ _, sample_pages) "2019-10-01T00:00:00"
      (Webtiles.coords_to_geometry 37 (-122)) "PSScene" None None 5.
Proof.
  assert (H : 0 ≤ 1 ≤ 5) by lia. split; [exact H|].
  exact (get_item_ids_limit_mono (Float:=Z) (λ _ _, sample_pages)
           "2019-10-01T00:00:00" (Webtiles.coords_to_geometry 37 (-122))
           "PSScene" None None 1 5 H).
Defined.

(** ** The requests of a search *)

Lemma follow_links_counted_ids (p : Webtiles.page) (ids : list string) (limit : Z) :
  (follow_links_counted ids p limit).1 = Webtiles.follow_links ids p limit.
Proof.
  revert ids. induction p as [fs|fs link p' IH]; intros ids;
    cbn [follow_links_counted Webtiles.follow_links]; [done|].
  destruct (_ && _); [|done].
  specialize (IH (ids ++ (Webtiles.id_ <$> Webtiles.features p'))).
  by destruct (follow_links_counted _ p' limit).
Qed.

Lemma follow_links_counted_bound (p : Webtiles.page) (ids : list string)
    (limit : Z) :
  later_pages_nonempty p →
  Z.of_nat (follow_links_counted ids p limit).2
  ≤ Z.max 0 (limit - Z.of_nat (length ids)).
Proof.
  revert ids. induction p as [fs|fs link p' IH]; intros ids Hpages;
    cbn [follow_links_counted]; [simpl; lia|].
  destruct Hpages as [Hne Hpages].
  destruct (Z.ltb_spec (Z.of_nat (length ids)) limit) as [Hlt|Hge];
    cbn [andb]; [|simpl; lia].
  destruct (negb (String.eqb link "")); [|simpl; lia].
  specialize (IH (ids ++ (Webtiles.id_ <$> Webtiles.features p')) Hpages).
  rewrite length_app, length_fmap in IH.
  assert (0 < length (Webtiles.features p'))%nat
    by (destruct (Webtiles.features p'); [done|simpl; lia]).
  destruct (follow_links_counted _ p' limit) as [ids' n]. cbn [snd] in *. lia.
Qed.

(** X21 — the loop of [get_item_ids] follows a [next] link only while it
    has fewer than [limit] identifiers: it makes no further request when
    the first page has [limit] identifiers or more, or no [next] link; and
    when every later page has a feature, it makes at most as many further
    requests as identifiers are missing after the first page. *)
Theorem get_item_ids_requests (first : Webtiles.page) (limit : Z) :
  let ids := Webtiles.id_ <$> Webtiles.features first in
  let run := follow_links_counted ids first limit in
  run.1 = Webtiles.follow_links ids first limit
  ∧ (limit ≤ Z.of_nat (length ids) → run.2 = 0%nat)
  ∧ (∀ fs, first = Webtiles.LastPage fs → run.2 = 0%nat)
  ∧ (later_pages_nonempty first →
     Z.of_nat run.2 ≤ Z.max 0 (limit - Z.of_nat (length ids))).
Proof.
  intros ids run. unfold run. split_and!.
  - apply follow_links_counted_ids.
  - intros Hlimit. destruct first as [fs|fs link p']; [done|].
    cbn [follow_links_counted].
    by destruct (Z.ltb_spec (Z.of_nat (length ids)) limit); [lia|].
  - by intros fs ->.
  - intros Hpages. by apply follow_links_counted_bound.
Qed.

(** ** More on the file system *)

Lemma exists_lookup (f : Fs.fs) (q : Fs.path) :
  Fs.exists_ f q = true ↔ q = [] ∨ q = ["/"] ∨ is_Some (f !! q).
Proof.
  unfold Fs.exists_, Fs.stat. destruct q as [|c [|d q]].
  - split; [by left|done].
  - destruct (String.eqb_spec c "/") as [->|Hc]; [split; [by right; left|done]|].
    destruct (f !! [c]) as [n|]; split; try done; [by eauto|].
    intros [?|[[= ?]|[? ?]]]; done.
  - destruct (f !! (c :: d :: q)) as [n|]; split; try done; [by eauto|].
    intros [?|[?|[? ?]]]; done.
Qed.

Lemma exists_mono (f f' : Fs.fs) (q : Fs.path) :
  (is_Some (f !! q) → is_Some (f' !! q)) →
  Fs.exists_ f q = true → Fs.exists_ f' q = true.
Proof.
  rewrite !exists_lookup. intros Hf [?|[?|?]]; [by left|by right; left|].
  right; right. by apply Hf.
Qed.

Lemma isdir_lookup (f : Fs.fs) (q : Fs.path) :
  Fs.isdir f q = true ↔ q = [] ∨ q = ["/"] ∨ f !! q = Some Fs.Dir.
Proof.
  unfold Fs.isdir, Fs.stat. destruct q as [|c [|d q]].
  - split; [by left|done].
  - destruct (String.eqb_spec c "/") as [->|Hc]; [split; [by right; left|done]|].
    destruct (f !! [c]) as [[?|]|]; split; try done; try (by eauto);
      intros [?|[[= ?]|?]]; done.
  - destruct (f !! (c :: d :: q)) as [[?|]|]; split; try done; try (by eauto);
      intros [?|[?|?]]; done.
Qed.

(** [os.mkdir] changes the file system at the path that it makes, which is
    not the current directory, and nowhere else. *)
Lemma os_mkdir_lookup (p q : Fs.path) (f : Fs.fs) :
  q ≠ p ∨ q = [] → final (Fs.os_mkdir p f) !! q = f !! q.
Proof.
  intros Hq. pose proof (os_mkdir_cases p f) as H.
  destruct (Fs.os_mkdir p f) as [f'|e f']; cbn [final].
  - destruct H as [Hp ->]. apply lookup_insert_ne.
    destruct Hq as [?| ->]; [done|]. by destruct p.
  - by destruct H as [-> _].
Qed.

(** [mkdir(parents=True, exist_ok=True)] changes the file system at [p] and
    above it, and nowhere else. *)
Lemma mkdir_parents_lookup (p q : Fs.path) (f : Fs.fs) :
  q = [] ∨ ¬ q `suffix_of` p → final (Fs.mkdir_parents p f) !! q = f !! q.
Proof.
  revert f. induction p as [|c up IH]; intros f Hq; cbn [Fs.mkdir_parents].
  - pose proof (os_mkdir_lookup [] q f) as H.
    destruct (Fs.os_mkdir [] f) as [f'|e f0]; cbn [final] in *.
    + apply H. destruct Hq as [?|Hq]; [by right|left]. by intros ->.
    + assert (f0 !! q = f !! q) as Hf0.
      { apply H. destruct Hq as [?|Hq]; [by right|left]. by intros ->. }
      destruct (is_FileNotFoundError e); [done|]. by destruct (Fs.isdir f0 []).
  - assert (q ≠ c :: up ∨ q = []) as Hq1.
    { destruct Hq as [?|Hq]; [by right|left]. by intros ->. }
    assert (q = [] ∨ ¬ q `suffix_of` up) as Hq2.
    { destruct Hq as [?|Hq]; [by left|right]. intros Hs. apply Hq.
      by apply suffix_cons_r. }
    pose proof (os_mkdir_lookup (c :: up) q f Hq1) as H.
    destruct (Fs.os_mkdir (c :: up) f) as [f'|e f0]; cbn [final] in *; [done|].
    destruct (is_FileNotFoundError e); [|by destruct (Fs.isdir f0 (c :: up))].
    specialize (IH f0 Hq2).
    destruct (Fs.mkdir_parents up f0) as [f1|e1 f1]; cbn [final] in *;
      [|congruence].
    pose proof (os_mkdir_lookup (c :: up) q f1 Hq1) as H1.
    destruct (Fs.os_mkdir (c :: up) f1) as [f2|e2 f2]; cbn [final] in *;
      [congruence|].
    destruct (Fs.isdir f2 (c :: up)); cbn [final]; congruence.
Qed.

Lemma write_file_lookup (p q : Fs.path) (c : Fs.content) (f : Fs.fs) :
  q ≠ p → final (Fs.write_file p c f) !! q = f !! q.
Proof.
  intros Hq. pose proof (write_file_cases p c f) as H.
  destruct (Fs.write_file p c f) as [f'|e f']; cbn [final].
  - destruct H as (-> & _). by apply lookup_insert_ne.
  - by rewrite H.
Qed.

Lemma write_file_stays (p q : Fs.path) (c : Fs.content) (f : Fs.fs) :
  (is_Some (f !! q) → is_Some (final (Fs.write_file p c f) !! q))
  ∧ (f !! q = Some Fs.Dir → final (Fs.write_file p c f) !! q = Some Fs.Dir).
Proof.
  pose proof (write_file_cases p c f) as H.
  destruct (Fs.write_file p c f) as [f'|e f']; cbn [final]; [|by rewrite H].
  destruct H as (-> & Hfile & _). destruct (decide (q = p)) as [->|Hq].
  - rewrite lookup_insert_eq. split; [by eauto|]. intros Hdir.
    assert (Fs.isdir f p = true) by (apply isdir_lookup; by right; right).
    congruence.
  - by rewrite lookup_insert_ne.
Qed.

(** ** Runs of [download_results] *)

(** What every step of a loop does to the state, the loop does. *)
Lemma for_each_steps {A St} (R : St → St → Prop) (xs : list A)
    (body : A → St → ctl St) :
  (∀ st, R st st) → (∀ a b c, R a b → R b c → R a c) →
  (∀ x st, x ∈ xs → R st (ctl_state (body x st))) →
  ∀ st, R st (ctl_state (for_each xs body st)).
Proof.
  intros Hrefl Htrans. induction xs as [|x xs IH]; intros Hbody st; simpl.
  - apply Hrefl.
  - pose proof (Hbody x st ltac:(by left)) as Hx.
    destruct (body x st) as [st'|st'|e st']; [|done..].
    apply (Htrans _ st'); [done|]. apply IH. intros y st1 Hy. apply Hbody. by right.
Qed.

Lemma for_each_no_break {A St} (xs : list A) (body : A → St → ctl St) (st st' : St) :
  (∀ x st1 st2, body x st1 ≠ Break st2) → for_each xs body st ≠ Break st'.
Proof.
  intros Hbody. revert st. induction xs as [|x xs IH]; intros st; simpl; [done|].
  destruct (body x st) as [st1|st1|e st1] eqn:Hx; [apply IH| |done].
  by destruct (Hbody x st st1).
Qed.

Lemma downloads_app (l1 l2 : list event) :
  downloads (l1 ++ l2) = downloads l1 ++ downloads l2.
Proof. apply omap_app. Qed.

Lemma suffix_snoc_nonempty {A} (d : A) (l q : list A) :
  q `suffix_of` l ++ [d] → q ≠ [] → [d] `suffix_of` q.
Proof.
  intros [k Hk] Hq. destruct (decide (q = [])) as [|_]; [done|].
  destruct q as [|x q _] using rev_ind; [done|].
  rewrite (assoc (++)) in Hk. apply app_inj_tail in Hk as [_ ->]. by exists q.
Qed.

(** The local path of a result with a relative name is below [data]; an
    absolute name is its own local path. *)
Lemma local_path_relative (name : string) :
  Fs.starts_with_slash name = false →
  Orders.local_path name = rev (Fs.parts name) ++ ["data"].
Proof.
  intros Hrel. unfold Orders.local_path, Fs.os_path_join. rewrite Hrel.
  change (if String.eqb "data" "" || Fs.ends_with_slash "data"
          then "data" +:+ name else "data" +:+ "/" +:+ name)
    with (String "d" (String "a" (String "t" (String "a" (String "/" name))))).
  unfold Fs.Path, Fs.parts. cbn [Fs.starts_with_slash].
  change (Ascii.eqb "d" "/") with false. rewrite app_nil_r.
  cbn [Py.split]. change (Ascii.eqb "/" "/") with true.
  change (Ascii.eqb "a" "/") with false. change (Ascii.eqb "t" "/") with false.
  change (Ascii.eqb "d" "/") with false. cbn iota.
  rewrite filter_cons_True by done. by rewrite reverse_cons || done.
Qed.

Lemma local_path_absolute (name : string) :
  Fs.starts_with_slash name = true → Orders.local_path name = Fs.Path name.
Proof.
  intros Habs. unfold Orders.local_path, Fs.os_path_join. by rewrite Habs.
Qed.

Section DownloadRuns.
Context {Server : Type}.
Variable requests_get_content : Server → string → Fs.content * Server.

Abbreviation download_step := (Orders.download_one requests_get_content).

Lemma download_one_no_break (overwrite : bool) (item : string * string)
    (st st' : Orders.download_state Server) :
  download_step overwrite item st ≠ Break st'.
Proof.
  destruct item as [url name]. unfold Orders.download_one.
  destruct (overwrite || negb _); [|done].
  destruct (requests_get_content _ _) as [content srv].
  destruct (Fs.mkdir_parents _ _); [|done]. by destruct (Fs.write_file _ _ _).
Qed.

(** The file system after a step: that of the initial one after the making
    of the directories and the writing, when the step downloads. *)
Lemma download_one_files (overwrite : bool) (url name : string)
    (st : Orders.download_state Server) :
  let path := Orders.local_path name in
  let f1 := final (Fs.mkdir_parents (Fs.parent path) (Orders.files st)) in
  Orders.files (ctl_state (download_step overwrite (url, name) st))
  = (if overwrite || negb (Fs.exists_ (Orders.files st) path) then
       match Fs.mkdir_parents (Fs.parent path) (Orders.files st) with
       | Returned _ =>
           final (Fs.write_file path
                    (requests_get_content (Orders.service st) url).1 f1)
       | Raised _ _ => f1
       end
     else Orders.files st).
Proof.
  intros path f1. unfold Orders.download_one. fold path.
  destruct (overwrite || negb _); [|done].
  destruct (requests_get_content _ _) as [content srv]. unfold f1.
  destruct (Fs.mkdir_parents _ _) as [f|e f]; [|done].
  cbn [final fst]. by destruct (Fs.write_file _ _ _).
Qed.

Lemma download_one_lookup (overwrite : bool) (url name : string)
    (st : Orders.download_state Server) (q : Fs.path) :
  let path := Orders.local_path name in
  q ≠ path → q = [] ∨ ¬ q `suffix_of` Fs.parent path →
  Orders.files (ctl_state (download_step overwrite (url, name) st)) !! q
  = Orders.files st !! q.
Proof.
  intros path Hq Hup. rewrite download_one_files. fold path.
  destruct (overwrite || negb _); [|done].
  pose proof (mkdir_parents_lookup (Fs.parent path) q (Orders.files st) Hup) as H.
  destruct (Fs.mkdir_parents _ _) as [f|e f]; cbn [final] in *; [|done].
  by rewrite write_file_lookup.
Qed.

Lemma download_one_other (overwrite : bool) (url name : string)
    (st : Orders.download_state Server) (q : Fs.path) (n : Fs.node) :
  q ≠ Orders.local_path name → Orders.files st !! q = Some n →
  Orders.files (ctl_state (download_step overwrite (url, name) st)) !! q = Some n.
Proof.
  intros Hq Hn. rewrite download_one_files.
  destruct (overwrite || negb _); [|done].
  pose proof (mkdir_parents_only_new_dirs
                (Fs.parent (Orders.local_path name)) (Orders.files st) q) as [H _].
  destruct (Fs.mkdir_parents _ _) as [f|e f]; cbn [final] in *; [|by apply H].
  rewrite write_file_lookup by done. by apply H.
Qed.

Lemma stat_lookup_Dir (f : Fs.fs) (q : Fs.path) :
  f !! q = Some Fs.Dir → Fs.stat f q = Some Fs.Dir.
Proof.
  intros Hq. destruct q as [|c [|d q]]; simpl; [done| |done].
  by destruct (String.eqb c "/").
Qed.

(** A step removes nothing, and a directory stays a directory. *)
Lemma download_one_stays (overwrite : bool) (url name : string)
    (st : Orders.download_state Server) (q : Fs.path) :
  let st' := ctl_state (download_step overwrite (url, name) st) in
  (is_Some (Orders.files st !! q) → is_Some (Orders.files st' !! q))
  ∧ (Orders.files st !! q = Some Fs.Dir → Orders.files st' !! q = Some Fs.Dir).
Proof.
  intros st'. unfold st'. rewrite download_one_files.
  destruct (overwrite || negb _); [|done].
  pose proof (mkdir_parents_only_new_dirs
                (Fs.parent (Orders.local_path name)) (Orders.files st) q) as [H _].
  destruct (Fs.mkdir_parents _ _) as [f|e f]; cbn [final] in *.
  - match goal with
    | |- context [Fs.write_file ?p ?c f] =>
        destruct (write_file_stays p q c f) as [Hs Hd]
    end.
    split.
    + intros [n Hn]. apply Hs. exists n. by apply H.
    + intros Hn. by apply Hd, H.
  - split; [intros [n Hn]; exists n|intros Hn]; by apply H.
Qed.

(** A step that falls through leaves something at the local path. *)
Lemma download_one_exists (overwrite : bool) (url name : string)
    (st st' : Orders.download_state Server) :
  download_step overwrite (url, name) st = Next st' →
  Fs.exists_ (Orders.files st') (Orders.local_path name) = true.
Proof.
  unfold Orders.download_one.
  destruct (Fs.exists_ (Orders.files st) (Orders.local_path name)) eqn:Hex.
  - destruct overwrite; cbn [orb negb]; [|by intros [= <-]].
    destruct (requests_get_content _ _) as [content srv].
    destruct (Fs.mkdir_parents _ _) as [f|e f]; [|done].
    pose proof (write_file_cases (Orders.local_path name) content f) as Hw.
    destruct (Fs.write_file _ _ _) as [f'|e f']; [|done].
    intros [= <-]. cbn [Orders.files]. destruct Hw as (-> & _).
    apply exists_lookup. right; right. rewrite lookup_insert_eq. by eauto.
  - rewrite orb_true_r.
    destruct (requests_get_content _ _) as [content srv].
    destruct (Fs.mkdir_parents _ _) as [f|e f]; [|done].
    pose proof (write_file_cases (Orders.local_path name) content f) as Hw.
    destruct (Fs.write_file _ _ _) as [f'|e f']; [|done].
    intros [= <-]. cbn [Orders.files]. destruct Hw as (-> & _).
    apply exists_lookup. right; right. rewrite lookup_insert_eq. by eauto.
Qed.

(** What a step downloads: the url, unless it skips. *)
Lemma download_one_downloads (overwrite : bool) (url name : string)
    (st : Orders.download_state Server) :
  downloads (Orders.out (ctl_state (download_step overwrite (url, name) st)))
  = downloads (Orders.out st)
    ++ (if overwrite || negb (Fs.exists_ (Orders.files st) (Orders.local_path name))
        then [url] else []).
Proof.
  unfold Orders.download_one.
  destruct (overwrite || negb _).
  - destruct (requests_get_content _ _) as [content srv].
    destruct (Fs.mkdir_parents _ _) as [f|e f]; cbn [ctl_state Orders.out].
    + destruct (Fs.write_file _ _ _) as [f'|e f']; cbn [ctl_state Orders.out];
        rewrite !downloads_app; cbn [downloads omap];
        by rewrite !app_nil_r, <-?(assoc (++)).
    + rewrite !downloads_app. cbn [downloads omap].
      by rewrite !app_nil_r, <-?(assoc (++)).
  - cbn [ctl_state Orders.out]. rewrite downloads_app. by cbn [downloads omap].
Qed.

Lemma download_one_skip (item : string * string)
    (st : Orders.download_state Server) :
  Fs.exists_ (Orders.files st) (Orders.local_path item.2) = true →
  download_step false item st
  = Next {| Orders.files := Orders.files st; Orders.service := Orders.service st;
            Orders.out := Orders.out st
                          ++ [EPrint (Fs.to_string (Orders.local_path item.2)
                                      +:+ " already exists, skipping " +:+ item.2)] |}.
Proof.
  destruct item as [url name]. intros Hex. unfold Orders.download_one.
  cbn [snd] in Hex. by rewrite Hex.
Qed.

Lemma for_each_download_exist (overwrite : bool) (items : list (string * string))
    (st st1 : Orders.download_state Server) :
  for_each items (download_step overwrite) st = Next st1 →
  ∀ item, item ∈ items →
    Fs.exists_ (Orders.files st1) (Orders.local_path item.2) = true.
Proof.
  revert st. induction items as [|[url name] items IH]; intros st Hrun item Hitem.
  - by apply elem_of_nil in Hitem.
  - cbn [for_each] in Hrun.
    destruct (download_step overwrite (url, name) st) as [st'|st'|e st'] eqn:Hstep;
      [|done..].
    apply elem_of_cons in Hitem as [->|Hitem]; [|by eapply IH].
    apply download_one_exists in Hstep. cbn [snd].
    pose proof (for_each_steps
                  (λ a b : Orders.download_state Server,
                     Fs.exists_ (Orders.files a) (Orders.local_path name) = true →
                     Fs.exists_ (Orders.files b) (Orders.local_path name) = true)
                  items (download_step overwrite)) as Hkeep.
    specialize (Hkeep (λ _ H, H) (λ _ _ _ H1 H2 H, H2 (H1 H))).
    assert (∀ (x : string * string) (st2 : Orders.download_state Server),
              x ∈ items →
              Fs.exists_ (Orders.files st2) (Orders.local_path name) = true →
              Fs.exists_ (Orders.files (ctl_state (download_step overwrite x st2)))
                (Orders.local_path name) = true) as Hbody.
    { intros [u n] st2 _. apply exists_mono. apply download_one_stays. }
    specialize (Hkeep Hbody st'). rewrite Hrun in Hkeep. by apply Hkeep.
Qed.

Lemma for_each_download_skip (items : list (string * string))
    (st : Orders.download_state Server) :
  (∀ item, item ∈ items →
     Fs.exists_ (Orders.files st) (Orders.local_path item.2) = true) →
  for_each items (download_step false) st
  = Next {| Orders.files := Orders.files st; Orders.service := Orders.service st;
            Orders.out :=
              Orders.out st
              ++ ((λ item, EPrint (Fs.to_string (Orders.local_path item.2)
                                   +:+ " already exists, skipping " +:+ item.2))
                    <$> items) |}.
Proof.
  revert st. induction items as [|item items IH]; intros st Hex.
  - simpl. rewrite app_nil_r. by destruct st.
  - cbn [for_each]. rewrite download_one_skip by (apply Hex; by left).
    rewrite IH by (intros i Hi; apply Hex; by right).
    cbn [Orders.files Orders.service Orders.out fmap list_fmap].
    by rewrite <-(assoc (++)).
Qed.

(** X13 — Once [download_results] has returned, with or without [overwrite], a
    second run without [overwrite] finds every result in place: it
    downloads nothing, prints one line per result and leaves the file
    system and the service as they are. *)
Theorem download_results_again (results : list Orders.result_entry)
    (overwrite : bool) (st st1 : Orders.download_state Server) :
  Orders.download_results requests_get_content results overwrite st
  = Returned st1 →
  Orders.download_results requests_get_content results false st1
  = Returned {| Orders.files := Orders.files st1;
                Orders.service := Orders.service st1;
                Orders.out :=
                  Orders.out st1
                  ++ EPrint (PyFormat.str_of_Z (Z.of_nat (length results))
                             +:+ " items to download")
                     :: (skip_line <$> results) |}.
Proof.
  rewrite !download_results_unfold. intros Hrun.
  assert (for_each (pairs results) (download_step overwrite) (announced results st)
          = Next st1) as Hnext.
  { destruct (for_each _ _ _) as [st'|st'|e st'] eqn:Hfor; simpl in Hrun;
      [congruence| |done].
    by apply for_each_no_break in Hfor; [|apply download_one_no_break]. }
  rewrite for_each_download_skip.
  - unfold finish, announced. cbn [Orders.files Orders.service Orders.out].
    rewrite <-(assoc (++)). cbn [app]. do 4 f_equal.
    rewrite pairs_fmap, <-list_fmap_compose. by apply list_fmap_ext.
  - intros item Hitem. cbn [announced Orders.files].
    by eapply for_each_download_exist.
Qed.

Lemma for_each_downloads (overwrite : bool) (items : list (string * string))
    (st : Orders.download_state Server) :
  ∃ urls,
    downloads (Orders.out (ctl_state (for_each items (download_step overwrite) st)))
    = downloads (Orders.out st) ++ urls
    ∧ urls `sublist_of` items.*1
    ∧ (overwrite = true →
       ∀ st', for_each items (download_step overwrite) st = Next st' →
              urls = items.*1).
Proof.
  revert st. induction items as [|[url name] items IH]; intros st.
  - exists []. simpl. by rewrite app_nil_r.
  - cbn [for_each].
    pose proof (download_one_downloads overwrite url name st) as Hstep.
    destruct (download_step overwrite (url, name) st) as [st1|st1|e st1] eqn:Hone;
      cbn [ctl_state] in *.
    + destruct (IH st1) as (urls & Hurls & Hsub & Hall).
      eexists. rewrite Hurls, Hstep, <-(assoc (++)). split; [done|]. split.
      * cbn [fmap list_fmap fst]. destruct (overwrite || negb _); cbn [app].
        -- by apply sublist_skip.
        -- by apply sublist_cons.
      * intros -> st' Hrun. cbn [orb app fmap list_fmap fst]. f_equal. by eapply Hall.
    + by destruct (download_one_no_break overwrite (url, name) st st1).
    + eexists. split; [done|]. split; [|done]. cbn [fmap list_fmap fst].
      destruct (overwrite || negb _).
      * apply sublist_skip, sublist_nil_l.
      * apply sublist_nil_l.
Qed.

(** X14 — [download_results] asks for the locations of the results and for no
    other url, in the order of the results and each at most once per
    result; with [overwrite] a run that returns has asked for all of
    them. *)
Theorem download_results_downloads (results : list Orders.result_entry)
    (overwrite : bool) (st : Orders.download_state Server) :
  let res := Orders.download_results requests_get_content results overwrite st in
  ∃ urls,
    downloads (Orders.out (final res)) = downloads (Orders.out st) ++ urls
    ∧ urls `sublist_of` (Orders.location <$> results)
    ∧ (overwrite = true → raised res = false → urls = Orders.location <$> results).
Proof.
  intros res. unfold res. rewrite download_results_unfold.
  destruct (for_each_downloads overwrite (pairs results) (announced results st))
    as (urls & Hurls & Hsub & Hall).
  assert ((pairs results).*1 = Orders.location <$> results) as Hfst.
  { rewrite pairs_fmap, <-list_fmap_compose. by apply list_fmap_ext. }
  rewrite Hfst in *. exists urls.
  assert (downloads (Orders.out (announced results st)) = downloads (Orders.out st))
    as Hann.
  { unfold announced. cbn [Orders.out]. rewrite downloads_app.
    cbn [downloads omap]. by rewrite app_nil_r. }
  rewrite Hann in Hurls.
  destruct (for_each _ _ _) as [st'|st'|e st'] eqn:Hfor; cbn [finish final raised] in *.
  - split_and!; [done..|]. intros Hov _. by eapply Hall.
  - by apply for_each_no_break in Hfor; [|apply download_one_no_break].
  - by split_and!.
Qed.



End DownloadRuns.

Lemma download_results_again_witness :
  let st1 := final (Orders.download_results sample_content sample_results false
                      sample_download) in
  Orders.download_results sample_content sample_results false sample_download
  = Returned st1
  ∧ Orders.download_results sample_content sample_results false st1
    = Returned {| Orders.files := Orders.files st1;
                  Orders.service := Orders.service st1;
                  Orders.out :=
                    Orders.out st1
                    ++ EPrint (PyFormat.str_of_Z (Z.of_nat (length sample_results))
                               +:+ " items to download")
                       :: (skip_line <$> sample_results) |}.
Proof.
  intros st1.
  assert (H : Orders.download_results sample_content sample_results false
                sample_download = Returned st1) by (vm_compute; reflexivity).
  split; [exact H|].
  exact (download_results_again sample_content sample_results false
           sample_download st1 H).
Defined.

(** ** How the multi-order poller ends *)

Section ArdPollEnds.
Context {Server : Type}.
Variable get_individual_order : Server → string → string * Server.
Variable response : option string.

Lemma succeeded_app (oid : string) (log lines : list event) :
  statuses_for oid lines = [] →
  succeeded oid log → succeeded oid (log ++ lines).
Proof.
  intros Hlines (s & Hs & Hsucc). exists s.
  by rewrite statuses_for_app, Hlines, app_nil_r.
Qed.

Lemma succeeded_fetch (oid oid' state : string) (log : list event) :
  (oid = oid' → is_success state = true) →
  succeeded oid' log → succeeded oid' (log ++ fetch_events oid state).
Proof.
  intros Hstate (s & Hs & Hsucc). unfold succeeded.
  rewrite statuses_for_fetch. destruct (String.eqb_spec oid oid') as [Heq|Hne].
  - exists state. rewrite last_snoc. split; [done|]. by apply Hstate.
  - exists s. by rewrite app_nil_r.
Qed.

Lemma poll_for_success_ends (order_ids : list string) (srv : Server)
    (num_loops : Z) (r : result (Ard.poll_state Server)) :
  Ard.poll_for_success get_individual_order response order_ids srv num_loops
  = Some r →
  ∀ st, r = Returned st →
    polled_or_succeeded order_ids st
    ∧ ((last (Ard.log st) = Some (EPrint "done") ∧ Ard.polling st = []
        ∧ Z.of_nat (sleeps (Ard.log st)) = Ard.count st - 1)
       ∨ (last (Ard.log st) ≠ Some (EPrint "done")
          ∧ Ard.count st = Z.max 0 num_loops
          ∧ Z.of_nat (sleeps (Ard.log st)) = Ard.count st)).
Proof.
  revert r. unfold Ard.poll_for_success, Ard.poll_for_success_fuel.
  set (Inv := λ st : Ard.poll_state Server,
         0 ≤ Ard.count st ≤ Z.max 0 num_loops
         ∧ last (Ard.log st) ≠ Some (EPrint "done")
         ∧ Z.of_nat (sleeps (Ard.log st)) = Ard.count st
         ∧ polled_or_succeeded order_ids st).
  set (Post := λ r : result (Ard.poll_state Server),
         ∀ st, r = Returned st →
           polled_or_succeeded order_ids st
           ∧ ((last (Ard.log st) = Some (EPrint "done") ∧ Ard.polling st = []
               ∧ Z.of_nat (sleeps (Ard.log st)) = Ard.count st - 1)
              ∨ (last (Ard.log st) ≠ Some (EPrint "done")
                 ∧ Ard.count st = Z.max 0 num_loops
                 ∧ Z.of_nat (sleeps (Ard.log st)) = Ard.count st))).
  apply (while_rule Inv Post).
  - intros st (Hcount & Hlast & Hsleeps & Hall) Hcond%Z.ltb_lt.
    apply (poll_round_rule get_individual_order response
             (λ todo st1,
                Ard.count st1 = Ard.count st + 1
                ∧ sleeps (Ard.log st1) = sleeps (Ard.log st)
                ∧ polled_or_succeeded order_ids st1
                ∧ todo ⊆+ Ard.polling st1)
             (ctl_post Inv Post)).
    + by split_and!.
    + intros oid rest st1 (Hc1 & Hsl1 & Hall1 & Htodo) c Hstep.
      destruct Hstep as [st' Hlog' Hpoll Hc|state polling' st' Hsucc Hne Hrm Hlog' Hpoll Hc
                        |state st' Hsucc Hrm Hlog' Hc|state st' Hterm Hlog' Hpoll Hc];
        unfold ctl_post; [by intros ? [=]| |by intros ? [=]|].
      * split; [lia|]. apply remove_Some_perm in Hrm. split_and!.
        -- rewrite Hlog', sleeps_app, Hsl1.
           change (sleeps (fetch_events oid state)) with 0%nat. lia.
        -- intros o Ho. unfold succeeded. rewrite Hlog', Hpoll.
           destruct (decide (o = oid)) as [->|Hoid].
           ++ right. exists state. rewrite statuses_for_fetch, String.eqb_refl.
              by rewrite last_snoc.
           ++ destruct (Hall1 o Ho) as [Hin|Hs].
              ** left. rewrite Hrm in Hin. by apply elem_of_cons in Hin as [?|?].
              ** right. apply succeeded_fetch; [|done]. by intros ->.
        -- rewrite Hpoll. rewrite Hrm in Htodo.
           by apply (submseteq_app_inv_l _ _ [oid]).
      * split; [lia|]. split_and!.
        -- rewrite Hlog', sleeps_app, Hsl1.
           change (sleeps (fetch_events oid state)) with 0%nat. lia.
        -- intros o Ho. rewrite Hlog', Hpoll.
           destruct (decide (o = oid)) as [->|Hoid].
           ++ left. eapply elem_of_submseteq; [|done]. by left.
           ++ destruct (Hall1 o Ho) as [Hin|Hs]; [by left|right].
              apply succeeded_fetch; [|done]. by intros ->.
        -- rewrite Hpoll. etrans; [|done]. by apply submseteq_cons.
    + intros st1 st2 (Hc1 & Hsl1 & Hall1 & _) Hc2 Hpoll2.
      assert (∀ lines, (∀ o, statuses_for o lines = []) →
                Ard.log st2 = Ard.log st1 ++ lines →
                polled_or_succeeded order_ids st2) as Hkeep.
      { intros lines Hlines Hlog o Ho. rewrite Hlog, Hpoll2.
        destruct (Hall1 o Ho); [by left|right]. by apply succeeded_app. }
      split; intros Hpoll1 Hlog2; unfold ctl_post.
      * intros st' [= <-]. split; [by apply (Hkeep [EPrint "done"])|].
        left. rewrite Hlog2, last_snoc, sleeps_app, Hsl1.
        change (sleeps [EPrint "done"]) with 0%nat.
        split_and!; [done|congruence|lia].
      * split_and!; [lia|lia| | |by apply (Hkeep [EPrint "--"; ESleep 30])].
        -- rewrite Hlog2.
           change [EPrint "--"; ESleep 30] with ([EPrint "--"] ++ [ESleep 30]).
           by rewrite (assoc (++)), last_snoc.
        -- rewrite Hlog2, sleeps_app, Hsl1.
           change (sleeps [EPrint "--"; ESleep 30]) with 1%nat. lia.
  - intros st (Hcount & Hlast & Hsleeps & Hall) Hcond%Z.ltb_ge st' [= <-].
    split; [done|]. right. split_and!; [done|lia|done].
  - split_and!; [simpl; lia|simpl; lia|done|done|]. intros oid Hoid. by left.
Qed.

(** X6 — When the multi-order poller returns, either the last line that it
    printed is [done], and then the last status that it fetched for every
    order of the call is [success] or [partial], and it has slept between
    its iterations but not after the last one; or it has used up its
    iterations, with a sleep after each.  In both cases an order that it
    does not poll any more has succeeded. *)
Theorem poll_for_success_done (order_ids : list string) (srv : Server)
    (num_loops : Z) :
  ∃ r, Ard.poll_for_success get_individual_order response order_ids srv num_loops
       = Some r
       ∧ ∀ st, r = Returned st →
           (last (Ard.log st) = Some (EPrint "done") →
            (∀ oid, oid ∈ order_ids → succeeded oid (Ard.log st))
            ∧ Z.of_nat (sleeps (Ard.log st)) = Ard.count st - 1)
           ∧ (last (Ard.log st) ≠ Some (EPrint "done") →
              Ard.count st = Z.max 0 num_loops
              ∧ Z.of_nat (sleeps (Ard.log st)) = Ard.count st)
           ∧ (∀ oid, oid ∈ order_ids →
                oid ∉ Ard.polling st → succeeded oid (Ard.log st)).
Proof.
  destruct (ard_poll_terminates get_individual_order response
              order_ids srv num_loops) as [r Hr].
  exists r. split; [done|]. intros st ->.
  destruct (poll_for_success_ends _ _ _ _ Hr st eq_refl) as [Hall Hcases].
  split_and!.
  - intros Hdone. destruct Hcases as [(_ & Hnil & Hsl)|[Hnot _]]; [|done].
    split; [|done]. intros oid Hoid.
    destruct (Hall oid Hoid) as [Hin|?]; [|done].
    rewrite Hnil in Hin. by apply elem_of_nil in Hin.
  - intros Hnot. by destruct Hcases as [[? _]|(_ & ? & ?)].
  - intros oid Hoid Hnotin. by destruct (Hall oid Hoid).
Qed.

Lemma poll_for_success_bounded (order_ids : list string) (srv : Server)
    (num_loops : Z) (r : result (Ard.poll_state Server)) :
  Ard.poll_for_success get_individual_order response order_ids srv num_loops
  = Some r →
  (length (statuses (Ard.log (final r)))
   ≤ Z.to_nat num_loops * length order_ids)%nat
  ∧ (sleeps (Ard.log (final r)) ≤ Z.to_nat num_loops)%nat.
Proof.
  revert r. unfold Ard.poll_for_success, Ard.poll_for_success_fuel.
  set (n := length order_ids).
  set (Inv := λ st : Ard.poll_state Server,
         0 ≤ Ard.count st ≤ Z.max 0 num_loops
         ∧ (length (Ard.polling st) ≤ n)%nat
         ∧ (length (statuses (Ard.log st)) ≤ Z.to_nat (Ard.count st) * n)%nat
         ∧ (sleeps (Ard.log st) ≤ Z.to_nat (Ard.count st))%nat).
  set (Post := λ r : result (Ard.poll_state Server),
         (length (statuses (Ard.log (final r))) ≤ Z.to_nat num_loops * n)%nat
         ∧ (sleeps (Ard.log (final r)) ≤ Z.to_nat num_loops)%nat).
  assert (∀ c, 0 ≤ c → c + 1 ≤ num_loops →
            ((Z.to_nat c + 1) * n ≤ Z.to_nat num_loops * n)%nat) as Hmul.
  { intros c Hc Hle. apply Nat.mul_le_mono_r. lia. }
  apply (while_rule Inv Post).
  - intros st (Hcount & Hpoll & Hreq & Hsl) Hcond%Z.ltb_lt.
    specialize (Hmul (Ard.count st) ltac:(lia) ltac:(lia)).
    apply (poll_round_rule get_individual_order response
             (λ todo st1,
                Ard.count st1 = Ard.count st + 1
                ∧ (length (Ard.polling st1) ≤ n)%nat
                ∧ (length (statuses (Ard.log st1)) + length todo
                   ≤ (Z.to_nat (Ard.count st) + 1) * n)%nat
                ∧ sleeps (Ard.log st1) = sleeps (Ard.log st))
             (ctl_post Inv Post)).
    + cbn [round_start Ard.count Ard.polling Ard.log]. split_and!; [done|done|lia|done].
    + intros oid rest st1 (Hc1 & Hpoll1 & Hreq1 & Hsl1) c Hstep.
      cbn [length] in Hreq1.
      destruct Hstep as [st' Hlog' Hpoll' Hc|state polling' st' Hsucc Hne Hrm Hlog' Hpoll' Hc
                        |state st' Hsucc Hrm Hlog' Hc|state st' Hterm Hlog' Hpoll' Hc];
        unfold ctl_post, Post; cbn [final].
      * rewrite Hlog', statuses_fetch, sleeps_app, length_app.
        change (sleeps (fetch_events oid "failed")) with 0%nat. simpl. lia.
      * apply remove_Some_perm, Permutation_length in Hrm. cbn [length] in Hrm.
        rewrite Hlog', statuses_fetch, sleeps_app, length_app, Hpoll'.
        change (sleeps (fetch_events oid state)) with 0%nat. simpl.
        split_and!; lia.
      * rewrite Hlog', statuses_fetch, sleeps_app, length_app.
        change (sleeps (fetch_events oid state)) with 0%nat. simpl. lia.
      * rewrite Hlog', statuses_fetch, sleeps_app, length_app, Hpoll'.
        change (sleeps (fetch_events oid state)) with 0%nat. simpl.
        split_and!; lia.
    + intros st1 st2 (Hc1 & Hpoll1 & Hreq1 & Hsl1) Hc2 Hpoll2.
      cbn [length] in Hreq1.
      split; intros _ Hlog2; unfold ctl_post, Post, Inv; cbn [final];
        rewrite Hlog2, statuses_app, sleeps_app, length_app, ?Hpoll2, ?Hc2, ?Hc1.
      * change (sleeps [EPrint "done"]) with 0%nat. simpl. lia.
      * change (sleeps [EPrint "--"; ESleep 30]) with 1%nat. simpl.
        replace (Z.to_nat (Ard.count st + 1)) with (Z.to_nat (Ard.count st) + 1)%nat
          by lia.
        split_and!; lia.
  - intros st (Hcount & Hpoll & Hreq & Hsl) Hcond%Z.ltb_ge. unfold Post. cbn [final].
    split; [|lia]. etrans; [done|]. apply Nat.mul_le_mono_r. lia.
  - unfold Inv. cbn. split_and!; lia.
Qed.

(** X22 — however the multi-order poller ends, it has made at most
    [num_loops] times the number of order ids status requests and at most
    [num_loops] sleeps. *)
Theorem poll_for_success_requests (order_ids : list string) (srv : Server)
    (num_loops : Z) :
  ∃ r, Ard.poll_for_success get_individual_order response order_ids srv num_loops
       = Some r
       ∧ (length (statuses (Ard.log (final r)))
          ≤ Z.to_nat num_loops * length order_ids)%nat
       ∧ (sleeps (Ard.log (final r)) ≤ Z.to_nat num_loops)%nat.
Proof.
  destruct (ard_poll_terminates get_individual_order response
              order_ids srv num_loops) as [r Hr].
  exists r. split; [done|]. exact (poll_for_success_bounded _ _ _ _ Hr).
Qed.

End ArdPollEnds.

(** ** Submitting orders *)

Section CreateFacts.
Context {Geometry Server Value : Type}.
Variable create_order :
  Server → Ard.orders_request Geometry → gmap string Value * Server.

Lemma create_all_answers (order_requests : list (Ard.orders_request Geometry))
    (srv : Server) :
  ArdOrders.create_all create_order order_requests srv
  = (answers create_order order_requests srv,
     served create_order order_requests srv).
Proof.
  revert srv. induction order_requests as [|r rest IH]; intros srv; [done|].
  cbn [ArdOrders.create_all answers served foldl].
  destruct (create_order srv r) as [info srv1]. by rewrite IH.
Qed.

Lemma comprehension_get_id (infos : list (gmap string Value)) :
  match Webtiles.comprehension ArdOrders.get_id infos with
  | inr ids => Forall2 (λ a v, a !! "id" = Some v) infos ids
  | inl e => e = KeyError "id" ∧ Exists (λ a, a !! "id" = None) infos
  end.
Proof.
  induction infos as [|a infos IH]; cbn [Webtiles.comprehension]; [done|].
  unfold ArdOrders.get_id at 1. destruct (a !! "id") as [v|] eqn:Ha.
  - destruct (Webtiles.comprehension ArdOrders.get_id infos) as [e|ids].
    + destruct IH as [-> IH]. split; [done|]. by apply Exists_cons_tl.
    + by constructor.
  - split; [done|]. by apply Exists_cons_hd.
Qed.

(** X5 — [create_orders] sends every request to the service, in order, before it
    reads an answer: the service has all of the orders also when the
    function raises.  It returns the values of [id] of the answers, one per
    request and in the order of the requests; it raises [KeyError] for [id]
    exactly when an answer has no [id]; no requests give no orders. *)
Theorem create_orders_submits_all
    (order_requests : list (Ard.orders_request Geometry)) (srv : Server) :
  let res := ArdOrders.create_orders create_order order_requests srv in
  let infos := answers create_order order_requests srv in
  res.2 = served create_order order_requests srv
  ∧ length infos = length order_requests
  ∧ (∀ ids, res.1 = inr ids ↔ Forall2 (λ a v, a !! "id" = Some v) infos ids)
  ∧ (∀ e, res.1 = inl e ↔
          e = KeyError "id" ∧ Exists (λ a, a !! "id" = None) infos)
  ∧ (order_requests = [] → res = (inr [], srv)).
Proof.
  intros res infos. unfold res, ArdOrders.create_orders.
  rewrite create_all_answers. fold infos. cbn [fst snd].
  pose proof (comprehension_get_id infos) as Hids.
  split_and!.
  - done.
  - unfold infos. clear. revert srv.
    induction order_requests as [|r rest IH]; intros srv; [done|].
    simpl. by rewrite IH.
  - intros ids. destruct (Webtiles.comprehension ArdOrders.get_id infos) as [e|ids'].
    + split; [done|]. intros Hall. destruct Hids as [_ Hex].
      apply Exists_exists in Hex as (a & Ha & Hnone).
      apply list_elem_of_lookup in Ha as [k Hk].
      destruct (Forall2_lookup_l _ _ _ _ _ Hall Hk) as (v & _ & Hv). congruence.
    + split.
      * by intros [= <-].
      * intros Hall. f_equal. apply list_eq. intros k.
        destruct (infos !! k) as [a|] eqn:Hk.
        -- destruct (Forall2_lookup_l _ _ _ _ _ Hall Hk) as (v & -> & Hv).
           destruct (Forall2_lookup_l _ _ _ _ _ Hids Hk) as (v' & -> & Hv').
           congruence.
        -- apply lookup_ge_None in Hk.
           rewrite !(proj2 (lookup_ge_None _ _)); [done|..].
           ++ by rewrite <-(Forall2_length _ _ _ Hall).
           ++ by rewrite <-(Forall2_length _ _ _ Hids).
  - intros e. destruct (Webtiles.comprehension ArdOrders.get_id infos) as [e'|ids'].
    + destruct Hids as [-> Hex]. split; [by intros [= <-]|by intros [-> _]].
    + split; [done|]. intros [_ Hex].
      apply Exists_exists in Hex as (a & Ha & Hnone).
      apply list_elem_of_lookup in Ha as [k Hk].
      destruct (Forall2_lookup_l _ _ _ _ _ Hids Hk) as (v & _ & Hv). congruence.
  - by intros ->.
Qed.

End CreateFacts.

(** ** Waiting for the archive of an order *)

Lemma slept_app (l1 l2 : list ArdOrders.io) : slept (l1 ++ l2) = slept l1 + slept l2.
Proof.
  unfold slept. rewrite omap_app, foldr_app.
  induction (omap _ l1) as [|n l IH]; simpl; lia.
Qed.

Lemma listings_app (l1 l2 : list ArdOrders.io) :
  listings (l1 ++ l2) = (listings l1 + listings l2)%nat.
Proof. unfold listings. by rewrite omap_app, length_app. Qed.

Lemma started_app (l1 l2 : list ArdOrders.io) :
  started (l1 ++ l2) = started l1 ++ started l2.
Proof. apply omap_app. Qed.

(** Tests of [os.path.isfile] are no sleeps, listings or downloads. *)
Lemma tests_quiet (tests : list ArdOrders.io) :
  Forall (λ ev, ∃ p b, ev = ArdOrders.Isfile p b) tests →
  slept tests = 0 ∧ listings tests = 0%nat ∧ started tests = [].
Proof.
  induction 1 as [|ev tests (p & b & ->) _ (IH1 & IH2 & IH3)]; [done|].
  by split_and!.
Qed.

Lemma endswith_spec (s suffix : string) :
  Py.endswith s suffix = true ↔ ∃ pre, s = pre +:+ suffix.
Proof.
  induction s as [|c s IH]; cbn [Py.endswith].
  - rewrite orb_false_r. split.
    + intros ->%String.eqb_eq. by exists "".
    + intros [[|d pre] Hpre]; [by rewrite append_nil_l in Hpre; subst|].
      by rewrite append_cons in Hpre.
  - rewrite orb_true_iff, IH, String.eqb_eq. split.
    + intros [<-|[pre ->]]; [by exists ""|]. exists (String c pre).
      by rewrite append_cons.
    + intros [[|d pre] Hpre].
      * left. by rewrite append_nil_l in Hpre.
      * right. rewrite append_cons in Hpre. injection Hpre as _ ->. by exists pre.
Qed.

Lemma os_path_join_nonempty (dest f : string) :
  f ≠ "" → Fs.os_path_join dest f ≠ "".
Proof.
  intros Hf. unfold Fs.os_path_join. destruct (Fs.starts_with_slash f); [done|].
  assert (∀ a, a +:+ f ≠ "") as Happ.
  { intros [|c a]; [by rewrite append_nil_l|by rewrite append_cons]. }
  destruct (_ || _); [apply Happ|].
  destruct dest as [|c a]; [|by rewrite append_cons].
  rewrite append_nil_l. apply (Happ "/").
Qed.

Section FetchFacts.
Context {World : Type}.
Variable os_listdir : World → string → (exn + list string) * World.
Variable os_path_isfile : World → string → bool * World.
Variable dl_download : World → string → string → option Z → World.

Lemma next_matched_spec (dest endswith : string) (entries : list string)
    (w : World) (log : list ArdOrders.io) (m : option string) (w' : World)
    (log' : list ArdOrders.io) :
  ArdOrders.next_matched os_path_isfile dest endswith entries w log = (m, w', log') →
  ∃ tests,
    log' = log ++ tests
    ∧ Forall (λ ev, ∃ p b, ev = ArdOrders.Isfile p b) tests
    ∧ match m with
      | Some f =>
          ∃ earlier later ts,
            entries = earlier ++ f :: later
            ∧ tests = ts ++ [ArdOrders.Isfile (Fs.os_path_join dest f) true]
            ∧ Forall2 (in_vain dest endswith) earlier ts
            ∧ Py.endswith f endswith = true
            ∧ isfile_holds os_path_isfile (Fs.os_path_join dest f)
      | None => Forall2 (in_vain dest endswith) entries tests
      end.
Proof.
  revert w log. induction entries as [|f rest IH]; intros w log;
    cbn [ArdOrders.next_matched].
  - intros [= <- <- <-]. exists []. by rewrite app_nil_r.
  - destruct (os_path_isfile w (Fs.os_path_join dest f)) as [b w1] eqn:Hb.
    destruct (b && Py.endswith f endswith) eqn:Hpass.
    + intros [= <- <- <-]. apply andb_true_iff in Hpass as [-> Hends].
      exists [ArdOrders.Isfile (Fs.os_path_join dest f) true].
      split_and!; [done|by repeat econstructor|].
      exists [], rest, []. split_and!; [done..|]. exists w. by rewrite Hb.
    + intros (tests & -> & Htests & Hm)%IH.
      exists (ArdOrders.Isfile (Fs.os_path_join dest f) b :: tests).
      rewrite <-(assoc (++)). split_and!; [done|by repeat econstructor|].
      destruct m as [g|].
      * destruct Hm as (earlier & later & ts & -> & -> & Hvain & Hends & Hfile).
        exists (f :: earlier), later,
          (ArdOrders.Isfile (Fs.os_path_join dest f) b :: ts).
        split_and!; [done..| |done|done]. constructor; [by exists b|done].
      * constructor; [by exists b|done].
Qed.

Lemma poll_download_terminates (dest endswith : string) (num_loops : Z)
    (w : World) (before : list ArdOrders.io) :
  is_Some (ArdOrders.poll_for_download os_listdir os_path_isfile
             dest endswith num_loops w before).
Proof.
  unfold ArdOrders.poll_for_download, ArdOrders.poll_for_download_fuel.
  assert (is_Some (while (S (Z.to_nat num_loops))
                     (λ st, (ArdOrders.count st <? num_loops)%Z)
                     (ArdOrders.poll_round os_listdir os_path_isfile dest endswith)
                     (ArdOrders.poll_init w before))) as [r ->].
  { apply (while_terminates
             (λ st : ArdOrders.poll_state World,
                Z.to_nat (num_loops - ArdOrders.count st))).
    - intros st st' Hcond%Z.ltb_lt. unfold ArdOrders.poll_round.
      destruct (os_listdir _ _) as [[e|entries] w1]; [done|].
      destruct (ArdOrders.next_matched _ _ _ _ _ _) as [[m w2] log2].
      destruct (Webtiles.truthy m); [done|]. intros [= <-]. simpl. lia.
    - simpl. lia. }
  by destruct r.
Qed.

Lemma poll_download_run (dest endswith : string) (num_loops : Z)
    (w : World) (before : list ArdOrders.io)
    (r : result (ArdOrders.poll_state World)) :
  while (S (Z.to_nat num_loops)) (λ st, (ArdOrders.count st <? num_loops)%Z)
    (ArdOrders.poll_round os_listdir os_path_isfile dest endswith)
    (ArdOrders.poll_init w before) = Some r →
  fetch_run os_listdir os_path_isfile dest endswith num_loops w before r.
Proof.
  revert r.
  set (Inv := λ st : ArdOrders.poll_state World,
         0 ≤ ArdOrders.count st ≤ Z.max 0 num_loops
         ∧ after_rounds before (ArdOrders.count st) st
         ∧ if decide (ArdOrders.count st = 0)
           then ArdOrders.match_ st = None ∧ ArdOrders.log st = before
                ∧ ArdOrders.world st = w
           else ∃ m, ArdOrders.match_ st = Some m
                     ∧ no_match os_path_isfile dest endswith m).
  apply (while_rule Inv
           (fetch_run os_listdir os_path_isfile dest endswith num_loops w before)).
  - intros st (Hcount & (Hstarted & Hslept & Hlist) & Hmatch) Hcond%Z.ltb_lt.
    unfold ArdOrders.poll_round.
    destruct (os_listdir (ArdOrders.world st) dest) as [[e|entries] w1] eqn:Hls.
    + split_and!.
      * exists (ArdOrders.world st). by rewrite Hls.
      * cbn [ArdOrders.log]. by rewrite last_snoc.
      * cbn [ArdOrders.count]. lia.
      * cbn [ArdOrders.count]. lia.
      * unfold after_rounds. cbn [ArdOrders.log ArdOrders.count].
        rewrite started_app, slept_app, listings_app, Hstarted, Hslept, Hlist.
        cbn. rewrite app_nil_r. split_and!; [done|lia|lia].
    + destruct (ArdOrders.next_matched _ _ _ _ _ _) as [[m w2] log2] eqn:Hnext.
      apply next_matched_spec in Hnext as (tests & -> & Htests & Hm).
      destruct (tests_quiet tests Htests) as (Hq1 & Hq2 & Hq3).
      destruct (Webtiles.truthy m) eqn:Htruthy.
      * destruct m as [f|]; [|done]. cbn [Webtiles.truthy] in Htruthy.
        apply negb_true_iff, String.eqb_neq in Htruthy.
        destruct Hm as (earlier & later & ts & -> & Hts & Hvain & Hends & Hfile).
        right. exists f. cbn [ArdOrders.match_ ArdOrders.log ArdOrders.count default].
        split_and!; [done|done| |done|lia|lia|].
        -- exists f, earlier, later, (ArdOrders.log st), ts.
           split_and!; [done|done| |done].
           rewrite Hts. by rewrite <-!(assoc (++)).
        -- unfold after_rounds. cbn [ArdOrders.log ArdOrders.count].
           rewrite !started_app, !slept_app, !listings_app,
             Hq1, Hq2, Hq3, Hstarted, Hslept, Hlist.
           cbn. rewrite !app_nil_r. split_and!; [done|lia|lia].
      * split_and!; cbn [ArdOrders.count]; [lia|lia| |].
        -- unfold after_rounds. cbn [ArdOrders.log ArdOrders.count].
           rewrite !started_app, !slept_app, !listings_app,
             Hq1, Hq2, Hq3, Hstarted, Hslept, Hlist.
           cbn. rewrite !app_nil_r. split_and!; [done|lia|lia].
        -- rewrite decide_False by lia. exists m. split; [done|].
           destruct m as [f|]; [|by left]. right.
           cbn [Webtiles.truthy] in Htruthy.
           apply negb_false_iff, String.eqb_eq in Htruthy as ->.
           destruct Hm as (earlier & later & ts & _ & _ & _ & Hends & Hfile).
           by split_and!.
  - intros st (Hcount & Hafter & Hmatch) Hcond%Z.ltb_ge. left.
    split_and!; [lia|done|done].
  - split_and!; [simpl; lia|simpl; lia| |].
    + unfold after_rounds, ArdOrders.poll_init.
      cbn [ArdOrders.log ArdOrders.count]. split_and!; [done|lia|lia].
    + by rewrite decide_True.
Qed.

Abbreviation poll_for_download :=
  (ArdOrders.poll_for_download os_listdir os_path_isfile).

Lemma poll_for_download_run (dest endswith : string) (num_loops : Z)
    (w : World) (before : list ArdOrders.io) :
  ∃ r, while (S (Z.to_nat num_loops)) (λ st, (ArdOrders.count st <? num_loops)%Z)
         (ArdOrders.poll_round os_listdir os_path_isfile dest endswith)
         (ArdOrders.poll_init w before) = Some r
       ∧ fetch_run os_listdir os_path_isfile dest endswith num_loops w before r
       ∧ poll_for_download dest endswith num_loops w before
         = Some (match r with
                 | Raised e st => (inl (ArdOrders.Propagated e), st)
                 | Returned st => (ArdOrders.return_match st, st)
                 end).
Proof.
  destruct (poll_download_terminates dest endswith num_loops w before)
    as [res Hres].
  unfold ArdOrders.poll_for_download, ArdOrders.poll_for_download_fuel in *.
  destruct (while _ _ _ _) as [r|] eqn:Hr; [|done].
  exists r. split; [done|]. split; [by apply poll_download_run|].
  by destruct r.
Qed.

(** X7 — [poll_for_download] always ends.  It raises [UnboundLocalError] for the
    name [match] exactly when [num_loops] is not positive: then no
    iteration assigns [match], and nothing has been asked or printed.  Any
    other exception is one that [os.listdir] raises, in the last call of
    the run. *)
Theorem poll_for_download_unbound (dest endswith : string) (num_loops : Z)
    (w : World) (before : list ArdOrders.io) :
  ∃ res st,
    poll_for_download dest endswith num_loops w before = Some (res, st)
    ∧ (res = inl (ArdOrders.UnboundLocalError "match") ↔ num_loops ≤ 0)
    ∧ (num_loops ≤ 0 → st = ArdOrders.poll_init w before)
    ∧ (∀ e, res = inl (ArdOrders.Propagated e) →
         listdir_raises os_listdir dest e
         ∧ last (ArdOrders.log st) = Some (ArdOrders.Listdir dest (inl e))).
Proof.
  destruct (poll_for_download_run dest endswith num_loops w before)
    as (r & _ & Hrun & ->).
  destruct r as [st|e st]; eexists _, _; (split; [done|]).
  - unfold ArdOrders.return_match.
    destruct Hrun as [(Hcount & _ & Hmatch)|(f & Hmatch & _ & _ & _ & Hc & _)].
    + destruct (decide (ArdOrders.count st = 0)) as [Hzero|Hpos].
      * destruct Hmatch as (Hm & Hlog & Hw). rewrite Hm. split_and!.
        -- split; [lia|done].
        -- intros _. clear Hcount. destruct st. simpl in *. by subst.
        -- by intros e [=].
      * destruct Hmatch as (m & -> & _). split_and!.
        -- split; [done|]. unfold ArdOrders.count in *. lia.
        -- unfold ArdOrders.count in *. lia.
        -- by intros e [=].
    + rewrite Hmatch. split_and!; [split; [done|lia]|lia|by intros e [=]].
  - destruct Hrun as (Hraises & Hlast & Hc & _). split_and!.
    + split; [done|lia].
    + lia.
    + by intros e' [= <-].
Qed.

(** X8 — When [poll_for_download] returns a path, the path is that of the first
    name in the last listing of [dest] that was a file and ends with
    [endswith]; the run ends with the test of that file and the line
    [downloaded], without a sleep after it: with [count] iterations it
    has slept [10 * (count - 1)] seconds. *)
Theorem poll_for_download_found (dest endswith : string) (num_loops : Z)
    (w : World) (before : list ArdOrders.io) (p : string)
    (st : ArdOrders.poll_state World) :
  poll_for_download dest endswith num_loops w before = Some (inr (Some p), st) →
  p ≠ "" →
  found_archive dest endswith p (ArdOrders.log st)
  ∧ isfile_holds os_path_isfile p
  ∧ 1 ≤ ArdOrders.count st ≤ num_loops
  ∧ slept (ArdOrders.log st) = slept before + 10 * (ArdOrders.count st - 1)
  ∧ listings (ArdOrders.log st)
    = (listings before + Z.to_nat (ArdOrders.count st))%nat.
Proof.
  destruct (poll_for_download_run dest endswith num_loops w before)
    as (r & _ & Hrun & ->).
  destruct r as [st'|e st']; [|done]. intros [= Hret ->] Hp.
  unfold ArdOrders.return_match in Hret.
  destruct Hrun as [(_ & _ & Hmatch)|(f & Hmatch & _ & Hfound & Hfile & Hc & Hafter)].
  - destruct (decide (ArdOrders.count st = 0)).
    + destruct Hmatch as (Hm & _). by rewrite Hm in Hret.
    + destruct Hmatch as (m & Hm & [->|(-> & _)]); rewrite Hm in Hret; congruence.
  - rewrite Hmatch in Hret.
    assert (p = Fs.os_path_join dest f) as -> by congruence.
    destruct Hafter as (_ & Hslept & Hlist). destruct Hc. by split_and!.
Qed.

(** X9 — When the listing of [dest] never fails and no name that ends with
    [endswith] is ever a file in [dest], [poll_for_download] with a positive
    [num_loops] returns [None], without an exception, after [num_loops]
    iterations, each with a listing and a sleep of 10 seconds. *)
Theorem poll_for_download_gives_up (dest endswith : string) (num_loops : Z)
    (w : World) (before : list ArdOrders.io) :
  0 < num_loops →
  (∀ e, ¬ listdir_raises os_listdir dest e) →
  (∀ f, Py.endswith f endswith = true →
        ¬ isfile_holds os_path_isfile (Fs.os_path_join dest f)) →
  ∃ st, poll_for_download dest endswith num_loops w before = Some (inr None, st)
        ∧ ArdOrders.count st = num_loops
        ∧ slept (ArdOrders.log st) = slept before + 10 * num_loops
        ∧ listings (ArdOrders.log st) = (listings before + Z.to_nat num_loops)%nat.
Proof.
  intros Hloops Hlist Hnone.
  destruct (poll_for_download_run dest endswith num_loops w before)
    as (r & _ & Hrun & ->).
  destruct r as [st|e st].
  - destruct Hrun as [(Hcount & Hafter & Hmatch)
                     |(f & _ & _ & Hfound & Hfile & _)].
    + exists st. rewrite decide_False in Hmatch by lia.
      destruct Hmatch as (m & Hm & [->|(_ & Hfile & Hends)]).
      * unfold ArdOrders.return_match. rewrite Hm.
        destruct Hafter as (_ & Hslept & Hlistings).
        split_and!; [done|lia| |].
        -- rewrite Hslept. f_equal. lia.
        -- rewrite Hlistings. f_equal. lia.
      * by destruct (Hnone "" Hends).
    + destruct Hfound as (f0 & _ & _ & _ & _ & Hp & Hends & _).
      destruct (Hnone f0 Hends). by rewrite <-Hp.
  - destruct Hrun as (Hraises & _). by destruct (Hlist e).
Qed.

(** *** Downloading the orders *)

Abbreviation download_order :=
  (ArdOrders.download_order os_listdir os_path_isfile dl_download).

Lemma download_order_run (order_id dest : string) (limit : option Z)
    (w : World) (before : list ArdOrders.io) :
  ∃ res st,
    download_order order_id dest limit w before = Some (res, st)
    ∧ started (ArdOrders.log st) = started before ++ [order_id]
    ∧ slept before ≤ slept (ArdOrders.log st) ≤ slept before + 500
    ∧ match res with
      | inl e =>
          ∃ e', e = ArdOrders.Propagated e'
                ∧ listdir_raises os_listdir dest e'
                ∧ last (ArdOrders.log st) = Some (ArdOrders.Listdir dest (inl e'))
      | inr m =>
          Webtiles.truthy m = true →
          ∃ file, m = Some file ∧ archive_of dest file order_id
      end.
Proof.
  unfold ArdOrders.download_order.
  destruct (poll_for_download_run dest (order_id +:+ ".zip") 50
              (dl_download w order_id dest limit)
              (before ++ [ArdOrders.Download order_id dest limit]))
    as (r & _ & Hrun & ->).
  assert (started (before ++ [ArdOrders.Download order_id dest limit])
          = started before ++ [order_id]) as Hstarted by apply started_app.
  assert (slept (before ++ [ArdOrders.Download order_id dest limit])
          = slept before) as Hslept.
  { rewrite slept_app. cbn. lia. }
  destruct r as [st|e st]; eexists _, _; (split; [done|]).
  - destruct Hrun as [(Hcount & (Hs & Hsl & _) & Hmatch)
                     |(f & Hmatch & Hf & Hfound & _ & Hc & (Hs & Hsl & _))].
    + split_and!; [congruence|lia|lia|].
      unfold ArdOrders.return_match.
      destruct (decide (ArdOrders.count st = 0)) as [Hzero|_]; [lia|].
      destruct Hmatch as (m & -> & [->|(-> & _)]); by intros.
    + split_and!; [congruence|lia|lia|].
      unfold ArdOrders.return_match. rewrite Hmatch. intros _. eexists.
      split; [done|].
      destruct Hfound as (f0 & _ & _ & _ & _ & Hp & Hends & _). by exists f0.
  - destruct Hrun as (Hraises & Hlast & Hc & (Hs & Hsl & _)).
    split_and!; [congruence|lia|lia|]. by exists e.
Qed.

Lemma download_each_run (order_ids : list string) (dest : string)
    (limit : option Z) (files : list string) (w : World)
    (before : list ArdOrders.io) :
  ∃ res w' log',
    ArdOrders.download_each os_listdir os_path_isfile dl_download
      order_ids dest limit files w before = Some (res, (w', log'))
    ∧ slept before ≤ slept log' ≤ slept before + 500 * Z.of_nat (length order_ids)
    ∧ match res with
      | inr files' =>
          started log' = started before ++ order_ids
          ∧ ∃ new oids, files' = files ++ new
                        ∧ oids `sublist_of` order_ids
                        ∧ Forall2 (archive_of dest) new oids
      | inl e =>
          ∃ e' tried,
            e = ArdOrders.Propagated e'
            ∧ listdir_raises os_listdir dest e'
            ∧ last log' = Some (ArdOrders.Listdir dest (inl e'))
            ∧ tried ≠ [] ∧ tried `prefix_of` order_ids
            ∧ started log' = started before ++ tried
      end.
Proof.
  revert files w before.
  induction order_ids as [|oid rest IH]; intros files w before;
    cbn [ArdOrders.download_each].
  - eexists _, _, _. split; [done|]. split; [simpl; lia|].
    rewrite app_nil_r. split; [done|]. exists [], []. by rewrite app_nil_r.
  - destruct (download_order_run oid dest limit w
                (before ++ [ArdOrders.PrintLine ("downloading " +:+ oid)]))
      as (res & st & -> & Hstarted & Hslept & Hres).
    rewrite started_app, slept_app in *. cbn in Hstarted, Hslept.
    rewrite app_nil_r in Hstarted. rewrite Z.add_0_r in Hslept.
    destruct res as [e|filename].
    + eexists _, _, _. split; [done|]. split; [simpl length; lia|].
      destruct Hres as (e' & -> & Hraises & Hlast).
      exists e', [oid]. split_and!; [done..| |done]. by exists rest.
    + destruct (IH (if Webtiles.truthy filename
                    then files ++ [default "" filename] else files)
                  (ArdOrders.world st) (ArdOrders.log st))
        as (res & w' & log' & -> & Hsl & Hres').
      eexists _, _, _. split; [done|]. split; [simpl length; lia|].
      destruct res as [e|files'].
      * destruct Hres' as (e' & tried & -> & Hraises & Hlast & _ & Hpre & Hst).
        exists e', (oid :: tried). split_and!; [done..| |].
        -- by apply prefix_cons.
        -- by rewrite Hst, Hstarted, <-(assoc (++)).
      * destruct Hres' as (Hst & new & oids & -> & Hsub & Hall).
        split; [by rewrite Hst, Hstarted, <-(assoc (++))|].
        destruct (Webtiles.truthy filename) eqn:Htruthy.
        -- destruct (Hres eq_refl) as (file & -> & Harch).
           exists (file :: new), (oid :: oids). rewrite <-(assoc (++)).
           split_and!; [done|by apply sublist_skip|by constructor].
        -- exists new, oids. split_and!; [done|by apply sublist_cons|done].
Qed.

(** X10 — [download_orders] ends for every list of orders.  When no listing of
    [dest] fails, it has started the download of every order, in order, and
    returns at most one file per order: the files belong, in order, to
    orders of the list, each with a name in [dest] that ends with the id of
    the order and [.zip]; an order whose archive does not appear within its
    50 iterations is left out without an exception.  An exception is one
    of [os.listdir], and no download of a later order has been started.
    The run sleeps at most 500 seconds per order. *)
Theorem download_orders_files (order_ids : list string) (dest : string)
    (limit : option Z) (w : World) (before : list ArdOrders.io) :
  ∃ res w' log',
    ArdOrders.download_orders os_listdir os_path_isfile dl_download
      order_ids dest limit w before = Some (res, (w', log'))
    ∧ slept before ≤ slept log' ≤ slept before + 500 * Z.of_nat (length order_ids)
    ∧ (∀ files, res = inr files →
         started log' = started before ++ order_ids
         ∧ ∃ oids, oids `sublist_of` order_ids
                   ∧ Forall2 (archive_of dest) files oids)
    ∧ (∀ e, res = inl e →
         ∃ e' tried,
           e = ArdOrders.Propagated e'
           ∧ listdir_raises os_listdir dest e'
           ∧ last log' = Some (ArdOrders.Listdir dest (inl e'))
           ∧ tried `prefix_of` order_ids
           ∧ started log' = started before ++ tried).
Proof.
  unfold ArdOrders.download_orders.
  destruct (download_each_run order_ids dest limit [] w before)
    as (res & w' & log' & -> & Hslept & Hres).
  exists res, w', log'. split_and!; [done|lia|lia| |].
  - intros files ->. destruct Hres as (Hst & new & oids & -> & Hsub & Hall).
    split; [done|]. by exists oids.
  - intros e ->. destruct Hres as (e' & tried & -> & Hr & Hl & _ & Hp & Hst).
    by exists e', tried.
Qed.

End FetchFacts.

Lemma poll_for_download_found_witness :
  ∃ st,
    ArdOrders.poll_for_download (sample_listdir ["notes.txt"; "2019-04-02_e045.zip"])
      (isfile_from 3) "data" "e045.zip" 50 0%nat []
    = Some (inr (Some "data/2019-04-02_e045.zip"), st)
    ∧ "data/2019-04-02_e045.zip" ≠ ""
    ∧ found_archive "data" "e045.zip" "data/2019-04-02_e045.zip" (ArdOrders.log st)
    ∧ 1 ≤ ArdOrders.count st ≤ 50
    ∧ slept (ArdOrders.log st) = slept [] + 10 * (ArdOrders.count st - 1).
Proof.
  assert (∃ st,
    ArdOrders.poll_for_download (sample_listdir ["notes.txt"; "2019-04-02_e045.zip"])
      (isfile_from 3) "data" "e045.zip" 50 0%nat []
    = Some (inr (Some "data/2019-04-02_e045.zip"), st)) as [st H]
    by (eexists; vm_compute; reflexivity).
  assert (Hp : "data/2019-04-02_e045.zip" ≠ "") by done.
  exists st. split; [exact H|]. split; [exact Hp|].
  destruct (poll_for_download_found _ _ _ _ _ _ _ _ _ H Hp)
    as (Hfound & _ & Hc & Hs & _).
  split; [exact Hfound|]. split; [exact Hc|exact Hs].
Defined.

Lemma poll_for_download_gives_up_witness :
  0 < 2
  ∧ ∃ st,
      ArdOrders.poll_for_download (sample_listdir ["notes.txt"]) never_isfile
        "data" "e045.zip" 2 tt []
      = Some (inr None, st)
      ∧ ArdOrders.count st = 2
      ∧ slept (ArdOrders.log st) = slept [] + 10 * 2
      ∧ listings (ArdOrders.log st) = (listings [] + Z.to_nat 2)%nat.
Proof.
  assert (H : 0 < 2) by lia. split; [exact H|].
  apply (poll_for_download_gives_up (sample_listdir ["notes.txt"]) never_isfile
           "data" "e045.zip" 2 tt [] H).
  - intros e [w Hw]. simpl in Hw. discriminate.
  - intros f _ [w Hw]. simpl in Hw. discriminate.
Defined.

Example download_orders_sample :
  ∃ w log,
    ArdOrders.download_orders
      (sample_listdir ["2019-04-02_e045.zip"; "2019-04-08_05d1.zip"])
      (isfile_from 2) sample_dl_download ["e045"; "0000"; "05d1"] "data" None 0%nat []
    = Some (inr ["data/2019-04-02_e045.zip"; "data/2019-04-08_05d1.zip"], (w, log))
    ∧ started log = ["e045"; "0000"; "05d1"]
    ∧ slept log = 510.
Proof. eexists _, _. split_and!; vm_compute; reflexivity. Qed.

(** ** Placing an order *)

Lemma split_no_sep (sep : ascii) (s : string) :
  Py.contains sep s = false → Py.split sep s = [s].
Proof.
  induction s as [|c s IH]; simpl; [done|].
  intros [Hc Hs]%orb_false_iff. rewrite Hc, (IH Hs). done.
Qed.

Lemma split_app_sep (sep : ascii) (a b : string) :
  Py.split sep (a +:+ String sep b) = Py.split sep a ++ Py.split sep b.
Proof.
  induction a as [|c a IH].
  - rewrite append_nil_l. simpl. by rewrite Ascii.eqb_refl.
  - rewrite append_cons. cbn [Py.split]. rewrite IH.
    destruct (Ascii.eqb c sep); [done|].
    destruct (split_head sep a) as (p & ps & -> & _). done.
Qed.

Lemma split_nonempty (sep : ascii) (s : string) : Py.split sep s ≠ [].
Proof. by destruct (split_head sep s) as (p & ps & -> & _). Qed.

Section PlaceFacts.
Context {Server Auth Request : Type}.
Variable json_dumps : Request → string.
Variable requests_post :
  Server → string → string → Auth → gmap string string
  → OrdersPlace.response * Server.

(** X12 — [place_order] sends one request, to [orders_url] and with the dumped
    order as its data, and prints the answer.  When the answer is a JSON
    object with an [id], it prints the id and returns the url of the order,
    [orders_url], a [/] and the id, from which an id without [/] can be
    read back as its last part.  When the object has no [id], as in the
    answer to a request that the service rejects, [KeyError] is raised and
    nothing more is printed; the error of an answer that is no JSON is
    passed on. *)
Theorem place_order_url (request : Request) (auth : Auth)
    (st : OrdersPlace.place_state Server) :
  let answer := requests_post (OrdersPlace.server st) OrdersPlace.orders_url
                  (json_dumps request) auth OrdersPlace.headers in
  let res := OrdersPlace.place_order json_dumps requests_post request auth st in
  let printed := OrdersPlace.out st ++ [EPrint (OrdersPlace.shown answer.1)] in
  OrdersPlace.server res.2 = answer.2
  ∧ (∀ object order_id,
       OrdersPlace.json answer.1 = inr object → object !! "id" = Some order_id →
       res.1 = inr (OrdersPlace.orders_url +:+ "/" +:+ order_id)
       ∧ OrdersPlace.out res.2 = printed ++ [EPrint order_id]
       ∧ (Py.contains "/" order_id = false →
          last_segment (OrdersPlace.orders_url +:+ "/" +:+ order_id)
          = Some order_id))
  ∧ (∀ object,
       OrdersPlace.json answer.1 = inr object → object !! "id" = None →
       res.1 = inl (KeyError "id") ∧ OrdersPlace.out res.2 = printed)
  ∧ (∀ e, OrdersPlace.json answer.1 = inl e →
       res.1 = inl e ∧ OrdersPlace.out res.2 = printed).
Proof.
  intros answer res printed. unfold res, printed, OrdersPlace.place_order.
  fold answer. destruct answer as [response srv]. cbn [fst snd].
  destruct (OrdersPlace.json response) as [e|object].
  - split_and!; [done|by intros ?? [=]|by intros ? [=]|by intros e' [= <-]].
  - destruct (object !! "id") as [order_id|] eqn:Hid.
    + split_and!; [done| |intros ? [= <-] ?; congruence|done].
      intros object' order_id' [= <-] Hid'. rewrite Hid in Hid'.
      injection Hid' as <-. split_and!; [done|done|].
      intros Hfree. unfold last_segment.
      change ("/" +:+ order_id) with (String "/" order_id).
      rewrite split_app_sep, (split_no_sep _ _ Hfree). by rewrite last_snoc.
    + split_and!; [done| |by intros ? [= <-] _|done].
      intros object' order_id' [= <-] Hid'. congruence.
Qed.

End PlaceFacts.

(** ** The animation *)

Section AnimateFacts.
Context {Delay : Type}.
Variable negative : Delay → bool.

Lemma show_frames (disp_id : string) (delay : Delay) (urls : list string)
    (log : list (Animation.shown Delay)) :
  negative delay = false →
  for_each urls (Animation.show_frame negative disp_id delay) log
  = Next (log ++ one_pass disp_id delay urls).
Proof.
  intros Hdelay. revert log. induction urls as [|url urls IH]; intros log.
  - simpl. by rewrite app_nil_r.
  - cbn [for_each]. unfold Animation.show_frame at 1. rewrite Hdelay, IH.
    unfold one_pass. by rewrite fmap_cons, concat_cons, <-!(assoc (++)).
Qed.

Lemma show_passes {A} (passes : list A) (disp_id : string) (delay : Delay)
    (urls : list string) (log : list (Animation.shown Delay)) :
  negative delay = false →
  for_each passes
    (λ _, for_each urls (Animation.show_frame negative disp_id delay)) log
  = Next (log ++ concat (replicate (length passes) (one_pass disp_id delay urls))).
Proof.
  intros Hdelay. revert log. induction passes as [|x passes IH]; intros log.
  - simpl. by rewrite app_nil_r.
  - cbn [for_each]. rewrite show_frames, IH by done. simpl.
    by rewrite (assoc (++)).
Qed.


End AnimateFacts.

Example animate_sample :
  Animation.animate (λ d, d <? 0) "0.37" ["u1"; "u2"] 1 2 []
  = Next [Animation.Display "placeholder" "0.37";
          Animation.Update (Animation.htmlDisplay "u1") "0.37"; Animation.Sleep 1;
          Animation.Update (Animation.htmlDisplay "u2") "0.37"; Animation.Sleep 1;
          Animation.Update (Animation.htmlDisplay "u1") "0.37"; Animation.Sleep 1;
          Animation.Update (Animation.htmlDisplay "u2") "0.37"; Animation.Sleep 1].
Proof. reflexivity. Qed.

(** ** Where an archive is unpacked *)

Lemma contains_append (c : ascii) (a b : string) :
  Py.contains c (a +:+ b) = Py.contains c a || Py.contains c b.
Proof.
  induction a as [|d a IH]; [done|]. rewrite append_cons. simpl.
  by rewrite IH, orb_assoc.
Qed.

Lemma rfind_append (c : ascii) (a b : string) :
  Fs.rfind c (a +:+ b)
  = match Fs.rfind c b with
    | Some i => Some (String.length a + i)%nat
    | None => Fs.rfind c a
    end.
Proof.
  induction a as [|d a IH]; [rewrite append_nil_l; by destruct (Fs.rfind c b)|].
  rewrite append_cons. cbn [Fs.rfind]. rewrite IH.
  by destruct (Fs.rfind c b).
Qed.

Lemma append_assoc (a b c : string) : (a +:+ b) +:+ c = a +:+ (b +:+ c).
Proof. induction a as [|d a IH]; [done|]. by rewrite !append_cons, IH. Qed.

Lemma substring_append (a b : string) :
  String.substring 0 (String.length a) (a +:+ b) = a.
Proof.
  induction a as [|c a IH]; [by destruct b|].
  rewrite append_cons. simpl. by rewrite IH.
Qed.

Lemma ends_with_slash_inv (s : string) :
  Fs.ends_with_slash s = true → ∃ pre, s = pre +:+ "/".
Proof.
  induction s as [|c s IH]; [done|]. cbn [Fs.ends_with_slash].
  destruct s as [|d s].
  - intros ->%Ascii.eqb_eq. by exists "".
  - intros (pre & ->)%IH. exists (String c pre). by rewrite append_cons.
Qed.

(** A plain name: one component of a path. *)
Lemma parts_plain (g : string) :
  Py.contains "/" g = false → g ≠ "" → g ≠ "." → Fs.parts g = [g].
Proof.
  intros Hfree Hne Hdot. unfold Fs.parts. rewrite split_no_sep by done.
  by rewrite filter_cons_True.
Qed.

Lemma plain_not_absolute (g : string) :
  Py.contains "/" g = false → Fs.starts_with_slash g = false.
Proof. destruct g as [|c g]; [done|]. simpl. by intros [? _]%orb_false_iff. Qed.

Lemma parts_append_plain (dest f : string) :
  Py.contains "/" f = false → f ≠ "" → f ≠ "." →
  Fs.parts (dest +:+ String "/" f) = Fs.parts dest ++ [f].
Proof.
  intros Hfree Hne Hdot. unfold Fs.parts.
  rewrite split_app_sep, filter_app. f_equal. by apply parts_plain.
Qed.

Lemma starts_with_slash_append (a b : string) :
  a ≠ "" → Fs.starts_with_slash (a +:+ b) = Fs.starts_with_slash a.
Proof. by destruct a. Qed.

(** The path of a plain name [f] in [dest]. *)
Lemma Path_join_plain (dest f : string) :
  Py.contains "/" f = false → f ≠ "" → f ≠ "." →
  Fs.Path (Fs.os_path_join dest f) = f :: Fs.Path dest.
Proof.
  intros Hfree Hne Hdot. unfold Fs.os_path_join.
  rewrite plain_not_absolute by done.
  destruct dest as [|c dest].
  - cbn [String.eqb orb]. rewrite append_nil_l. unfold Fs.Path.
    rewrite parts_plain, plain_not_absolute by done. done.
  - change (String.eqb (String c dest) "") with false. cbn [orb].
    destruct (Fs.ends_with_slash (String c dest)) eqn:Hslash.
    + destruct (ends_with_slash_inv _ Hslash) as [pre Hpre]. unfold Fs.Path.
      rewrite starts_with_slash_append by done. rewrite Hpre.
      rewrite append_assoc. change ("/" +:+ f) with (String "/" f).
      rewrite parts_append_plain by done.
      change (pre +:+ "/") with (pre +:+ String "/" "").
      unfold Fs.parts at 2. rewrite split_app_sep, filter_app.
      change (filter (λ c : string, c ≠ "" ∧ c ≠ ".") (Py.split "/" ""))
        with (@nil string).
      rewrite app_nil_r. fold (Fs.parts pre). by rewrite rev_app_distr.
    + unfold Fs.Path. rewrite starts_with_slash_append by done.
      change ("/" +:+ f) with (String "/" f).
      rewrite parts_append_plain by done. by rewrite rev_app_distr.
Qed.

Lemma stem_zip (g : string) (up : Fs.path) :
  g ≠ "" → Fs.stem ((g +:+ ".zip") :: up) = g.
Proof.
  intros Hne. unfold Fs.stem.
  assert (Fs.name ((g +:+ ".zip") :: up) = g +:+ ".zip") as ->.
  { destruct up; [|done]. cbn [Fs.name].
    destruct (String.eqb_spec (g +:+ ".zip") "/") as [Heq|]; [|done].
    apply (f_equal String.length) in Heq. rewrite length_append in Heq.
    simpl in Heq. lia. }
  rewrite rfind_append. change (Fs.rfind "." ".zip") with (Some 0%nat).
  rewrite length_append. cbn [String.length].
  assert (0 < String.length g)%nat by (destruct g; [done|simpl; lia]).
  replace (0 <? String.length g + 0)%nat with true by (symmetry; apply Nat.ltb_lt; lia).
  replace (String.length g + 0 <? String.length g + 4 - 1)%nat with true
    by (symmetry; apply Nat.ltb_lt; lia).
  cbn [andb]. rewrite Nat.add_0_r. apply substring_append.
Qed.

(** X11 — The archive [g.zip] in the directory [dest] is unpacked into [g] in
    [dest], for a plain name [g]: when [unzip] returns, it returns that
    path. *)
Theorem unzip_beside_archive (dest g : string) (overwrite : bool)
    (st : Ard.unzip_state) :
  Py.contains "/" g = false → g ≠ "" → g ≠ "." →
  let filename := Fs.os_path_join dest (g +:+ ".zip") in
  Fs.Path filename = (g +:+ ".zip") :: Fs.Path dest
  ∧ Ard.zipdir_of (Fs.Path filename) = g :: Fs.Path dest
  ∧ Ard.zipdir_of (Fs.Path filename) = Fs.Path (Fs.os_path_join dest g)
  ∧ ∀ d, (Ard.unzip filename overwrite st).1 = inr d → d = g :: Fs.Path dest.
Proof.
  intros Hfree Hne Hdot filename.
  assert (Fs.Path filename = (g +:+ ".zip") :: Fs.Path dest) as Hpath.
  { apply Path_join_plain.
    - by rewrite contains_append, Hfree.
    - by destruct g.
    - intros Heq. apply (f_equal String.length) in Heq.
      rewrite length_append in Heq. simpl in Heq. lia. }
  assert (Ard.zipdir_of (Fs.Path filename) = g :: Fs.Path dest) as Hzipdir.
  { rewrite Hpath. unfold Ard.zipdir_of, Fs.joinpath.
    rewrite stem_zip by done. rewrite plain_not_absolute, parts_plain by done.
    cbn [rev app]. f_equal. destruct (Fs.Path dest) as [|c up]; [|done].
    cbn [Fs.parent].
    destruct (String.eqb_spec (g +:+ ".zip") "/") as [Heq|]; [|done].
    apply (f_equal String.length) in Heq. rewrite length_append in Heq.
    simpl in Heq. lia. }
  split_and!; [done|done|by rewrite Path_join_plain| ].
  intros d. rewrite unzip_unfold. cbn zeta. rewrite Hzipdir.
  destruct (_ && _); [done|].
  intros Hd. by apply extract_from_spec in Hd as [-> _].
Qed.

Lemma unzip_beside_archive_witness :
  Py.contains "/" "2019-04-02_e045" = false
  ∧ Ard.zipdir_of (Fs.Path (Fs.os_path_join "data/use_case_1" "2019-04-02_e045.zip"))
    = ["2019-04-02_e045"; "use_case_1"; "data"].
Proof.
  assert (H1 : Py.contains "/" "2019-04-02_e045" = false) by reflexivity.
  assert (H2 : "2019-04-02_e045" ≠ "") by done.
  assert (H3 : "2019-04-02_e045" ≠ ".") by done.
  split; [exact H1|].
  exact (proj1 (proj2 (unzip_beside_archive "data/use_case_1" "2019-04-02_e045"
                         true sample_unzip H1 H2 H3))).
Defined.
